(** * QuantLib MNIST example: a shallow embedding of [MNIST_Example.ipynb]

    The notebook defines a [Metric] class, a [validate] function and a
    top-level script that drives the external frameworks (torch,
    torchvision, numpy, quantlib).  The functions of the notebook are embedded
    as Rocq functions; the external frameworks are parameters of the
    development.

    Numbers.  Python ints are modelled by [Z].  A Python float is a binary64
    number and is modelled by the rational it stands for; the notebook's own
    arithmetic on floats, the sums and the quotients of [Metric] and of
    [validate], rounds to binary64 after every operation, and the mean that
    torch takes of a float32 tensor rounds to binary32.  The values inside
    the tensors that are handed to the modules are carried as the rationals
    [k / 255] and [k]; what binary32 makes of them is treated apart. *)

From Stdlib Require Import String List ZArith QArith Qround Qfield Qpower Bool Lia Arith Permutation.
Import ListNotations.

(** ** Python exceptions and results *)

Inductive exn : Type :=
| ZeroDivisionError
| ValueError
| IndexError
| StopIteration.

Inductive result (A : Type) : Type :=
| Ok (a : A)
| Raise (e : exn).

Arguments Ok {A} a.
Arguments Raise {A} e.

(** ** Rounding to binary32

    The tensors of the notebook are float32.  [Binary32.round] rounds a
    rational to the nearest binary32 number, ties to even, for the normal
    range (no overflow, no subnormals), which is where the pixels and their
    products with 255 are. *)

Module Binary32.

(** Nearest integer to [n / d], ties to even, for [d > 0]. *)
Definition nearest_even (n d : Z) : Z :=
  let q := (n / d)%Z in
  let r := (n mod d)%Z in
  match (2 * r ?= d)%Z with
  | Lt => q
  | Gt => (q + 1)%Z
  | Eq => if Z.even q then q else (q + 1)%Z
  end.

(** [n / d * 2 ^ (- e)] as a fraction. *)
Definition scaled (n d e : Z) : Z * Z :=
  if (e <? 0)%Z then (n * 2 ^ (- e), d)%Z else (n, d * 2 ^ e)%Z.

(** The exponent [e] of the last place: [2^23 <= n / d * 2^(-e) < 2^24]. *)
Definition ulp_exponent (n d : Z) : Z :=
  let l := (Z.log2 n - Z.log2 d)%Z in
  let '(n', d') := scaled n d (l - 23) in
  if (2 ^ 23 * d' <=? n')%Z then (l - 23)%Z else (l - 24)%Z.

Definition round_pos (n d : Z) : Q :=
  let e := ulp_exponent n d in
  let '(n', d') := scaled n d e in
  let m := nearest_even n' d' in
  if (e <? 0)%Z then m # Z.to_pos (2 ^ (- e)) else inject_Z (m * 2 ^ e).

Definition round (x : Q) : Q :=
  match Qnum x with
  | Z0 => 0
  | Zpos n => round_pos (Zpos n) (Zpos (Qden x))
  | Zneg n => - round_pos (Zpos n) (Zpos (Qden x))
  end.

(** The float32 operations behind [ToTensor] and [data *= 255]. *)
Definition div (a b : Q) : Q := round (a / b).
Definition mul (a b : Q) : Q := round (a * b).

End Binary32.

(** ** Rounding to [p] significant bits

    The rounding of [Binary32], for any precision: [Rounding.round p x] is
    the number nearest to [x] among those with [p] significant bits, ties to
    even, the exponent being unbounded. *)

Module Rounding.

(** Nearest integer to [n / d], ties to even, for [d > 0]. *)
Definition nearest_even (n d : Z) : Z :=
  let q := (n / d)%Z in
  let r := (n mod d)%Z in
  match (2 * r ?= d)%Z with
  | Lt => q
  | Gt => (q + 1)%Z
  | Eq => if Z.even q then q else (q + 1)%Z
  end.

(** [n / d * 2 ^ (- e)] as a fraction. *)
Definition scaled (n d e : Z) : Z * Z :=
  if (e <? 0)%Z then (n * 2 ^ (- e), d)%Z else (n, d * 2 ^ e)%Z.

(** [2 ^ e], for any integer [e]. *)
Definition pow2 (e : Z) : Q := 2 ^ e.

Section Precision.
Variable p : Z.

(** The exponent [e] of the last place:
    [2^(p-1) <= n / d * 2^(-e) < 2^p]. *)
Definition ulp_exponent (n d : Z) : Z :=
  let l := (Z.log2 n - Z.log2 d)%Z in
  let '(n', d') := scaled n d (l - (p - 1)) in
  if (2 ^ (p - 1) * d' <=? n')%Z then (l - (p - 1))%Z else (l - p)%Z.

Definition round_pos (n d : Z) : Q :=
  let e := ulp_exponent n d in
  let '(n', d') := scaled n d e in
  let m := nearest_even n' d' in
  if (e <? 0)%Z then m # Z.to_pos (2 ^ (- e)) else inject_Z (m * 2 ^ e).

Definition round (x : Q) : Q :=
  match Qnum x with
  | Z0 => 0
  | Zpos n => round_pos (Zpos n) (Zpos (Qden x))
  | Zneg n => - round_pos (Zpos n) (Zpos (Qden x))
  end.

(** The numbers with [p] significant bits: [m * 2 ^ e] with [|m| <= 2 ^ p]. *)
Definition format (y : Q) : Prop :=
  exists m e : Z, (Z.abs m <= 2 ^ p)%Z /\ y == inject_Z m * pow2 e.

End Precision.
End Rounding.

(** ** Python floats

    The arithmetic of Python's [float], binary64, on the numbers that are far
    from its largest and smallest ones, as the accuracies, the losses and
    their sums are: the exact result, rounded to 53 significant bits.
    Results are fractions in lowest terms. *)

Module Binary64.

Definition round (x : Q) : Q := Qred (Rounding.round 53 (Qred x)).

(** [a + b] and [a / b] on floats; [float(z)] for an int [z], which is what
    Python makes of an int that meets a float in an operation. *)
Definition add (a b : Q) : Q := round (a + b).
Definition div (a b : Q) : Q := round (a / b).
Definition of_int (z : Z) : Q := round (inject_Z z).

End Binary64.

(** ** [class Metric]: convenience class to keep track of averages

    [validate] updates its [Metric] with Python floats, so that [sum] is a
    float from the first update on; [n] is an int. *)

Module Metric.

Record t : Type := Build {
  name : string;
  sum  : Q;
  n    : Z
}.

(** [__init__(self, name)] *)
Definition init (name : string) : t :=
  {| name := name; sum := 0; n := 0 |}.

(** [update(self, value)]: [self.sum += value; self.n += 1] *)
Definition update (self : t) (value : Q) : t :=
  {| name := name self;
     sum := Binary64.add (sum self) value;
     n := (n self + 1)%Z |}.

(** [avg]: [return self.sum / self.n]; Python's true division raises
    [ZeroDivisionError] when the divisor is zero, and divides the float by
    [float(self.n)] otherwise. *)
Definition avg (self : t) : result Q :=
  if (n self =? 0)%Z then Raise ZeroDivisionError
  else Ok (Binary64.div (sum self) (Binary64.of_int (n self))).

(** The object after the calls [update(v_1); ...; update(v_k)]. *)
Definition updates (self : t) (vs : list Q) : t :=
  fold_left update vs self.

End Metric.

(** [v_1 + ... + v_k] in Python floats, added from the left as the updates
    do. *)
Definition float_sum (vs : list Q) : Q := fold_left Binary64.add vs 0.

(** ** The part of torch and torchvision the notebook relies on

    A batch of images is a list of flattened images, a batch of labels a list
    of class indices, the output of a classifier a list of score rows. *)

Definition Image : Type := list Q.

Module Torch.

(** [transforms.ToTensor()] on a grey-scale byte image: every pixel [k]
    becomes [k / 255]. *)
Definition pixel (b : Byte.byte) : Z := Z.of_N (Byte.to_N b).

Definition ToTensor (raw : list Byte.byte) : Image :=
  map (fun b => inject_Z (pixel b) / 255) raw.

(** [data *= c] on a batch. *)
Definition mul_scalar (data : list Image) (c : Q) : list Image :=
  map (map (fun v => v * c)) data.

(** [argmax] of one row: the index of the first maximal value. *)
Fixpoint argmax_from (best : Q) (ibest i : nat) (row : list Q) : nat :=
  match row with
  | [] => ibest
  | v :: row' =>
      if Qlt_le_dec best v then argmax_from v i (S i) row'
      else argmax_from best ibest (S i) row'
  end.

Definition argmax (row : list Q) : nat :=
  match row with
  | [] => 0%nat
  | v :: row' => argmax_from v 0%nat 1%nat row'
  end.

(** [output.argmax(dim=1)] *)
Definition argmax_dim1 (output : list (list Q)) : list nat :=
  map argmax output.

(** [pred.eq(target)], element by element. *)
Fixpoint eq (pred target : list nat) : list bool :=
  match pred, target with
  | p :: pred', t :: target' => Nat.eqb p t :: eq pred' target'
  | _, _ => []
  end.

(** [.sum().item()] of a boolean tensor: the number of true entries. *)
Definition sum_item (bs : list bool) : Z :=
  Z.of_nat (count_occ bool_dec bs true).

(** [.float().mean().item()] of a boolean tensor (of a batch, which is never
    empty): the number of true entries over the number of entries, a
    division of float32 numbers; [.item()] gives the same number as a Python
    float.  Both counts are float32 numbers for a batch of at most [2 ^ 24]
    images. *)
Definition float_mean_item (bs : list bool) : Q :=
  Binary32.div (inject_Z (sum_item bs)) (inject_Z (Z.of_nat (length bs))).

(** [F.nll_loss(output, target, reduction='sum').item()]: minus the sum of
    the scores of the target classes.  It rejects a target batch whose size
    differs from the output's, and a class index outside a row.  The sum is
    carried without the rounding of torch's float32 additions: [validate]
    adds it to [loss] and neither returns nor shows it. *)
Fixpoint nll_rows (output : list (list Q)) (target : list nat) : option Q :=
  match output, target with
  | row :: output', t :: target' =>
      match nth_error row t, nll_rows output' target' with
      | Some v, Some s => Some (- v + s)
      | _, _ => None
      end
  | _, _ => Some 0
  end.

Definition nll_loss_sum_item (output : list (list Q)) (target : list nat)
  : result Q :=
  if negb (length output =? length target)%nat then Raise ValueError
  else match nll_rows output target with
       | Some s => Ok s
       | None => Raise IndexError
       end.

End Torch.

(** ** What lies outside the notebook

    The files under [./data], the objects torch and quantlib own (modules,
    graph modules and their hidden state [W]), and the library functions the
    notebook calls on them.  Modules are handles; every library call may read
    and change [W]. *)

Inductive Layer : Type :=
| Conv2d (in_channels out_channels kernel_size padding stride : nat) (bias : bool)
| BatchNorm2d (num_features : nat)
| ReLU
| Flatten
| Linear (in_features out_features : nat) (bias : bool).

Class External : Type := {
  (** the items (image bytes, label) of the MNIST splits, [train=True|False] *)
  mnist_items : bool -> list (list Byte.byte * nat);
  (** the rows and the columns of every image of the files, 28 and 28 in
      MNIST *)
  mnist_rows : nat;
  mnist_cols : nat;
  W : Type;
  NNModule : Type;
  (** [model(data)] *)
  forward : NNModule -> list Image -> W -> list (list Q) * W;
  (** [model.eval()] *)
  module_eval : NNModule -> W -> W;
  (** [model.to(device)] *)
  module_to : NNModule -> string -> W -> W;
  (** [os.system(cmd)] *)
  os_system : string -> W -> W;
  (** instantiating a [torch.nn.Module] from its layers *)
  nn_Module : list (string * Layer) -> W -> NNModule * W;
  (** [model.load_state_dict(torch.load(file, map_location='cpu'), strict=True)] *)
  load_state_dict : NNModule -> string -> W -> W;
  (** [quantlib.editing.graphs.fx.quantlib_symbolic_trace(root=model)] *)
  quantlib_symbolic_trace : NNModule -> W -> NNModule * W;
  (** [quantlib.editing.editing.float2fake]: the converter, the calibration
      context manager and the rounder *)
  F2F8bitPACTRoundingConverter : NNModule -> W -> NNModule * W;
  calibration_enter : NNModule -> W -> W;
  calibration_exit : NNModule -> W -> W;
  F2F8bitPACTRounder : NNModule -> W -> NNModule * W;
  (** [quantlib.editing.editing.f2t]: the converter, called with the shape
      and the scale of the input [x], and the remover of the last EpsTunnel *)
  F2T24bitConverter : NNModule -> list nat -> Q -> W -> NNModule * W;
  FinalEpsTunnelRemover : NNModule -> W -> NNModule * W;
  (** [quantlib.backends.dory.DORYExporter]: [export] and [dump_features] *)
  DORY_export : NNModule -> list nat -> string -> W -> W;
  DORY_dump_features : NNModule -> list Image -> string -> W -> W
}.

(** ** Datasets and data loaders *)

Inductive Dataset : Type :=
| MNIST (train : bool)       (* datasets.MNIST('./data', train=.., transform=ToTensor()) *)
| Subset (dataset : Dataset) (indices : list nat).  (* torch.utils.data.Subset *)

Section Data.
Context {E : External}.

Definition len (ds : Dataset) : nat :=
  match ds with
  | MNIST train => length (mnist_items train)
  | Subset _ indices => length indices
  end.

(** [ds[i]] *)
Fixpoint getitem (ds : Dataset) (i : nat) : result (Image * nat) :=
  match ds with
  | MNIST train =>
      match nth_error (mnist_items train) i with
      | Some (raw, label) => Ok (Torch.ToTensor raw, label)
      | None => Raise IndexError
      end
  | Subset ds' indices =>
      match nth_error indices i with
      | Some j => getitem ds' j
      | None => Raise IndexError
      end
  end.

(** The item of [./data] behind [ds[i]]: its split and its position there. *)
Fixpoint origin (ds : Dataset) (i : nat) : option (bool * nat) :=
  match ds with
  | MNIST train =>
      if (i <? length (mnist_items train))%nat then Some (train, i) else None
  | Subset ds' indices =>
      match nth_error indices i with
      | Some j => origin ds' j
      | None => None
      end
  end.

End Data.

Module DataLoader.

(** [torch.utils.data.DataLoader(dataset, batch_size=.., shuffle=False,
    drop_last=..)]: the sampler is sequential. *)
Record t : Type := Build {
  dataset : Dataset;
  batch_size : nat;
  drop_last : bool
}.

(** The constructor rejects a batch size that is not positive. *)
Definition make (dataset : Dataset) (batch_size : nat) (drop_last : bool)
  : result t :=
  if (batch_size =? 0)%nat then Raise ValueError
  else Ok (Build dataset batch_size drop_last).

Section Iter.
Context {E : External}.

(** [len(dataloader)] *)
Definition n_batches (dl : t) : nat :=
  let n := len (dataset dl) in
  let b := batch_size dl in
  if drop_last dl then (n / b)%nat else ((n + b - 1) / b)%nat.

(** The indices of the [k]-th batch. *)
Definition batch_indices (dl : t) (k : nat) : list nat :=
  let n := len (dataset dl) in
  let b := batch_size dl in
  seq (k * b) (Nat.min b (n - k * b)).

(** Fetching and collating one batch: the images and the labels. *)
Fixpoint fetch (ds : Dataset) (idx : list nat) : result (list Image * list nat) :=
  match idx with
  | [] => Ok ([], [])
  | i :: idx' =>
      match getitem ds i with
      | Raise e => Raise e
      | Ok (x, y) =>
          match fetch ds idx' with
          | Raise e => Raise e
          | Ok (xs, ys) => Ok (x :: xs, y :: ys)
          end
      end
  end.

(** [iter(dataloader)]: the batches, each fetched when it is reached. *)
Definition batches (dl : t) : list (result (list Image * list nat)) :=
  map (fun k => fetch (dataset dl) (batch_indices dl k)) (seq 0 (n_batches dl)).

End Iter.
End DataLoader.

(** ** Calls into the libraries, as they appear in a run *)

Inductive Event {E : External} : Type :=
| EvSystem (cmd : string)                       (* os.system(cmd) *)
| EvEval (m : NNModule)                         (* m.eval() *)
| EvTo (m : NNModule) (device : string)         (* m.to(device) *)
| EvForward (m : NNModule) (data : list Image) (output : list (list Q))  (* m(data) *)
| EvPostfix (acc : Q)                           (* t.set_postfix({'acc': acc}) *)
| EvPrint (text : string) (acc : Q)             (* print(text % acc) *)
| EvPrintGraph (m : NNModule)                   (* m.graph.print_tabular() *)
| EvNew (ret : NNModule)                        (* ExampleNet() *)
| EvLoadStateDict (m : NNModule) (file : string)
| EvTrace (root ret : NNModule)                 (* quantlib_symbolic_trace *)
| EvF2F (arg ret : NNModule)                    (* F2F8bitPACTRoundingConverter *)
| EvCalibEnter (m : NNModule)                   (* with calibration(m): *)
| EvCalibExit (m : NNModule)
| EvRounder (arg ret : NNModule)                (* F2F8bitPACTRounder *)
| EvF2T (arg : NNModule) (shape : list nat) (scale : Q) (ret : NNModule)
| EvEpsRemove (arg ret : NNModule)              (* FinalEpsTunnelRemover *)
| EvExport (m : NNModule) (shape : list nat) (path : string)
| EvDumpFeatures (m : NNModule) (x : list Image) (path : string).

(** ** The monad of the notebook: library state, exceptions, and the calls
    made so far *)

Section Monad.
Context {E : External}.

Definition M (A : Type) : Type := W -> result A * W * list Event.

Definition ret {A} (a : A) : M A := fun w => (Ok a, w, []).

Definition bind {A B} (m : M A) (f : A -> M B) : M B :=
  fun w =>
    match m w with
    | (Ok a, w1, ev1) =>
        match f a w1 with
        | (r, w2, ev2) => (r, w2, ev1 ++ ev2)
        end
    | (Raise e, w1, ev1) => (Raise e, w1, ev1)
    end.

(** A Python result inside the monad: a raised exception propagates. *)
Definition lift {A} (r : result A) : M A := fun w => (r, w, []).

Definition emit (ev : Event) : M unit := fun w => (Ok tt, w, [ev]).

(** A call that changes the library state and is recorded. *)
Definition call {A} (f : W -> A * W) (ev : A -> Event) : M A :=
  fun w => let (a, w') := f w in (Ok a, w', [ev a]).

(** [try: body finally: exit] *)
Definition finally {A} (body : M A) (exit : M unit) : M A :=
  fun w =>
    match body w with
    | (r, w1, ev1) =>
        match exit w1 with
        | (Ok _, w2, ev2) => (r, w2, ev1 ++ ev2)
        | (Raise e, w2, ev2) => (Raise e, w2, ev1 ++ ev2)
        end
    end.

(** [for x in xs: st = body(st, x)] *)
Fixpoint for_each {X S} (xs : list X) (body : S -> X -> M S) (st : S) : M S :=
  match xs with
  | [] => ret st
  | x :: xs' => bind (body st x) (for_each xs' body)
  end.

End Monad.

Declare Scope py_scope.
Delimit Scope py_scope with py.
Notation "x <- m ;; k" := (bind m (fun x => k))
  (at level 61, m at next level, right associativity) : py_scope.
Notation "m ;; k" := (bind m (fun _ => k))
  (at level 61, right associativity) : py_scope.

(** ** [validate] *)

Section Validate.
Context {E : External}.
Local Open Scope py_scope.

(** The local variables of [validate] that the loop updates. *)
Record Locals : Type := {
  loss    : Q;
  correct : Z;
  acc     : Metric.t
}.

(** Python's [a / b] for a float [a] and an int [b]. *)
Definition truediv (a : Q) (b : Z) : result Q :=
  if (b =? 0)%Z then Raise ZeroDivisionError
  else Ok (Binary64.div a (Binary64.of_int b)).

(** One iteration of [for data, target in dataloader:].  The batch is a
    fresh tensor at every iteration, so that [data *= 255] touches nothing
    else; [.to(device)] leaves the values as they are. *)
Definition validate_step (model : NNModule) (verbose integer : bool)
    (st : Locals) (batch : result (list Image * list nat)) : M Locals :=
  b <- lift batch ;;
  let data := if integer then Torch.mul_scalar (fst b) 255 else fst b in
  let target := snd b in
  output <- call (forward model data) (EvForward model data) ;;
  l <- lift (Torch.nll_loss_sum_item output target) ;;
  let pred := Torch.argmax_dim1 output in
  let acc' := Metric.update (acc st)
                (Torch.float_mean_item (Torch.eq pred target)) in
  a <- lift (Metric.avg acc') ;;
  (if verbose then emit (EvPostfix a) else ret tt) ;;
  ret {| loss := Binary64.add (loss st) l;
         correct := correct st + Torch.sum_item (Torch.eq pred target);
         acc := acc' |}.

(** The state of the locals when the loop is left. *)
Definition validate_loop (model : NNModule) (dataloader : DataLoader.t)
    (verbose integer : bool) : M Locals :=
  call (fun w => (tt, module_eval model w)) (fun _ => EvEval model) ;;
  for_each (DataLoader.batches dataloader)
           (validate_step model verbose integer)
           {| loss := 0; correct := 0; acc := Metric.init "test_acc" |}.

(** [def validate(model, device, dataloader, verbose=True, integer=False)] *)
Definition validate (model : NNModule) (device : string)
    (dataloader : DataLoader.t) (verbose integer : bool) : M Q :=
  st <- validate_loop model dataloader verbose integer ;;
  _ <- lift (truediv (loss st)
               (Z.of_nat (len (DataLoader.dataset dataloader)))) ;;
  lift (Metric.avg (acc st)).

End Validate.

(** ** [class ExampleNet(nn.Module)] *)

(** [__init__]: the layers, by attribute name. *)
Definition ExampleNet : list (string * Layer) :=
  [ ("conv1",   Conv2d 1 4 3 1 1 false);
    ("bn1",     BatchNorm2d 4);
    ("relu1",   ReLU);
    ("conv2",   Conv2d 4 20 3 1 2 false);
    ("bn2",     BatchNorm2d 20);
    ("relu2",   ReLU);
    ("conv3",   Conv2d 20 40 3 1 2 false);
    ("bn3",     BatchNorm2d 40);
    ("relu3",   ReLU);
    ("conv4",   Conv2d 40 80 3 1 2 false);
    ("bn4",     BatchNorm2d 80);
    ("relu4",   ReLU);
    ("flatten", Flatten);
    ("fc1",     Linear (80 * 4 ^ 2) 500 false);
    ("fcrelu1", ReLU);
    ("fc2",     Linear 500 10 false) ]%string%nat.

(** ** The cells of the notebook, from top to bottom *)

(** The global variables the later cells and the statements below refer to. *)
Record Globals {E : External} : Type := {
  calib_set        : Dataset;
  valid_set        : Dataset;
  calib_loader     : DataLoader.t;
  valid_loader     : DataLoader.t;
  model            : NNModule;
  model_fp         : NNModule;
  model_fq         : NNModule;
  model_fq_rounded : NNModule;
  x                : list Image;
  model_tq         : NNModule;
  model_tq_removed : NNModule
}.

Definition device : string := "cpu".

Definition Mcalib : nat := 1024.  (* calibration set size *)

(** [x.shape] for a batch of images of the files: [ToTensor] gives every
    image one channel, and the loader puts the images of a batch along a
    first dimension. *)
Definition shape {E : External} (x : list Image) : list nat :=
  [length x; 1%nat; mnist_rows; mnist_cols].

(** [torch.tensor((0.0039216,))]: the Python float of the literal, stored as
    float32. *)
Definition input_scale : Q :=
  Eval vm_compute in Binary32.round (Binary64.round (39216 # 10000000)).

(** [next(iter(dataloader))] *)
Definition next_iter {E : External} (dl : DataLoader.t)
  : result (list Image * list nat) :=
  match DataLoader.batches dl with
  | [] => Raise StopIteration
  | b :: _ => b
  end.

(** [x[0].unsqueeze(0)] *)
Definition first_unsqueezed (x : list Image) : result (list Image) :=
  match x with
  | [] => Raise IndexError
  | x0 :: _ => Ok [x0]
  end.

Section Notebook.
Context {E : External}.
Local Open Scope py_scope.
Local Open Scope string_scope.

Definition system (cmd : string) : M unit :=
  call (fun w => (tt, os_system cmd w)) (fun _ => EvSystem cmd).

Definition to (m : NNModule) (dev : string) : M unit :=
  call (fun w => (tt, module_to m dev w)) (fun _ => EvTo m dev).

Definition eval (m : NNModule) : M unit :=
  call (fun w => (tt, module_eval m w)) (fun _ => EvEval m).

(** [ExampleNet().to(device)] *)
Definition new_ExampleNet : M NNModule :=
  m <- call (nn_Module ExampleNet) EvNew ;;
  to m device ;;
  ret m.

(** [with qe.float2fake.calibration(m): body] *)
Definition with_calibration {A} (m : NNModule) (body : M A) : M A :=
  call (fun w => (tt, calibration_enter m w)) (fun _ => EvCalibEnter m) ;;
  finally body
    (call (fun w => (tt, calibration_exit m w)) (fun _ => EvCalibExit m)).

(** The script.  [perm] is what [np.random.permutation(len(train_set))]
    returns in this run; nothing in the notebook seeds the generator. *)
Definition notebook (perm : list nat) : M Globals :=
  (* Define ExampleNet *)
  model <- new_ExampleNet ;;
  (* Define Metrics and validation function: calibration set *)
  let train_set := MNIST true in
  let calib_set := Subset train_set (firstn Mcalib perm) in
  (* validation set *)
  let valid_set := MNIST false in
  (* set up the dataloaders *)
  calib_loader <- lift (DataLoader.make calib_set 128 true) ;;
  valid_loader <- lift (DataLoader.make valid_set 128 true) ;;
  system "rm -rf examplenet.pt" ;;
  system "wget https://github.com/MarcelloZanghieri2/NeMO_tutorial/blob/main/smallernet_4.pt?raw=true" ;;
  system "mv smallernet_4.pt?raw=true examplenet.pt" ;;
  model <- new_ExampleNet ;;
  call (fun w => (tt, load_state_dict model "examplenet.pt" w))
       (fun _ => EvLoadStateDict model "examplenet.pt") ;;
  acc <- validate model device valid_loader true false ;;
  emit (EvPrint "\n\nFullPrecision accuracy: %.3f" acc) ;;
  (* Trace floating-point model graph and print it *)
  model_fp <- call (quantlib_symbolic_trace model) (EvTrace model) ;;
  emit (EvPrintGraph model_fp) ;;
  (* float 2 fake *)
  model_fq <- call (F2F8bitPACTRoundingConverter model_fp) (EvF2F model_fp) ;;
  eval model_fq ;;
  emit (EvPrintGraph model_fq) ;;
  (* collect statistics, then add rounding to all PACT operators *)
  acc <- with_calibration model_fq
           (validate model_fq device calib_loader true false) ;;
  model_fq_rounded <- call (F2F8bitPACTRounder model_fq) (EvRounder model_fq) ;;
  to model_fq_rounded device ;;
  eval model_fq_rounded ;;
  acc <- validate model_fq_rounded device valid_loader true false ;;
  emit (EvPrint "\nFakeQuantized with calibration+rounding: accuracy: %.3f" acc) ;;
  (* get example input *)
  b <- lift (next_iter valid_loader) ;;
  x <- lift (first_unsqueezed (fst b)) ;;
  (* convert to TrueQuantized with default 24-bit converter *)
  let scale := input_scale in
  model_tq <- call (F2T24bitConverter model_fq_rounded (shape x) scale)
                   (EvF2T model_fq_rounded (shape x) scale) ;;
  emit (EvPrintGraph model_tq) ;;
  (* Test the network *)
  acc <- validate model_tq device valid_loader true true ;;
  emit (EvPrint "\nTrueQuantized: accuracy: %.3f" acc) ;;
  model_tq_removed <- call (FinalEpsTunnelRemover model_tq)
                           (EvEpsRemove model_tq) ;;
  (* Final export of data to DORY *)
  call (fun w => (tt, DORY_export model_tq (shape x) "." w))
       (fun _ => EvExport model_tq (shape x) ".") ;;
  call (fun w => (tt, DORY_dump_features model_tq x "." w))
       (fun _ => EvDumpFeatures model_tq x ".") ;;
  ret {| calib_set := calib_set; valid_set := valid_set;
         calib_loader := calib_loader; valid_loader := valid_loader;
         model := model; model_fp := model_fp; model_fq := model_fq;
         model_fq_rounded := model_fq_rounded; x := x;
         model_tq := model_tq; model_tq_removed := model_tq_removed |}.

End Notebook.

(** ** Reading a run

    The functions below only look at the calls a run has made. *)

Section Reading.
Context {E : External}.

(** The calls [m(data)] of a run, in order, with what they returned. *)
Definition forward_calls (evs : list Event)
  : list (NNModule * list Image * list (list Q)) :=
  flat_map (fun e => match e with
                     | EvForward m data output => [(m, data, output)]
                     | _ => []
                     end) evs.

(** The batches that were handed to a module. *)
Definition fed (evs : list Event) : list (list Image) :=
  map (fun c => snd (fst c)) (forward_calls evs).

(** What the modules returned. *)
Definition outputs (evs : list Event) : list (list (list Q)) :=
  map (fun c => snd c) (forward_calls evs).

(** The accuracies that were printed, with their texts. *)
Definition printed (evs : list Event) : list (string * Q) :=
  flat_map (fun e => match e with
                     | EvPrint text acc => [(text, acc)]
                     | _ => []
                     end) evs.

(** The calls [validate] itself makes: [eval], the module, the progress bar. *)
Definition is_validate_event (e : Event) : bool :=
  match e with
  | EvEval _ | EvForward _ _ _ | EvPostfix _ => true
  | _ => false
  end.

End Reading.

(** [pred.eq(target).float().mean().item()] and [pred.eq(target).sum().item()]
    for [pred = output.argmax(dim=1)]. *)
Definition batch_accuracy (output : list (list Q)) (target : list nat) : Q :=
  Torch.float_mean_item (Torch.eq (Torch.argmax_dim1 output) target).

Definition batch_correct (output : list (list Q)) (target : list nat) : Z :=
  Torch.sum_item (Torch.eq (Torch.argmax_dim1 output) target).

(** The tensor a module receives for a batch [data]. *)
Definition feed (integer : bool) (data : list Image) : list Image :=
  if integer then Torch.mul_scalar data 255 else data.

(** ** When torch has nothing to complain about *)

Section WellFormed.
Context {E : External}.

(** Every position of the dataset can be read. *)
Definition fetchable (ds : Dataset) : Prop :=
  forall i, (i < len ds)%nat -> exists it, getitem ds i = Ok it.

(** The labels of the dataset are class indices below [classes]. *)
Definition labels_below (classes : nat) (ds : Dataset) : Prop :=
  forall i x y, getitem ds i = Ok (x, y) -> (y < classes)%nat.

(** The module returns one row per image, with a score for every class. *)
Definition classifier (classes : nat) (m : NNModule) : Prop :=
  forall data w,
    length (fst (forward m data w)) = length data /\
    Forall (fun row => (classes <= length row)%nat) (fst (forward m data w)).

End WellFormed.

(** The per-batch accuracies of a run over the batches [bs], from what the
    module returned for each of them. *)
Definition accuracies {E : External} (evs : list Event)
    (bs : list (list Image * list nat)) : list Q :=
  map (fun ot => batch_accuracy (fst ot) (snd ot))
      (combine (outputs evs) (map snd bs)).

(** ** The calls of a whole run

    [m0] is the module of the cell that defines [ExampleNet]; [acc1], [acc3]
    and [acc4] are the accuracies of the three tests on [valid_loader], and
    [ev1] ... [ev4] the calls of the four runs of [validate]. *)

Section Script.
Context {E : External}.
Local Open Scope string_scope.

(** The calls before the calibration context is entered. *)
Definition events_before_calibration (g : Globals) (m0 : NNModule) (acc1 : Q)
    (ev1 : list Event) : list Event :=
  [ EvNew m0; EvTo m0 device;
    EvSystem "rm -rf examplenet.pt";
    EvSystem "wget https://github.com/MarcelloZanghieri2/NeMO_tutorial/blob/main/smallernet_4.pt?raw=true";
    EvSystem "mv smallernet_4.pt?raw=true examplenet.pt";
    EvNew (model g); EvTo (model g) device;
    EvLoadStateDict (model g) "examplenet.pt" ]
  ++ ev1 ++
  [ EvPrint "\n\nFullPrecision accuracy: %.3f" acc1;
    EvTrace (model g) (model_fp g); EvPrintGraph (model_fp g);
    EvF2F (model_fp g) (model_fq g); EvEval (model_fq g);
    EvPrintGraph (model_fq g) ].

(** The calls after the calibration context is left. *)
Definition events_after_calibration (g : Globals) (acc3 acc4 : Q)
    (ev3 ev4 : list Event) : list Event :=
  [ EvRounder (model_fq g) (model_fq_rounded g);
    EvTo (model_fq_rounded g) device; EvEval (model_fq_rounded g) ]
  ++ ev3 ++
  [ EvPrint "\nFakeQuantized with calibration+rounding: accuracy: %.3f" acc3;
    EvF2T (model_fq_rounded g) (shape (x g)) input_scale (model_tq g);
    EvPrintGraph (model_tq g) ]
  ++ ev4 ++
  [ EvPrint "\nTrueQuantized: accuracy: %.3f" acc4;
    EvEpsRemove (model_tq g) (model_tq_removed g);
    EvExport (model_tq g) (shape (x g)) ".";
    EvDumpFeatures (model_tq g) (x g) "." ].

Definition script_events (g : Globals) (m0 : NNModule) (acc1 acc3 acc4 : Q)
    (ev1 ev2 ev3 ev4 : list Event) : list Event :=
  events_before_calibration g m0 acc1 ev1
  ++ [EvCalibEnter (model_fq g)] ++ ev2
  ++ [EvCalibExit (model_fq g)] ++ events_after_calibration g acc3 acc4 ev3 ev4.

End Script.

(** [m] returns, whatever the state of the libraries, with a value in [P]. *)
Definition returns {E : External} {A} (m : M A) (P : A -> Prop) : Prop :=
  forall w, exists a w' evs, m w = (Ok a, w', evs) /\ P a.

(** What a run of the notebook takes for granted: the modules classify into
    the ten digits, the labels of both splits are digits, [perm] is a
    permutation of the positions of the training split, which has at least
    [Mcalib] items, and the test split fills at least one batch. *)
Definition run_conditions {E : External} (perm : list nat) : Prop :=
  (forall m, classifier 10 m) /\
  (forall train, Forall (fun it => (snd it < 10)%nat) (mnist_items train)) /\
  Permutation perm (seq 0 (len (MNIST true))) /\
  (Mcalib <= len (MNIST true))%nat /\
  (128 <= len (MNIST false))%nat.

(** ** The three representations of the network *)

Inductive Stage : Type :=
| FloatingPoint
| FakeQuantized
| TrueQuantized.

Section Pipeline.
Context {E : External}.

(** The calls that produce or consume a representation of the network:
    loading the pretrained weights, tracing, the converters and editors of
    quantlib, and the DORY exporter. *)
Definition is_pipeline_event (e : Event) : bool :=
  match e with
  | EvLoadStateDict _ _ | EvTrace _ _ | EvF2F _ _ | EvRounder _ _
  | EvF2T _ _ _ _ | EvEpsRemove _ _ | EvExport _ _ _
  | EvDumpFeatures _ _ _ => true
  | _ => false
  end.

Definition pipeline (evs : list Event) : list Event :=
  filter is_pipeline_event evs.

(** The representation a call brings the network into: the pretrained
    weights are floating-point, Float2Fake gives the fake-quantized network,
    Fake2True the true-quantized one. *)
Definition stage_entered (e : Event) : list Stage :=
  match e with
  | EvLoadStateDict _ _ => [FloatingPoint]
  | EvF2F _ _ => [FakeQuantized]
  | EvF2T _ _ _ _ => [TrueQuantized]
  | _ => []
  end.

Definition stages (evs : list Event) : list Stage :=
  flat_map stage_entered evs.

(** The calls to the DORY backend. *)
Definition is_export (e : Event) : bool :=
  match e with
  | EvExport _ _ _ | EvDumpFeatures _ _ _ => true
  | _ => false
  end.

End Pipeline.

(** [ev] are the calls, and [acc] the value, of a run of
    [validate(m, device, dl, integer=integer)]. *)
Definition tested_on {E : External} (m : NNModule) (dl : DataLoader.t)
    (integer : bool) (acc : Q) (ev : list Event) : Prop :=
  exists w w', validate m device dl true integer w = (Ok acc, w', ev).

(** The state of the libraries when a run ends; the networks and their
    quantizers live there. *)
Definition final_state {E : External} (perm : list nat) (w : W) : W :=
  snd (fst (notebook perm w)).

(** ** Numbers that come from the libraries *)

(** The numbers the libraries hand back to [validate] for one batch: the
    three [.item()] values. *)
Definition items_of_batch (output : list (list Q)) (target : list nat)
  : list Q :=
  match Torch.nll_loss_sum_item output target with
  | Ok l => [l]
  | Raise _ => []
  end ++ [inject_Z (batch_correct output target); batch_accuracy output target].

(** All of them, over a run on the batches [bs]. *)
Definition items_returned {E : External} (evs : list Event)
    (bs : list (list Image * list nat)) : list Q :=
  flat_map (fun ot => items_of_batch (fst ot) (snd ot))
           (combine (outputs evs) (map snd bs)).

(** A function that only hands on what the libraries or its caller gave it
    returns one of these numbers.  For [Metric] these are the values passed
    to [update]; for [validate], the numbers the libraries returned. *)
Definition Metric_only_delegates : Prop :=
  forall (name : string) (vs : list Q) (r : Q),
    Metric.avg (Metric.updates (Metric.init name) vs) = Ok r ->
    exists v, In v vs /\ r == v.

Definition validate_only_delegates : Prop :=
  forall (E : External) model dev dl verbose integer w r w' evs bs,
    validate model dev dl verbose integer w = (Ok r, w', evs) ->
    DataLoader.batches dl = map Ok bs ->
    exists v, In v (items_returned evs bs) /\ r == v.



(** ** A small instance of the outside world, to run the notebook on

    The training split has 1030 items and the test split 300; an image is a
    single pixel, of value [(37 * i + 84) mod 256] for item [i], and the
    label of item [i] is [i mod 10].  A module is numbered by the calls that
    produced it and scores class [k mod 10] highest for a pixel of value
    [k / 255]; the state of the libraries records the batches the modules
    have seen. *)

Module Toy.

Definition image_of (i : nat) : list Byte.byte * nat :=
  (match Byte.of_N (N.of_nat ((37 * i + 84) mod 256)) with
   | Some b => [b]
   | None => []
   end, (i mod 10)%nat).

Definition train_items : list (list Byte.byte * nat) :=
  Eval vm_compute in map image_of (seq 0 1030).

Definition test_items : list (list Byte.byte * nat) :=
  Eval vm_compute in map image_of (seq 0 300).

Definition items (train : bool) : list (list Byte.byte * nat) :=
  if train then train_items else test_items.

Definition row (img : Image) : list Q :=
  let k := match img with
           | [] => 0%Z
           | v :: _ => Qfloor (v * 255)
           end in
  map (fun c => if (Z.of_nat c =? k mod 10)%Z then 1 else 0) (seq 0 10).

#[export] Instance world : External := {
  mnist_items := items;
  mnist_rows := 1;
  mnist_cols := 1;
  W := list (list Image);
  NNModule := nat;
  forward := fun m data w => (map row data, data :: w);
  module_eval := fun _ w => w;
  module_to := fun _ _ w => w;
  os_system := fun _ w => w;
  nn_Module := fun _ w => (0%nat, w);
  load_state_dict := fun _ _ w => w;
  quantlib_symbolic_trace := fun m w => (S m, w);
  F2F8bitPACTRoundingConverter := fun m w => (S m, w);
  calibration_enter := fun _ w => w;
  calibration_exit := fun _ w => w;
  F2F8bitPACTRounder := fun m w => (S m, w);
  F2T24bitConverter := fun m _ _ w => (S m, w);
  FinalEpsTunnelRemover := fun m w => (S m, w);
  DORY_export := fun _ _ _ w => w;
  DORY_dump_features := fun _ _ _ w => w
}.

(** The outcome of [np.random.permutation(1030)] in the run below. *)
Definition perm : list nat := seq 0 1030.

(** Another outcome of the same call: item 1024 comes first. *)
Definition perm' : list nat := 1024%nat :: seq 0 1024 ++ seq 1025 5.

(** The test loader of the notebook. *)
Definition valid_loader : DataLoader.t := DataLoader.Build (MNIST false) 128 true.

End Toy.

(** A loader over the small world's test split with batches of 100, and its
    batches. *)
Definition Toy_loader : DataLoader.t := DataLoader.Build (MNIST false) 100 true.

Definition Toy_batches : list (list Image * list nat) :=
  Eval vm_compute in
    flat_map (fun b => match b with Ok xy => [xy] | Raise _ => [] end)
             (DataLoader.batches (E := Toy.world) Toy_loader).

(** ** [ExampleNet.forward] and the shapes it goes through *)

(** [forward(self, x)]: the attributes applied to [x], in order, and the
    reshaping [x.view(x.size(0), -1)] between [relu4] and [fc1]. *)
Inductive Step : Type :=
| Apply (attribute : string)
| View.

Definition ExampleNet_forward : list Step :=
  [ Apply "conv1"; Apply "bn1"; Apply "relu1";
    Apply "conv2"; Apply "bn2"; Apply "relu2";
    Apply "conv3"; Apply "bn3"; Apply "relu3";
    Apply "conv4"; Apply "bn4"; Apply "relu4";
    View;
    Apply "fc1"; Apply "fcrelu1";
    Apply "fc2" ]%string.

(** The shape of one example in a batch: channels, height and width, or a
    flat vector. *)
Inductive Shape : Type :=
| CHW (channels height width : nat)
| Flat (features : nat).

Module Shapes.

(** The output size of a convolution along one axis, when the padded input
    is at least as large as the kernel. *)
Definition conv_out (size kernel_size padding stride : nat) : option nat :=
  if ((kernel_size <=? size + 2 * padding) && (1 <=? stride))%nat
  then Some ((size + 2 * padding - kernel_size) / stride + 1)%nat
  else None.

(** The shape a layer returns, [None] where torch raises: a convolution or a
    batch normalisation on the wrong number of channels or on a flat vector,
    a linear layer on a last dimension that is not [in_features]. *)
Definition layer (l : Layer) (s : Shape) : option Shape :=
  match l, s with
  | Conv2d cin cout k p st _, CHW c h w =>
      if (c =? cin)%nat then
        match conv_out h k p st, conv_out w k p st with
        | Some h', Some w' => Some (CHW cout h' w')
        | _, _ => None
        end
      else None
  | Conv2d _ _ _ _ _ _, Flat _ => None
  | BatchNorm2d n, CHW c h w => if (c =? n)%nat then Some s else None
  | BatchNorm2d _, Flat _ => None
  | ReLU, _ => Some s
  | Flatten, CHW c h w => Some (Flat (c * h * w))
  | Flatten, Flat _ => Some s
  | Linear fin fout _, Flat n => if (n =? fin)%nat then Some (Flat fout) else None
  | Linear fin fout _, CHW c h w =>
      if (w =? fin)%nat then Some (CHW c h fout) else None
  end.

(** [getattr(self, name)] *)
Fixpoint attribute (layers : list (string * Layer)) (name : string)
  : option Layer :=
  match layers with
  | [] => None
  | (n, l) :: layers' =>
      if String.eqb n name then Some l else attribute layers' name
  end.

Definition step (layers : list (string * Layer)) (st : Step) (s : Shape)
  : option Shape :=
  match st with
  | Apply name =>
      match attribute layers name with
      | Some l => layer l s
      | None => None
      end
  | View =>
      match s with
      | CHW c h w => Some (Flat (c * h * w))
      | Flat n => Some (Flat n)
      end
  end.

Fixpoint run (layers : list (string * Layer)) (steps : list Step) (s : Shape)
  : option Shape :=
  match steps with
  | [] => Some s
  | st :: steps' =>
      match step layers st s with
      | Some s' => run layers steps' s'
      | None => None
      end
  end.

End Shapes.

(** The shape [ExampleNet] returns for an example of shape [s]. *)
Definition ExampleNet_shape (s : Shape) : option Shape :=
  Shapes.run ExampleNet ExampleNet_forward s.

(** ** The progress bar *)

(** The values [t.set_postfix({'acc': ...})] has shown. *)
Definition postfixes {E : External} (evs : list Event) : list Q :=
  flat_map (fun e => match e with EvPostfix a => [a] | _ => [] end) evs.

(** A run without what the progress bar shows. *)
Definition without_postfix {E : External} (evs : list Event) : list Event :=
  filter (fun e => match e with EvPostfix _ => false | _ => true end) evs.

(** [m'] runs like [m], the progress bar apart. *)
Definition quieter {E : External} {A} (m m' : M A) : Prop :=
  forall w,
    m' w = (fst (fst (m w)), snd (fst (m w)), without_postfix (snd (m w))).

(** ** The values of the inputs *)

(** A pixel as the files have it: an integer from 0 to 255. *)
Definition is_pixel (v : Q) : Prop :=
  exists k : Z, (0 <= k <= 255)%Z /\ v == inject_Z k.

(** A pixel as [ToTensor] gives it: [k / 255]. *)
Definition is_normalised (v : Q) : Prop :=
  exists k : Z, (0 <= k <= 255)%Z /\ v == inject_Z k / 255.

(** ** Runs that raise *)

Section Safety.
Context {E : External}.

Definition is_calib_enter (e : Event) : bool :=
  match e with EvCalibEnter _ => true | _ => false end.

Definition is_calib_exit (e : Event) : bool :=
  match e with EvCalibExit _ => true | _ => false end.

(** Nothing was handed to DORY, and every calibration context that was
    entered has been left. *)
Definition no_export_and_balanced (evs : list Event) : Prop :=
  existsb is_export evs = false /\
  length (filter is_calib_enter evs) = length (filter is_calib_exit evs).

(** [m] never calls DORY and leaves the calibration contexts it enters,
    whether it returns or raises. *)
Definition careful {A} (m : M A) : Prop :=
  forall w, no_export_and_balanced (snd (m w)).

(** [m] leaves the calibration contexts it enters, and calls DORY only in
    runs that return. *)
Definition exports_last {A} (m : M A) : Prop :=
  forall w,
    length (filter is_calib_enter (snd (m w)))
    = length (filter is_calib_exit (snd (m w))) /\
    ((exists a, fst (fst (m w)) = Ok a) \/ existsb is_export (snd (m w)) = false).

End Safety.

(** The small world with a test split of 100 items, less than a batch. *)
Definition Toy_short : External := {|
  mnist_items := fun train =>
    if train then Toy.train_items else firstn 100 Toy.test_items;
  mnist_rows := @mnist_rows Toy.world;
  mnist_cols := @mnist_cols Toy.world;
  W := @W Toy.world;
  NNModule := @NNModule Toy.world;
  forward := @forward Toy.world;
  module_eval := @module_eval Toy.world;
  module_to := @module_to Toy.world;
  os_system := @os_system Toy.world;
  nn_Module := @nn_Module Toy.world;
  load_state_dict := @load_state_dict Toy.world;
  quantlib_symbolic_trace := @quantlib_symbolic_trace Toy.world;
  F2F8bitPACTRoundingConverter := @F2F8bitPACTRoundingConverter Toy.world;
  calibration_enter := @calibration_enter Toy.world;
  calibration_exit := @calibration_exit Toy.world;
  F2F8bitPACTRounder := @F2F8bitPACTRounder Toy.world;
  F2T24bitConverter := @F2T24bitConverter Toy.world;
  FinalEpsTunnelRemover := @FinalEpsTunnelRemover Toy.world;
  DORY_export := @DORY_export Toy.world;
  DORY_dump_features := @DORY_dump_features Toy.world
|}.

(** ** The cells before the calibration *)

Section HeadAndTail.
Context {E : External}.
Local Open Scope py_scope.
Local Open Scope string_scope.

(** The cells up to the Float2Fake conversion, without the draw and the
    calibration set, which they do not use: they give the pretrained
    network, its trace and the fake-quantized network. *)
Definition notebook_head : M (NNModule * NNModule * NNModule) :=
  model <- new_ExampleNet ;;
  system "rm -rf examplenet.pt" ;;
  system "wget https://github.com/MarcelloZanghieri2/NeMO_tutorial/blob/main/smallernet_4.pt?raw=true" ;;
  system "mv smallernet_4.pt?raw=true examplenet.pt" ;;
  model <- new_ExampleNet ;;
  call (fun w => (tt, load_state_dict model "examplenet.pt" w))
       (fun _ => EvLoadStateDict model "examplenet.pt") ;;
  acc <- validate model device (DataLoader.Build (MNIST false) 128 true)
           true false ;;
  emit (EvPrint "\n\nFullPrecision accuracy: %.3f" acc) ;;
  model_fp <- call (quantlib_symbolic_trace model) (EvTrace model) ;;
  emit (EvPrintGraph model_fp) ;;
  model_fq <- call (F2F8bitPACTRoundingConverter model_fp) (EvF2F model_fp) ;;
  eval model_fq ;;
  emit (EvPrintGraph model_fq) ;;
  ret (model, model_fp, model_fq).

(** The cells from the calibration on. *)
Definition notebook_tail (perm : list nat)
    (models : NNModule * NNModule * NNModule) : M Globals :=
  let '(model, model_fp, model_fq) := models in
  let calib_set := Subset (MNIST true) (firstn Mcalib perm) in
  let valid_set := MNIST false in
  let calib_loader := DataLoader.Build calib_set 128 true in
  let valid_loader := DataLoader.Build valid_set 128 true in
  acc <- with_calibration model_fq
           (validate model_fq device calib_loader true false) ;;
  model_fq_rounded <- call (F2F8bitPACTRounder model_fq) (EvRounder model_fq) ;;
  to model_fq_rounded device ;;
  eval model_fq_rounded ;;
  acc <- validate model_fq_rounded device valid_loader true false ;;
  emit (EvPrint "\nFakeQuantized with calibration+rounding: accuracy: %.3f" acc) ;;
  b <- lift (next_iter valid_loader) ;;
  x <- lift (first_unsqueezed (fst b)) ;;
  let scale := input_scale in
  model_tq <- call (F2T24bitConverter model_fq_rounded (shape x) scale)
                   (EvF2T model_fq_rounded (shape x) scale) ;;
  emit (EvPrintGraph model_tq) ;;
  acc <- validate model_tq device valid_loader true true ;;
  emit (EvPrint "\nTrueQuantized: accuracy: %.3f" acc) ;;
  model_tq_removed <- call (FinalEpsTunnelRemover model_tq)
                           (EvEpsRemove model_tq) ;;
  call (fun w => (tt, DORY_export model_tq (shape x) "." w))
       (fun _ => EvExport model_tq (shape x) ".") ;;
  call (fun w => (tt, DORY_dump_features model_tq x "." w))
       (fun _ => EvDumpFeatures model_tq x ".") ;;
  ret {| calib_set := calib_set; valid_set := valid_set;
         calib_loader := calib_loader; valid_loader := valid_loader;
         model := model; model_fp := model_fp; model_fq := model_fq;
         model_fq_rounded := model_fq_rounded; x := x;
         model_tq := model_tq; model_tq_removed := model_tq_removed |}.

End HeadAndTail.

(** The small world with modules that return no row at all. *)
Definition Toy_mute : External := {|
  mnist_items := @mnist_items Toy.world;
  mnist_rows := @mnist_rows Toy.world;
  mnist_cols := @mnist_cols Toy.world;
  W := @W Toy.world;
  NNModule := @NNModule Toy.world;
  forward := fun _ _ w => ([], w);
  module_eval := @module_eval Toy.world;
  module_to := @module_to Toy.world;
  os_system := @os_system Toy.world;
  nn_Module := @nn_Module Toy.world;
  load_state_dict := @load_state_dict Toy.world;
  quantlib_symbolic_trace := @quantlib_symbolic_trace Toy.world;
  F2F8bitPACTRoundingConverter := @F2F8bitPACTRoundingConverter Toy.world;
  calibration_enter := @calibration_enter Toy.world;
  calibration_exit := @calibration_exit Toy.world;
  F2F8bitPACTRounder := @F2F8bitPACTRounder Toy.world;
  F2T24bitConverter := @F2T24bitConverter Toy.world;
  FinalEpsTunnelRemover := @FinalEpsTunnelRemover Toy.world;
  DORY_export := @DORY_export Toy.world;
  DORY_dump_features := @DORY_dump_features Toy.world
|}.

(** The small world with a training split of 100 items, less than a batch. *)
Definition Toy_few : External := {|
  mnist_items := fun train =>
    if train then firstn 100 Toy.train_items else Toy.test_items;
  mnist_rows := @mnist_rows Toy.world;
  mnist_cols := @mnist_cols Toy.world;
  W := @W Toy.world;
  NNModule := @NNModule Toy.world;
  forward := @forward Toy.world;
  module_eval := @module_eval Toy.world;
  module_to := @module_to Toy.world;
  os_system := @os_system Toy.world;
  nn_Module := @nn_Module Toy.world;
  load_state_dict := @load_state_dict Toy.world;
  quantlib_symbolic_trace := @quantlib_symbolic_trace Toy.world;
  F2F8bitPACTRoundingConverter := @F2F8bitPACTRoundingConverter Toy.world;
  calibration_enter := @calibration_enter Toy.world;
  calibration_exit := @calibration_exit Toy.world;
  F2F8bitPACTRounder := @F2F8bitPACTRounder Toy.world;
  F2T24bitConverter := @F2T24bitConverter Toy.world;
  FinalEpsTunnelRemover := @FinalEpsTunnelRemover Toy.world;
  DORY_export := @DORY_export Toy.world;
  DORY_dump_features := @DORY_dump_features Toy.world
|}.

(** * Facts and proofs *)

(** ** Rounding: powers of two *)
Lemma pow2_pos (e : Z) : 0 < Rounding.pow2 e.
Proof. apply Qpower_0_lt. reflexivity. Qed.

Lemma pow2_plus (a b : Z) :
  Rounding.pow2 (a + b) == Rounding.pow2 a * Rounding.pow2 b.
Proof. apply Qpower_plus. discriminate. Qed.

Lemma pow2_opp (a : Z) : Rounding.pow2 (- a) == / Rounding.pow2 a.
Proof. apply Qpower_opp. Qed.

Lemma pow2_Z (a : Z) : (0 <= a)%Z -> Rounding.pow2 a == inject_Z (2 ^ a).
Proof. intros H. unfold Rounding.pow2. rewrite Zpower_Qpower by exact H. reflexivity. Qed.

Lemma pow2_le (a b : Z) : (a <= b)%Z -> Rounding.pow2 a <= Rounding.pow2 b.
Proof. intros H. apply Qpower_le_compat_l; [exact H | discriminate]. Qed.

Lemma pow2_cancel (a : Z) : Rounding.pow2 a * Rounding.pow2 (- a) == 1.
Proof. rewrite <- pow2_plus, Z.add_opp_diag_r. reflexivity. Qed.

(** ** the nearest integer *)

Section Nearest.
Variables n d : Z.
Hypothesis Hd : (0 < d)%Z.

Lemma nearest_even_le (z : Z) :
  (n <= z * d)%Z -> (Rounding.nearest_even n d <= z)%Z.
Proof.
  intros H. unfold Rounding.nearest_even.
  pose proof (Z.div_mod n d ltac:(lia)) as Hdm.
  pose proof (Z.mod_pos_bound n d Hd) as Hr.
  destruct (Z.compare_spec (2 * (n mod d)) d) as [He|Hl|Hg].
  - destruct (Z.even (n / d)); nia.
  - nia.
  - nia.
Qed.

Lemma nearest_even_ge (z : Z) :
  (z * d <= n)%Z -> (z <= Rounding.nearest_even n d)%Z.
Proof.
  intros H. unfold Rounding.nearest_even.
  pose proof (Z.div_mod n d ltac:(lia)) as Hdm.
  pose proof (Z.mod_pos_bound n d Hd) as Hr.
  destruct (Z.compare_spec (2 * (n mod d)) d) as [He|Hl|Hg].
  - destruct (Z.even (n / d)); nia.
  - nia.
  - nia.
Qed.

Lemma nearest_even_tie (z : Z) :
  Z.even z = true -> (2 * n <= (2 * z + 1) * d)%Z ->
  (Rounding.nearest_even n d <= z)%Z.
Proof.
  intros Hz H. unfold Rounding.nearest_even.
  pose proof (Z.div_mod n d ltac:(lia)) as Hdm.
  pose proof (Z.mod_pos_bound n d Hd) as Hr.
  destruct (Z.compare_spec (2 * (n mod d)) d) as [He|Hl|Hg].
  - destruct (Z.even (n / d)) eqn:Hq; [nia|].
    assert (n / d <> z)%Z by (intros Heq; rewrite Heq in Hq; congruence). nia.
  - nia.
  - nia.
Qed.

End Nearest.

(** ** scaling *)

Lemma inject_Z_pos (z : Z) : (0 < z)%Z -> 0 < inject_Z z.
Proof. intros H. replace 0 with (inject_Z 0) by reflexivity. rewrite <- Zlt_Qlt. exact H. Qed.

Lemma scaled_spec (n d e : Z) :
  (0 < d)%Z ->
  (0 < snd (Rounding.scaled n d e))%Z /\
  inject_Z (fst (Rounding.scaled n d e))
  == inject_Z n / inject_Z d * Rounding.pow2 (- e)
     * inject_Z (snd (Rounding.scaled n d e)).
Proof.
  intros Hd. unfold Rounding.scaled.
  pose proof (inject_Z_pos d Hd) as Hdq.
  pose proof (pow2_pos e) as He.
  destruct (Z.ltb_spec e 0) as [Hlt|Hge]; cbn [fst snd].
  - split; [exact Hd|].
    rewrite inject_Z_mult, <- pow2_Z by lia.
    field. intros H. rewrite H in Hdq. discriminate.
  - split; [apply Z.mul_pos_pos; [exact Hd | apply Z.pow_pos_nonneg; lia]|].
    rewrite inject_Z_mult, <- pow2_Z by lia. rewrite pow2_opp.
    field. split.
    + intros H. rewrite H in He. discriminate.
    + intros H. rewrite H in Hdq. discriminate.
Qed.

(** Comparing the scaled fraction with an integer. *)
Lemma scaled_le (x : Q) (n' d' z : Z) :
  (0 < d')%Z -> inject_Z n' == x * inject_Z d' ->
  (inject_Z z <= x <-> (z * d' <= n')%Z).
Proof.
  intros Hd Hn. pose proof (inject_Z_pos d' Hd) as Hdq.
  rewrite Zle_Qle, inject_Z_mult, Hn. split; intros H.
  - apply Qmult_le_compat_r; [exact H | apply Qlt_le_weak; exact Hdq].
  - apply Qmult_lt_0_le_reg_r in H; assumption.
Qed.

Lemma scaled_ge (x : Q) (n' d' z : Z) :
  (0 < d')%Z -> inject_Z n' == x * inject_Z d' ->
  (x <= inject_Z z <-> (n' <= z * d')%Z).
Proof.
  intros Hd Hn. pose proof (inject_Z_pos d' Hd) as Hdq.
  rewrite Zle_Qle, inject_Z_mult, Hn. split; intros H.
  - apply Qmult_le_compat_r; [exact H | apply Qlt_le_weak; exact Hdq].
  - apply Qmult_lt_0_le_reg_r in H; assumption.
Qed.

(** ** the exponent of the last place *)

Lemma log2_bounds (n : Z) :
  (0 < n)%Z ->
  Rounding.pow2 (Z.log2 n) <= inject_Z n /\
  inject_Z n < Rounding.pow2 (Z.log2 n + 1).
Proof.
  intros Hn. destruct (Z.log2_spec n Hn) as (H1 & H2).
  pose proof (Z.log2_nonneg n) as H0.
  rewrite !pow2_Z by lia. rewrite <- Zle_Qle, <- Zlt_Qlt.
  split; [exact H1 | exact H2].
Qed.

Ltac pow2_eq :=
  rewrite <- ?pow2_plus;
  unfold Rounding.pow2; apply Qpower_comp; [reflexivity | lia].

Section Exponent.
Variable p : Z.
Hypothesis Hp : (2 <= p)%Z.
Variables n d : Z.
Hypothesis Hn : (0 < n)%Z.
Hypothesis Hd : (0 < d)%Z.

Lemma ratio_bounds :
  Rounding.pow2 (Z.log2 n - Z.log2 d - 1) < inject_Z n / inject_Z d /\
  inject_Z n / inject_Z d < Rounding.pow2 (Z.log2 n - Z.log2 d + 1).
Proof.
  destruct (log2_bounds n Hn) as (N1 & N2).
  destruct (log2_bounds d Hd) as (D1 & D2).
  pose proof (inject_Z_pos d Hd) as Hdq.
  split.
  - apply Qlt_shift_div_l; [exact Hdq|].
    eapply Qlt_le_trans; [|exact N1].
    assert (E : Rounding.pow2 (Z.log2 n)
                == Rounding.pow2 (Z.log2 n - Z.log2 d - 1)
                   * Rounding.pow2 (Z.log2 d + 1)) by pow2_eq.
    rewrite E. apply Qmult_lt_l; [apply pow2_pos | exact D2].
  - apply Qlt_shift_div_r; [exact Hdq|].
    eapply Qlt_le_trans; [exact N2|].
    assert (E : Rounding.pow2 (Z.log2 n + 1)
                == Rounding.pow2 (Z.log2 n - Z.log2 d + 1)
                   * Rounding.pow2 (Z.log2 d)) by pow2_eq.
    rewrite E. apply Qmult_le_l; [apply pow2_pos | exact D1].
Qed.

Lemma ulp_exponent_spec :
  let e := Rounding.ulp_exponent p n d in
  Rounding.pow2 (p - 1) <= inject_Z n / inject_Z d * Rounding.pow2 (- e) /\
  inject_Z n / inject_Z d * Rounding.pow2 (- e) < Rounding.pow2 p.
Proof.
  destruct ratio_bounds as (B1 & B2).
  set (x := inject_Z n / inject_Z d) in *.
  unfold Rounding.ulp_exponent.
  set (l := (Z.log2 n - Z.log2 d)%Z) in *.
  destruct (scaled_spec n d (l - (p - 1)) Hd) as (Hd0 & Hn0).
  destruct (Rounding.scaled n d (l - (p - 1))) as [n0 d0]. cbn [fst snd] in *.
  destruct (Z.leb_spec (2 ^ (p - 1) * d0) n0) as [Hle|Hgt]; cbv zeta.
  - split.
    + rewrite pow2_Z by lia.
      exact (proj2 (scaled_le _ n0 d0 (2 ^ (p - 1)) Hd0 Hn0) Hle).
    + assert (E : Rounding.pow2 p
                  == Rounding.pow2 (l + 1) * Rounding.pow2 (- (l - (p - 1))))
        by pow2_eq.
      rewrite E. apply Qmult_lt_r; [apply pow2_pos | exact B2].
  - split.
    + assert (E : Rounding.pow2 (p - 1)
                  == Rounding.pow2 (l - 1) * Rounding.pow2 (- (l - p)))
        by pow2_eq.
      rewrite E. apply Qlt_le_weak.
      apply Qmult_lt_r; [apply pow2_pos | exact B1].
    + assert (Hlt : x * Rounding.pow2 (- (l - (p - 1))) < Rounding.pow2 (p - 1)).
      { apply Qnot_le_lt. intros H.
        rewrite pow2_Z in H by lia.
        pose proof (proj1 (scaled_le _ n0 d0 (2 ^ (p - 1)) Hd0 Hn0) H). lia. }
      assert (E1 : Rounding.pow2 (- (l - p))
                   == Rounding.pow2 (- (l - (p - 1))) * Rounding.pow2 1) by pow2_eq.
      assert (E2 : Rounding.pow2 p == Rounding.pow2 (p - 1) * Rounding.pow2 1)
        by pow2_eq.
      rewrite E1, E2, Qmult_assoc.
      apply Qmult_lt_r; [apply pow2_pos | exact Hlt].
Qed.

End Exponent.

(** ** rounding a positive fraction *)

Section RoundPos.
Variable p : Z.
Hypothesis Hp : (2 <= p)%Z.
Variables n d : Z.
Hypothesis Hn : (0 < n)%Z.
Hypothesis Hd : (0 < d)%Z.

Lemma round_pos_spec :
  exists m e : Z,
    Rounding.round_pos p n d == inject_Z m * Rounding.pow2 e /\
    Rounding.pow2 (p - 1) <= inject_Z n / inject_Z d * Rounding.pow2 (- e) /\
    inject_Z n / inject_Z d * Rounding.pow2 (- e) < Rounding.pow2 p /\
    (forall z, inject_Z n / inject_Z d * Rounding.pow2 (- e) <= inject_Z z ->
               (m <= z)%Z) /\
    (forall z, inject_Z z <= inject_Z n / inject_Z d * Rounding.pow2 (- e) ->
               (z <= m)%Z) /\
    (forall z, Z.even z = true ->
               inject_Z n / inject_Z d * Rounding.pow2 (- e)
               <= inject_Z z + (1 # 2) -> (m <= z)%Z).
Proof.
  destruct (ulp_exponent_spec p Hp n d Hn Hd) as (E1 & E2).
  unfold Rounding.round_pos.
  set (e := Rounding.ulp_exponent p n d) in *.
  destruct (scaled_spec n d e Hd) as (Hd' & Hn').
  destruct (Rounding.scaled n d e) as [n' d']. cbn [fst snd] in *.
  set (x := inject_Z n / inject_Z d) in *.
  exists (Rounding.nearest_even n' d'), e.
  split; [|split; [exact E1|split; [exact E2|split; [|split]]]].
  - destruct (Z.ltb_spec e 0) as [Hlt|Hge].
    + rewrite Qmake_Qdiv, Z2Pos.id by (apply Z.pow_pos_nonneg; lia).
      rewrite <- pow2_Z by lia. rewrite pow2_opp. field.
      intros H. pose proof (pow2_pos e) as H0. rewrite H in H0. discriminate.
    + rewrite inject_Z_mult, <- pow2_Z by lia. reflexivity.
  - intros z Hz. apply nearest_even_le; [exact Hd'|].
    exact (proj1 (scaled_ge _ n' d' z Hd' Hn') Hz).
  - intros z Hz. apply nearest_even_ge; [exact Hd'|].
    exact (proj1 (scaled_le _ n' d' z Hd' Hn') Hz).
  - intros z Hev Hz. apply nearest_even_tie; [exact Hd'|exact Hev|].
    pose proof (inject_Z_pos d' Hd') as Hdq.
    rewrite Zle_Qle, !inject_Z_mult, inject_Z_plus, inject_Z_mult, Hn'.
    apply (Qmult_le_compat_r _ _ (inject_Z d')) in Hz; [|apply Qlt_le_weak; exact Hdq].
    apply (Qmult_le_l _ _ 2) in Hz; [|reflexivity].
    setoid_replace (inject_Z 2 * (x * Rounding.pow2 (- e) * inject_Z d'))
      with (2 * (x * Rounding.pow2 (- e) * inject_Z d')) by reflexivity.
    eapply Qle_trans; [exact Hz|].
    apply Qle_lteq. right. change (inject_Z 2) with 2. change (inject_Z 1) with 1.
    field.
Qed.

End RoundPos.

(** ** moving a power of two across an inequality *)

Lemma pow2_cancel_r (a : Q) (e : Z) :
  a * Rounding.pow2 e * Rounding.pow2 (- e) == a.
Proof. rewrite <- Qmult_assoc, pow2_cancel. ring. Qed.

Lemma pow2_cancel_l (a : Q) (e : Z) :
  a * Rounding.pow2 (- e) * Rounding.pow2 e == a.
Proof. rewrite <- Qmult_assoc, (Qmult_comm (Rounding.pow2 (- e))), pow2_cancel. ring. Qed.

Lemma pow2_shift1 (a b : Q) (e : Z) :
  a <= b * Rounding.pow2 e -> a * Rounding.pow2 (- e) <= b.
Proof.
  intros H. rewrite <- (pow2_cancel_r b e).
  apply Qmult_le_compat_r; [exact H | apply Qlt_le_weak, pow2_pos].
Qed.

Lemma pow2_shift2 (a b : Q) (e : Z) :
  a * Rounding.pow2 (- e) <= b -> a <= b * Rounding.pow2 e.
Proof.
  intros H. rewrite <- (pow2_cancel_l a e).
  apply Qmult_le_compat_r; [exact H | apply Qlt_le_weak, pow2_pos].
Qed.

Lemma pow2_shift3 (a b : Q) (e : Z) :
  a * Rounding.pow2 e <= b -> a <= b * Rounding.pow2 (- e).
Proof.
  intros H. rewrite <- (pow2_cancel_r a e).
  apply Qmult_le_compat_r; [exact H | apply Qlt_le_weak, pow2_pos].
Qed.

Lemma pow2_shift4 (a b : Q) (e : Z) :
  a <= b * Rounding.pow2 (- e) -> a * Rounding.pow2 e <= b.
Proof.
  intros H. rewrite <- (pow2_cancel_l b e).
  apply Qmult_le_compat_r; [exact H | apply Qlt_le_weak, pow2_pos].
Qed.

(** A number of the format, seen from the grid of exponent [e]: it is on the
    grid, or it is at most the first number of the binade. *)
Lemma format_on_grid (p : Z) (y : Q) (e : Z) :
  (2 <= p)%Z -> Rounding.format p y ->
  (exists z : Z, y == inject_Z z * Rounding.pow2 e) \/
  y <= Rounding.pow2 (p - 1) * Rounding.pow2 e.
Proof.
  intros Hp (my & ey & Hmy & Hy).
  destruct (Z_le_gt_dec e ey) as [Hle|Hgt].
  - left. exists (my * 2 ^ (ey - e))%Z.
    rewrite Hy, inject_Z_mult, <- pow2_Z by lia.
    rewrite <- Qmult_assoc. apply Qmult_comp; [reflexivity|]. pow2_eq.
  - right. rewrite Hy.
    apply Qle_trans with (Rounding.pow2 p * Rounding.pow2 ey).
    + apply Qmult_le_compat_r; [|apply Qlt_le_weak, pow2_pos].
      rewrite pow2_Z by lia. rewrite <- Zle_Qle. lia.
    + rewrite <- !pow2_plus. apply pow2_le. lia.
Qed.

Section RoundPosBounds.
Variable p : Z.
Hypothesis Hp : (2 <= p)%Z.
Variables n d : Z.
Hypothesis Hn : (0 < n)%Z.
Hypothesis Hd : (0 < d)%Z.

Lemma round_pos_ub (y : Q) :
  Rounding.format p y -> inject_Z n / inject_Z d <= y ->
  Rounding.round_pos p n d <= y.
Proof.
  intros Hf Hxy.
  destruct (round_pos_spec p Hp n d Hn Hd) as (m & e & Hv & E1 & E2 & Hle & Hge & _).
  set (x := inject_Z n / inject_Z d) in *. rewrite Hv.
  destruct (format_on_grid p y e Hp Hf) as [(z & Hz) | Hy].
  - rewrite Hz. apply Qmult_le_compat_r; [|apply Qlt_le_weak, pow2_pos].
    rewrite <- Zle_Qle. apply Hle. apply pow2_shift1. rewrite <- Hz. exact Hxy.
  - apply Qle_trans with (Rounding.pow2 (p - 1) * Rounding.pow2 e).
    + apply Qmult_le_compat_r; [|apply Qlt_le_weak, pow2_pos].
      rewrite pow2_Z by lia. rewrite <- Zle_Qle. apply Hle.
      rewrite <- pow2_Z by lia. apply pow2_shift1.
      apply Qle_trans with y; assumption.
    + apply Qle_trans with x; [|exact Hxy]. apply pow2_shift4. exact E1.
Qed.

Lemma round_pos_lb (y : Q) :
  Rounding.format p y -> y <= inject_Z n / inject_Z d ->
  y <= Rounding.round_pos p n d.
Proof.
  intros Hf Hxy.
  destruct (round_pos_spec p Hp n d Hn Hd) as (m & e & Hv & E1 & E2 & Hle & Hge & _).
  set (x := inject_Z n / inject_Z d) in *. rewrite Hv.
  destruct (format_on_grid p y e Hp Hf) as [(z & Hz) | Hy].
  - rewrite Hz. apply Qmult_le_compat_r; [|apply Qlt_le_weak, pow2_pos].
    rewrite <- Zle_Qle. apply Hge. apply pow2_shift3. rewrite <- Hz. exact Hxy.
  - apply Qle_trans with (Rounding.pow2 (p - 1) * Rounding.pow2 e); [exact Hy|].
    apply Qmult_le_compat_r; [|apply Qlt_le_weak, pow2_pos].
    rewrite pow2_Z by lia. rewrite <- Zle_Qle. apply Hge.
    rewrite <- pow2_Z by lia. exact E1.
Qed.

Lemma round_pos_positive : 0 < Rounding.round_pos p n d.
Proof.
  destruct (round_pos_spec p Hp n d Hn Hd) as (m & e & Hv & E1 & E2 & Hle & Hge & _).
  rewrite Hv. apply Qmult_lt_0_compat; [|apply pow2_pos].
  apply inject_Z_pos.
  assert (2 ^ (p - 1) <= m)%Z.
  { apply Hge. rewrite <- pow2_Z by lia. exact E1. }
  assert (0 < 2 ^ (p - 1))%Z by (apply Z.pow_pos_nonneg; lia). lia.
Qed.

End RoundPosBounds.

(** ** rounding a rational *)

Lemma format_opp (p : Z) (y : Q) : Rounding.format p y -> Rounding.format p (- y).
Proof.
  intros (m & e & Hm & Hy). exists (- m)%Z, e. split; [lia|].
  rewrite Hy, inject_Z_opp. ring.
Qed.

Lemma format_Z (p z : Z) : (Z.abs z <= 2 ^ p)%Z -> Rounding.format p (inject_Z z).
Proof.
  intros H. exists z, 0%Z. split; [exact H|]. unfold Rounding.pow2. cbn. ring.
Qed.

Lemma format_dyadic (p c k : Z) :
  (Z.abs c <= 2 ^ p)%Z -> Rounding.format p (inject_Z c * Rounding.pow2 k).
Proof. intros H. exists c, k. split; [exact H | reflexivity]. Qed.

Lemma format_comp (p : Z) (y y' : Q) :
  y == y' -> Rounding.format p y -> Rounding.format p y'.
Proof. intros E (m & e & Hm & Hy). exists m, e. split; [exact Hm|]. rewrite <- E. exact Hy. Qed.

Lemma Zpow2_split (p : Z) : (1 <= p)%Z -> (2 ^ p = 2 ^ (p - 1) * 2)%Z.
Proof.
  intros H. replace p with (p - 1 + 1)%Z at 1 by lia.
  rewrite Z.pow_add_r by lia. reflexivity.
Qed.

Section Round.
Variable p : Z.
Hypothesis Hp : (2 <= p)%Z.

Lemma Q_as_fraction (x : Q) : x == inject_Z (Qnum x) / inject_Z (Zpos (Qden x)).
Proof. destruct x as [n d]. cbn [Qnum Qden]. apply Qmake_Qdiv. Qed.

Lemma round_ub (x y : Q) :
  Rounding.format p y -> x <= y -> Rounding.round p x <= y.
Proof.
  intros Hf Hxy. pose proof (Q_as_fraction x) as Hx.
  unfold Rounding.round. destruct x as [[|n|n] d]; cbn [Qnum Qden] in *.
  - eapply Qle_trans; [|exact Hxy]. unfold Qle. cbn. lia.
  - apply round_pos_ub; [exact Hp|reflexivity|reflexivity|exact Hf|].
    rewrite <- Hx. exact Hxy.
  - apply Qopp_le_compat in Hxy. rewrite <- (Qopp_involutive y).
    apply Qopp_le_compat.
    apply round_pos_lb; [exact Hp|reflexivity|reflexivity|apply format_opp; exact Hf|].
    eapply Qle_trans; [exact Hxy|]. rewrite Hx.
    change (Z.neg n) with (- Z.pos n)%Z. rewrite inject_Z_opp.
    apply Qle_lteq. right. field. discriminate.
Qed.

Lemma round_lb (x y : Q) :
  Rounding.format p y -> y <= x -> y <= Rounding.round p x.
Proof.
  intros Hf Hxy. pose proof (Q_as_fraction x) as Hx.
  unfold Rounding.round. destruct x as [[|n|n] d]; cbn [Qnum Qden] in *.
  - eapply Qle_trans; [exact Hxy|]. unfold Qle. cbn. lia.
  - apply round_pos_lb; [exact Hp|reflexivity|reflexivity|exact Hf|].
    rewrite <- Hx. exact Hxy.
  - apply Qopp_le_compat in Hxy. rewrite <- (Qopp_involutive y).
    apply Qopp_le_compat.
    apply round_pos_ub; [exact Hp|reflexivity|reflexivity|apply format_opp; exact Hf|].
    eapply Qle_trans; [|exact Hxy]. rewrite Hx.
    change (Z.neg n) with (- Z.pos n)%Z. rewrite inject_Z_opp.
    apply Qle_lteq. right. field. discriminate.
Qed.

(** A number of the format is not changed. *)
Lemma round_exact (x : Q) : Rounding.format p x -> Rounding.round p x == x.
Proof.
  intros Hf. apply Qle_antisym.
  - apply round_ub; [exact Hf | apply Qle_refl].
  - apply round_lb; [exact Hf | apply Qle_refl].
Qed.

Lemma round_unit (x : Q) : 0 <= x <= 1 -> 0 <= Rounding.round p x <= 1.
Proof.
  intros (H0 & H1). split.
  - apply round_lb; [|exact H0]. apply (format_Z p 0). cbn.
    apply Z.pow_nonneg. lia.
  - apply round_ub; [|exact H1]. apply (format_Z p 1). cbn.
    assert (0 < 2 ^ p)%Z by (apply Z.pow_pos_nonneg; lia). lia.
Qed.

(** Counting stops at [2 ^ p]: adding at most 1 to a number that is at most
    [2 ^ p] gives at most [2 ^ p] again, the tie going to the even side. *)
Lemma round_saturates (x : Q) :
  x <= inject_Z (2 ^ p) + 1 -> Rounding.round p x <= inject_Z (2 ^ p).
Proof.
  intros Hx.
  assert (Hpow : (0 < 2 ^ p)%Z) by (apply Z.pow_pos_nonneg; lia).
  destruct (Qlt_le_dec (inject_Z (2 ^ p)) x) as [Hbig|Hsmall].
  2: { apply round_ub; [|exact Hsmall]. apply format_Z. lia. }
  pose proof (Q_as_fraction x) as Hf.
  assert (Hxpos : 0 < x).
  { eapply Qlt_trans; [|exact Hbig]. apply inject_Z_pos. exact Hpow. }
  unfold Rounding.round. destruct x as [[|n|n] d]; cbn [Qnum Qden] in *;
    try (exfalso; revert Hxpos; unfold Qlt; cbn; lia).
  destruct (round_pos_spec p Hp (Z.pos n) (Z.pos d) eq_refl eq_refl)
    as (m & e & Hv & E1 & E2 & Hle & Hge & Htie).
  rewrite Hf in Hx, Hbig, Hxpos. rewrite Hv. clear Hf.
  set (x := inject_Z (Z.pos n) / inject_Z (Z.pos d)) in *.
  (* the exponent of the last place is 1 *)
  assert (He : e = 1%Z).
  { destruct (Z_lt_le_dec e 1) as [Hlt|Hge1].
    - exfalso. apply (Qlt_irrefl (Rounding.pow2 p)).
      eapply Qle_lt_trans; [|exact E2].
      rewrite pow2_Z by lia.
      apply Qle_trans with x; [apply Qlt_le_weak; exact Hbig|].
      apply pow2_shift3.
      apply Qle_trans with (x * 1); [|apply Qle_lteq; right; ring].
      apply Qmult_le_l; [exact Hxpos|].
      change 1 with (Rounding.pow2 0). apply pow2_le. lia.
    - destruct (Z.eq_dec e 1) as [|Hne]; [assumption|]. exfalso.
      assert (H2 : (2 <= e)%Z) by lia.
      apply pow2_shift4 in E1.
      assert (Hlt : x < Rounding.pow2 (p - 1) * Rounding.pow2 e).
      { eapply Qle_lt_trans; [exact Hx|].
        apply Qlt_le_trans with (Rounding.pow2 (p - 1) * Rounding.pow2 2).
        - rewrite <- pow2_plus, !pow2_Z by lia.
          rewrite <- inject_Z_plus with (y := 1%Z), <- Zlt_Qlt.
          replace (p - 1 + 2)%Z with (p + 1)%Z by lia.
          pose proof (Z.pow_le_mono_r 2 1 p ltac:(lia) ltac:(lia)) as Hp1.
          rewrite Z.pow_add_r by lia. change (2 ^ 1)%Z with 2%Z in *. lia.
        - apply Qmult_le_l; [apply pow2_pos | apply pow2_le; exact H2]. }
      apply (Qlt_irrefl x). eapply Qlt_le_trans; [exact Hlt | exact E1]. }
  subst e.
  assert (Hm : (m <= 2 ^ (p - 1))%Z).
  { apply Htie.
    - rewrite Z.even_pow by lia. reflexivity.
    - apply pow2_shift1.
      eapply Qle_trans; [exact Hx|]. apply Qle_lteq. right.
      rewrite (Zpow2_split p) by lia.
      rewrite inject_Z_mult. unfold Rounding.pow2. cbn. field. }
  apply Qle_trans with (inject_Z (2 ^ (p - 1)) * Rounding.pow2 1).
  - apply Qmult_le_compat_r; [|apply Qlt_le_weak, pow2_pos].
    rewrite <- Zle_Qle. exact Hm.
  - apply Qle_lteq. right.
    rewrite (Zpow2_split p) by lia.
    rewrite inject_Z_mult. unfold Rounding.pow2. cbn. field.
Qed.

End Round.

(** ** Python floats and float32 *)

Lemma Binary32_round_generic (x : Q) : Binary32.round x = Rounding.round 24 x.
Proof. reflexivity. Qed.

Lemma Binary32_round_unit (x : Q) : 0 <= x <= 1 -> 0 <= Binary32.round x <= 1.
Proof. rewrite Binary32_round_generic. apply round_unit. lia. Qed.

Lemma Binary32_round_format (x : Q) :
  Rounding.format 24 x -> Binary32.round x == x.
Proof. rewrite Binary32_round_generic. apply round_exact. lia. Qed.

(** Equal rationals have the same float. *)
Lemma Binary64_round_comp (x y : Q) :
  x == y -> Binary64.round x = Binary64.round y.
Proof.
  intros H. unfold Binary64.round. rewrite (Qred_complete _ _ H). reflexivity.
Qed.

Lemma Binary64_round_generic (x : Q) :
  Binary64.round x == Rounding.round 53 (Qred x).
Proof. unfold Binary64.round. apply Qred_correct. Qed.

Lemma Binary64_round_ub (x y : Q) :
  Rounding.format 53 y -> x <= y -> Binary64.round x <= y.
Proof.
  intros Hf Hxy. rewrite Binary64_round_generic.
  apply round_ub; [lia | exact Hf | rewrite Qred_correct; exact Hxy].
Qed.

Lemma Binary64_round_lb (x y : Q) :
  Rounding.format 53 y -> y <= x -> y <= Binary64.round x.
Proof.
  intros Hf Hxy. rewrite Binary64_round_generic.
  apply round_lb; [lia | exact Hf | rewrite Qred_correct; exact Hxy].
Qed.

Lemma Binary64_round_exact (x : Q) :
  Rounding.format 53 x -> Binary64.round x == x.
Proof.
  intros Hf. apply Qle_antisym.
  - apply Binary64_round_ub; [exact Hf | apply Qle_refl].
  - apply Binary64_round_lb; [exact Hf | apply Qle_refl].
Qed.

Lemma Binary64_round_unit (x : Q) : 0 <= x <= 1 -> 0 <= Binary64.round x <= 1.
Proof.
  intros H. rewrite Binary64_round_generic. apply round_unit; [lia|].
  rewrite Qred_correct. exact H.
Qed.

Lemma Binary64_round_saturates (x : Q) :
  x <= inject_Z (2 ^ 53) + 1 -> Binary64.round x <= inject_Z (2 ^ 53).
Proof.
  intros H. rewrite Binary64_round_generic. apply round_saturates; [lia|].
  rewrite Qred_correct. exact H.
Qed.

Lemma Binary64_of_int_exact (z : Z) :
  (Z.abs z <= 2 ^ 53)%Z -> Binary64.of_int z == inject_Z z.
Proof. intros H. apply Binary64_round_exact, format_Z, H. Qed.

(** [float(k)] is at least any int of the format that [k] is at least. *)
Lemma Binary64_of_int_ge (z k : Z) :
  (Z.abs z <= 2 ^ 53)%Z -> (z <= k)%Z -> inject_Z z <= Binary64.of_int k.
Proof.
  intros Hz Hzk. apply Binary64_round_lb; [apply format_Z, Hz|].
  rewrite <- Zle_Qle. exact Hzk.
Qed.

Lemma Binary64_of_int_pos (k : Z) : (0 < k)%Z -> 0 < Binary64.of_int k.
Proof.
  intros H. apply Qlt_le_trans with (inject_Z 1); [reflexivity|].
  apply Binary64_of_int_ge; [cbn; lia | lia].
Qed.

(** ** Facts about [Metric] *)

Lemma Metric_updates_name (m : Metric.t) (vs : list Q) :
  Metric.name (Metric.updates m vs) = Metric.name m.
Proof.
  revert m. induction vs as [|v vs IH]; intros m; [reflexivity|].
  change (Metric.updates m (v :: vs))
    with (Metric.updates (Metric.update m v) vs).
  rewrite IH. reflexivity.
Qed.

Lemma Metric_updates_n (m : Metric.t) (vs : list Q) :
  Metric.n (Metric.updates m vs) = (Metric.n m + Z.of_nat (length vs))%Z.
Proof.
  revert m. induction vs as [|v vs IH]; intros m.
  - simpl. lia.
  - change (Metric.updates m (v :: vs))
      with (Metric.updates (Metric.update m v) vs).
    rewrite IH. cbn [Metric.update Metric.n length]. lia.
Qed.

Lemma Metric_updates_sum (m : Metric.t) (vs : list Q) :
  Metric.sum (Metric.updates m vs) = fold_left Binary64.add vs (Metric.sum m).
Proof.
  revert m. induction vs as [|v vs IH]; intros m; [reflexivity|].
  change (Metric.updates m (v :: vs))
    with (Metric.updates (Metric.update m v) vs).
  rewrite IH. reflexivity.
Qed.

Lemma Metric_updates_app (m : Metric.t) (us vs : list Q) :
  Metric.updates m (us ++ vs) = Metric.updates (Metric.updates m us) vs.
Proof. unfold Metric.updates. apply fold_left_app. Qed.

(** C8.  After the calls [update(v_1) ... update(v_k)] with [k >= 1] the
    count [n] is [k] and [avg] returns [(v_1 + ... + v_k) / k], the sum and
    the quotient being those of Python floats: the values are added from the
    left, and the sum is divided by [float(k)]; on a freshly constructed
    object ([k = 0]) [n] is [0] and [avg] raises [ZeroDivisionError]. *)
Theorem Metric_avg_after_updates :
  (forall (name : string) (vs : list Q),
      (1 <= length vs)%nat ->
      let m := Metric.updates (Metric.init name) vs in
      Metric.n m = Z.of_nat (length vs) /\
      Metric.sum m = float_sum vs /\
      Metric.avg m
      = Ok (Binary64.div (float_sum vs)
              (Binary64.of_int (Z.of_nat (length vs))))) /\
  (forall name : string,
      Metric.n (Metric.init name) = 0%Z /\
      Metric.avg (Metric.init name) = Raise ZeroDivisionError).
Proof.
  split.
  - intros name vs Hk m.
    assert (Hn : Metric.n m = Z.of_nat (length vs)).
    { unfold m. rewrite Metric_updates_n. reflexivity. }
    assert (Hs : Metric.sum m = float_sum vs).
    { unfold m. rewrite Metric_updates_sum. reflexivity. }
    repeat split; [exact Hn | exact Hs |].
    unfold Metric.avg. rewrite Hn, Hs.
    destruct (Z.eqb_spec (Z.of_nat (length vs)) 0) as [E|_]; [lia|reflexivity].
  - intros name. split; reflexivity.
Qed.

Lemma Metric_avg_after_updates_witness :
  let m := Metric.updates (Metric.init "test_acc") [1; 0; 1 # 2] in
  Metric.n m = 3%Z /\
  Metric.sum m = float_sum [1; 0; 1 # 2] /\
  Metric.avg m = Ok (Binary64.div (float_sum [1; 0; 1 # 2]) (Binary64.of_int 3)).
Proof.
  exact (proj1 Metric_avg_after_updates "test_acc"%string [1; 0; 1 # 2]
           ltac:(simpl; lia)).
Defined.

(** ** The monad *)

Section MonadFacts.
Context {E : External}.

Lemma bind_Ok {A B} (m : M A) (f : A -> M B) w a w1 e1 :
  m w = (Ok a, w1, e1) ->
  bind m f w = (fst (fst (f a w1)), snd (fst (f a w1)), e1 ++ snd (f a w1)).
Proof.
  intros H. unfold bind. rewrite H.
  destruct (f a w1) as [[r w2] e2]. reflexivity.
Qed.

Lemma bind_Ok_inv {A B} (m : M A) (f : A -> M B) w b w' evs :
  bind m f w = (Ok b, w', evs) ->
  exists a w1 e1 e2,
    m w = (Ok a, w1, e1) /\ f a w1 = (Ok b, w', e2) /\ evs = e1 ++ e2.
Proof.
  unfold bind. destruct (m w) as [[[a|e] w1] e1]; [|discriminate].
  destruct (f a w1) as [[r w2] e2] eqn:Hf. intros H. inversion H; subst.
  exists a, w1, e1, e2. auto.
Qed.

Lemma lift_inv {A} (r : result A) w a w' evs :
  lift r w = (Ok a, w', evs) -> r = Ok a /\ w' = w /\ evs = [].
Proof. unfold lift. intros H. inversion H; subst. auto. Qed.

Lemma ret_inv {A} (x : A) w a w' evs :
  ret x w = (Ok a, w', evs) -> a = x /\ w' = w /\ evs = [].
Proof. unfold ret. intros H. inversion H; subst. auto. Qed.

Lemma emit_inv (ev : Event) w u w' evs :
  emit ev w = (Ok u, w', evs) -> w' = w /\ evs = [ev].
Proof. unfold emit. intros H. inversion H; subst. auto. Qed.

Lemma call_inv {A} (f : W -> A * W) (ev : A -> Event) w a w' evs :
  call f ev w = (Ok a, w', evs) ->
  a = fst (f w) /\ w' = snd (f w) /\ evs = [ev a].
Proof.
  unfold call. destruct (f w) as [a0 w0]. intros H. inversion H; subst. auto.
Qed.

Lemma finally_Ok_inv {A} (body : M A) (exit : M unit) w a w' evs :
  finally body exit w = (Ok a, w', evs) ->
  exists w1 e1 e2,
    body w = (Ok a, w1, e1) /\ exit w1 = (Ok tt, w', e2) /\ evs = e1 ++ e2.
Proof.
  unfold finally. destruct (body w) as [[r w1] e1].
  destruct (exit w1) as [[[[]|e] w2] e2] eqn:Hx; intros H; inversion H; subst.
  exists w1, e1, e2. auto.
Qed.

End MonadFacts.

(** ** [validate]: what a run that returns has done *)

Section ValidateFacts.
Context {E : External}.
Variables (model : NNModule) (verbose integer : bool).

Lemma validate_step_inv st rb w st' w' evs :
  validate_step model verbose integer st rb w = (Ok st', w', evs) ->
  exists data target output l a,
    rb = Ok (data, target) /\
    forward model (feed integer data) w = (output, w') /\
    Torch.nll_loss_sum_item output target = Ok l /\
    loss st' = Binary64.add (loss st) l /\
    correct st' = (correct st + batch_correct output target)%Z /\
    acc st' = Metric.update (acc st) (batch_accuracy output target) /\
    Metric.avg (acc st') = Ok a /\
    evs = EvForward model (feed integer data) output
            :: (if verbose then [EvPostfix a] else []).
Proof.
  unfold validate_step. intros H.
  apply bind_Ok_inv in H. destruct H as ([data target] & w1 & e1 & e2 & H1 & H & ->).
  apply lift_inv in H1. destruct H1 as (-> & -> & ->).
  apply bind_Ok_inv in H. destruct H as (output & w2 & e3 & e4 & H2 & H & ->).
  apply call_inv in H2. destruct H2 as (-> & -> & ->).
  apply bind_Ok_inv in H. destruct H as (l & w3 & e5 & e6 & H3 & H & ->).
  apply lift_inv in H3. destruct H3 as (H3 & -> & ->).
  apply bind_Ok_inv in H. destruct H as (a & w4 & e7 & e8 & H4 & H & ->).
  apply lift_inv in H4. destruct H4 as (H4 & -> & ->).
  apply bind_Ok_inv in H. destruct H as ([] & w5 & e9 & e10 & H5 & H & ->).
  apply ret_inv in H. destruct H as (-> & -> & ->).
  cbn [fst snd] in *. fold (feed integer data) in *.
  assert (H6 : w5 = snd (forward model (feed integer data) w) /\
               e9 = if verbose then [EvPostfix a] else []).
  { destruct verbose.
    - apply emit_inv in H5. tauto.
    - apply ret_inv in H5. tauto. }
  destruct H6 as (-> & ->).
  exists data, target, (fst (forward model (feed integer data) w)), l, a.
  cbn [loss correct acc].
  repeat split; try reflexivity; try assumption.
  - apply surjective_pairing.
  - cbn [app]. rewrite app_nil_r. reflexivity.
Qed.

(** The loop, from any state of the locals: the batches were all fetched,
    each was handed to [model] (scaled when [integer] is set), and the locals
    were updated from what the module returned. *)
Lemma validate_for_each_inv rs st w st' w' evs :
  for_each rs (validate_step model verbose integer) st w = (Ok st', w', evs) ->
  exists bs,
    rs = map Ok bs /\
    map (fun c => fst c) (forward_calls evs)
      = map (fun b => (model, feed integer (fst b))) bs /\
    acc st' = Metric.updates (acc st)
                (map (fun ot => batch_accuracy (fst ot) (snd ot))
                     (combine (outputs evs) (map snd bs))) /\
    correct st' = (correct st +
                   fold_right Z.add 0%Z
                     (map (fun ot => batch_correct (fst ot) (snd ot))
                          (combine (outputs evs) (map snd bs))))%Z /\
    Forall2 (fun o t => exists l, Torch.nll_loss_sum_item o t = Ok l)
            (outputs evs) (map snd bs) /\
    forallb is_validate_event evs = true.
Proof.
  revert st w evs. induction rs as [|rb rs IH]; intros st w evs H.
  - cbn in H. apply ret_inv in H. destruct H as (-> & -> & ->).
    exists []. cbn. repeat split; try reflexivity; try lia. constructor.
  - cbn [for_each] in H.
    apply bind_Ok_inv in H. destruct H as (st1 & w1 & e1 & e2 & H1 & H2 & ->).
    apply validate_step_inv in H1.
    destruct H1 as (data & target & output & l & a & -> & Hf & Hl & Hloss & Hc & Ha & Havg & ->).
    apply IH in H2. destruct H2 as (bs & -> & Hfed & Hacc & Hcor & Hnll & Hev).
    exists ((data, target) :: bs).
    assert (Hfc : forall tl, forward_calls
              ((EvForward model (feed integer data) output
                  :: (if verbose then [EvPostfix a] else [])) ++ tl)
            = (model, feed integer data, output) :: forward_calls tl).
    { intros tl. destruct verbose; reflexivity. }
    unfold outputs in *. rewrite Hfc. cbn [map fst snd combine].
    repeat split.
    + rewrite Hfed. reflexivity.
    + rewrite Hacc, Ha. reflexivity.
    + rewrite Hcor, Hc. cbn [fold_right]. lia.
    + constructor; [exists l; exact Hl | exact Hnll].
    + rewrite forallb_app, Hev. destruct verbose; reflexivity.
Qed.

End ValidateFacts.

(** ** Fetching batches *)

Section LoaderFacts.
Context {E : External}.

Lemma fetch_Ok_inv ds idx xs ys :
  DataLoader.fetch ds idx = Ok (xs, ys) ->
  map (getitem ds) idx = map Ok (combine xs ys) /\
  length xs = length idx /\ length ys = length idx.
Proof.
  revert xs ys. induction idx as [|i idx IH]; intros xs ys H; cbn in H.
  - inversion H; subst. auto.
  - destruct (getitem ds i) as [[x y]|e] eqn:Hi; [|discriminate].
    destruct (DataLoader.fetch ds idx) as [[xs' ys']|e] eqn:Hf; [|discriminate].
    inversion H; subst. destruct (IH _ _ eq_refl) as (IH1 & IH2 & IH3).
    cbn. rewrite Hi, IH1, IH2, IH3. auto.
Qed.

Lemma fetch_Ok ds idx :
  fetchable ds -> Forall (fun i => (i < len ds)%nat) idx ->
  exists xs ys, DataLoader.fetch ds idx = Ok (xs, ys).
Proof.
  intros Hds. induction 1 as [|i idx Hi _ IH]; cbn.
  - eauto.
  - destruct (Hds i Hi) as ([x y] & ->). destruct IH as (xs & ys & ->). eauto.
Qed.

Lemma batch_indices_in_range dl k :
  Forall (fun i => (i < len (DataLoader.dataset dl))%nat)
         (DataLoader.batch_indices dl k).
Proof.
  apply Forall_forall. intros i Hi. unfold DataLoader.batch_indices in Hi.
  apply in_seq in Hi. lia.
Qed.

Lemma map_Ok_exists {A B} (f : A -> result B) (ks : list A) :
  (forall k, In k ks -> exists b, f k = Ok b) ->
  exists bs, map f ks = map Ok bs /\ Forall2 (fun k b => f k = Ok b) ks bs.
Proof.
  induction ks as [|k ks IH]; intros H.
  - exists []. split; [reflexivity | constructor].
  - destruct (H k (or_introl eq_refl)) as (b & Hb).
    destruct IH as (bs & Hbs & HF); [intros; apply H; right; assumption|].
    exists (b :: bs). cbn. rewrite Hb, Hbs. split; [reflexivity|].
    constructor; assumption.
Qed.

Lemma map_Ok_inj {B} (bs bs' : list B) :
  map (@Ok B) bs = map (@Ok B) bs' -> bs = bs'.
Proof.
  revert bs'. induction bs as [|b bs IH]; intros [|b' bs'] H;
    try discriminate; [reflexivity|].
  cbn in H. inversion H; subst. f_equal. apply IH. assumption.
Qed.

(** Every batch of a loader over a readable dataset can be fetched. *)
Lemma batches_Ok dl :
  fetchable (DataLoader.dataset dl) ->
  exists bs,
    DataLoader.batches dl = map Ok bs /\
    Forall2 (fun k b => DataLoader.fetch (DataLoader.dataset dl)
                          (DataLoader.batch_indices dl k) = Ok b)
            (seq 0 (DataLoader.n_batches dl)) bs.
Proof.
  intros Hds. unfold DataLoader.batches. apply map_Ok_exists.
  intros k _. destruct (fetch_Ok _ _ Hds (batch_indices_in_range dl k)) as (xs & ys & H).
  eauto.
Qed.

End LoaderFacts.

(** ** [validate]: when it returns *)

Section ValidateReturns.
Context {E : External}.
Variables (classes : nat) (model : NNModule) (verbose integer : bool).
Hypothesis Hmodel : classifier classes model.

Lemma nll_rows_Some (output : list (list Q)) (target : list nat) :
  Forall (fun row => (classes <= length row)%nat) output ->
  Forall (fun y => (y < classes)%nat) target ->
  exists s, Torch.nll_rows output target = Some s.
Proof.
  intros Ho. revert target. induction Ho as [|row output Hrow _ IH];
    intros target Ht; cbn.
  - eauto.
  - destruct target as [|t target]; [eauto|].
    inversion Ht; subst.
    destruct (nth_error row t) as [v|] eqn:Hv.
    + destruct (IH target) as (s & ->); [assumption|]. eauto.
    + apply nth_error_None in Hv. lia.
Qed.

Lemma feed_length (data : list Image) :
  length (feed integer data) = length data.
Proof.
  unfold feed, Torch.mul_scalar. destruct integer;
    [apply length_map | reflexivity].
Qed.

Lemma nll_loss_Ok (data : list Image) (target : list nat) w :
  length data = length target ->
  Forall (fun y => (y < classes)%nat) target ->
  exists l, Torch.nll_loss_sum_item
              (fst (forward model (feed integer data) w)) target = Ok l.
Proof.
  intros Hlen Ht. destruct (Hmodel (feed integer data) w) as (H1 & H2).
  unfold Torch.nll_loss_sum_item.
  rewrite H1, feed_length, Hlen, Nat.eqb_refl. cbn.
  destruct (nll_rows_Some _ _ H2 Ht) as (s & ->). eauto.
Qed.

Lemma validate_step_Ok st (data : list Image) (target : list nat) w :
  length data = length target ->
  Forall (fun y => (y < classes)%nat) target ->
  (0 <= Metric.n (acc st))%Z ->
  exists st' evs,
    validate_step model verbose integer st (Ok (data, target)) w
      = (Ok st', snd (forward model (feed integer data) w), evs) /\
    Metric.n (acc st') = (Metric.n (acc st) + 1)%Z.
Proof.
  intros Hlen Ht Hn.
  destruct (nll_loss_Ok data target w Hlen Ht) as (l & Hl).
  unfold validate_step, bind, lift, call, ret, emit. cbn [fst snd].
  fold (feed integer data).
  destruct (forward model (feed integer data) w) as [output w1] eqn:Hf.
  cbn [fst snd] in *. rewrite Hl.
  unfold Metric.avg. cbn [Metric.update Metric.n Metric.sum].
  destruct (Z.eqb_spec (Metric.n (acc st) + 1) 0) as [Hz|_]; [lia|].
  destruct verbose; cbn; eexists; eexists; split; reflexivity.
Qed.

Lemma validate_for_each_Ok (bs : list (list Image * list nat)) st w :
  Forall (fun b => length (fst b) = length (snd b) /\
                   Forall (fun y => (y < classes)%nat) (snd b)) bs ->
  (0 <= Metric.n (acc st))%Z ->
  exists st' w' evs,
    for_each (map Ok bs) (validate_step model verbose integer) st w
      = (Ok st', w', evs) /\
    Metric.n (acc st') = (Metric.n (acc st) + Z.of_nat (length bs))%Z.
Proof.
  intros Hbs. revert st w. induction Hbs as [|[data target] bs [Hb1 Hb2] _ IH];
    intros st w Hn.
  - exists st, w, []. split; [reflexivity | cbn; lia].
  - destruct (validate_step_Ok st data target w Hb1 Hb2 Hn) as (st1 & e1 & H1 & Hn1).
    destruct (IH st1 (snd (forward model (feed integer data) w)))
      as (st' & w' & e2 & H2 & Hn2); [lia|].
    exists st', w', (e1 ++ e2). cbn [map for_each].
    rewrite (bind_Ok _ _ _ _ _ _ H1), H2. cbn [fst snd]. split; [reflexivity|].
    rewrite Hn2, Hn1. cbn [length]. lia.
Qed.

End ValidateReturns.

(** ** [validate]: the value it returns *)

Section ValidateResult.
Context {E : External}.

Lemma forward_calls_app (e1 e2 : list Event) :
  forward_calls (e1 ++ e2) = forward_calls e1 ++ forward_calls e2.
Proof. unfold forward_calls. apply flat_map_app. Qed.

Lemma printed_app (e1 e2 : list Event) :
  printed (e1 ++ e2) = printed e1 ++ printed e2.
Proof. unfold printed. apply flat_map_app. Qed.

Lemma printed_validate_events (evs : list Event) :
  forallb is_validate_event evs = true -> printed evs = [].
Proof.
  induction evs as [|e evs IH]; [reflexivity|]. cbn [forallb].
  intros H. apply andb_prop in H. destruct H as (He & H).
  destruct e; try discriminate; cbn; auto.
Qed.

Lemma validate_Ok_inv model dev dl verbose integer w r w' evs :
  validate model dev dl verbose integer w = (Ok r, w', evs) ->
  exists bs st,
    DataLoader.batches dl = map Ok bs /\
    map (fun c => fst c) (forward_calls evs)
      = map (fun b => (model, feed integer (fst b))) bs /\
    acc st = Metric.updates (Metric.init "test_acc") (accuracies evs bs) /\
    correct st = fold_right Z.add 0%Z
                   (map (fun ot => batch_correct (fst ot) (snd ot))
                        (combine (outputs evs) (map snd bs))) /\
    Forall2 (fun o t => exists l, Torch.nll_loss_sum_item o t = Ok l)
            (outputs evs) (map snd bs) /\
    forallb is_validate_event evs = true /\
    Metric.avg (acc st) = Ok r.
Proof.
  unfold validate, validate_loop. intros H.
  apply bind_Ok_inv in H. destruct H as (st & w1 & e1 & e2 & H1 & H & ->).
  apply bind_Ok_inv in H. destruct H as (q & w2 & e3 & e4 & H2 & H & ->).
  apply lift_inv in H2. destruct H2 as (_ & -> & ->).
  apply lift_inv in H. destruct H as (Havg & -> & ->).
  apply bind_Ok_inv in H1. destruct H1 as ([] & w3 & e5 & e6 & H3 & H1 & ->).
  apply call_inv in H3. destruct H3 as (_ & -> & ->). cbn [fst snd] in *.
  apply validate_for_each_inv in H1.
  destruct H1 as (bs & Hbs & Hfed & Hacc & Hcor & Hnll & Hev).
  exists bs, st. rewrite !app_nil_r. unfold accuracies, outputs in *.
  cbn [app forward_calls flat_map forallb is_validate_event andb].
  fold (forward_calls e6).
  repeat split; assumption.
Qed.

End ValidateResult.

Section ValidateTotal.
Context {E : External}.

Lemma fetch_labels classes ds idx xs ys :
  labels_below classes ds ->
  DataLoader.fetch ds idx = Ok (xs, ys) ->
  length xs = length ys /\ Forall (fun y => (y < classes)%nat) ys.
Proof.
  intros Hl. revert xs ys. induction idx as [|i idx IH]; intros xs ys H; cbn in H.
  - inversion H; subst. split; [reflexivity | constructor].
  - destruct (getitem ds i) as [[x y]|e] eqn:Hi; [|discriminate].
    destruct (DataLoader.fetch ds idx) as [[xs' ys']|e]; [|discriminate].
    inversion H; subst. destruct (IH _ _ eq_refl) as (IH1 & IH2).
    split; [cbn; congruence|]. constructor; [eapply Hl; eassumption | assumption].
Qed.

Lemma n_batches_pos dl :
  (1 <= DataLoader.n_batches dl)%nat ->
  (1 <= DataLoader.batch_size dl)%nat /\
  (1 <= len (DataLoader.dataset dl))%nat.
Proof.
  unfold DataLoader.n_batches. intros H.
  destruct (DataLoader.batch_size dl) as [|b] eqn:Hb.
  - destruct (DataLoader.drop_last dl); cbn in H; lia.
  - split; [lia|].
    destruct (len (DataLoader.dataset dl)) as [|n]; [|lia].
    destruct (DataLoader.drop_last dl).
    + rewrite Nat.Div0.div_0_l in H. lia.
    + replace (0 + S b - 1)%nat with b in H by lia.
      rewrite Nat.div_small in H; lia.
Qed.

(** A classifier, over a non-empty loader on a readable, labelled dataset:
    [validate] returns. *)
Lemma validate_Ok classes model dev dl verbose integer w :
  classifier classes model ->
  fetchable (DataLoader.dataset dl) ->
  labels_below classes (DataLoader.dataset dl) ->
  (1 <= DataLoader.n_batches dl)%nat ->
  exists r w' evs, validate model dev dl verbose integer w = (Ok r, w', evs).
Proof.
  intros Hm Hf Hl Hn.
  destruct (batches_Ok dl Hf) as (bs & Hbs & HF).
  assert (Hlen : length bs = DataLoader.n_batches dl).
  { apply Forall2_length in HF. rewrite length_seq in HF. congruence. }
  assert (Hwf : Forall (fun b => length (fst b) = length (snd b) /\
                   Forall (fun y => (y < classes)%nat) (snd b)) bs).
  { clear Hbs Hlen. induction HF as [|k [xs ys] ks bs Hk _ IH]; constructor.
    - cbn. eapply fetch_labels; eassumption.
    - assumption. }
  set (w0 := module_eval model w).
  destruct (validate_for_each_Ok classes model verbose integer Hm bs
              {| loss := 0; correct := 0; acc := Metric.init "test_acc" |} w0 Hwf)
    as (st & w' & evs & Hloop & Hcount); [cbn; lia|].
  cbn [acc Metric.init Metric.n] in Hcount.
  destruct (n_batches_pos dl Hn) as (_ & Hds).
  unfold validate, validate_loop. 
  rewrite (bind_Ok _ _ w st w' (EvEval model :: evs)).
  - unfold bind, lift, truediv, Metric.avg. cbn.
    destruct (Z.eqb_spec (Z.of_nat (len (DataLoader.dataset dl))) 0); [lia|].
    destruct (Z.eqb_spec (Metric.n (acc st)) 0); [lia|].
    cbn. eauto.
  - unfold bind, call. cbn. fold w0. rewrite Hbs, Hloop. reflexivity.
Qed.

End ValidateTotal.

(** ** Counting correct predictions *)

Lemma Torch_eq_length (pred target : list nat) :
  length (Torch.eq pred target) = Nat.min (length pred) (length target).
Proof.
  revert target. induction pred as [|p pred IH]; intros [|t target]; cbn; auto.
Qed.

Lemma Torch_eq_app (p p' t t' : list nat) :
  length p = length t ->
  Torch.eq (p ++ p') (t ++ t') = Torch.eq p t ++ Torch.eq p' t'.
Proof.
  revert t. induction p as [|a p IH]; intros [|b t] H; try discriminate.
  - reflexivity.
  - cbn. f_equal. apply IH. cbn in H. lia.
Qed.

Lemma sum_item_app (bs bs' : list bool) :
  Torch.sum_item (bs ++ bs') = (Torch.sum_item bs + Torch.sum_item bs')%Z.
Proof. unfold Torch.sum_item. rewrite count_occ_app. lia. Qed.

Lemma nll_loss_Ok_length (output : list (list Q)) (target : list nat) l :
  Torch.nll_loss_sum_item output target = Ok l ->
  length output = length target.
Proof.
  unfold Torch.nll_loss_sum_item.
  destruct (Nat.eqb_spec (length output) (length target)); [auto|discriminate].
Qed.

(** The number of correct predictions over all batches is the sum of the
    per-batch counts. *)
Lemma batch_correct_concat (outs : list (list (list Q))) (tgts : list (list nat)) :
  Forall2 (fun o t => length o = length t) outs tgts ->
  fold_right Z.add 0%Z
    (map (fun ot => batch_correct (fst ot) (snd ot)) (combine outs tgts))
  = Torch.sum_item (Torch.eq (concat (map Torch.argmax_dim1 outs)) (concat tgts)).
Proof.
  induction 1 as [|o t outs tgts Hot _ IH]; [reflexivity|].
  cbn [combine map fold_right concat fst snd].
  rewrite Torch_eq_app, sum_item_app, IH; [reflexivity|].
  unfold Torch.argmax_dim1. rewrite length_map. assumption.
Qed.

(** ** Batches of a power of two

    With [2 ^ k] examples in every batch the accuracy of a batch is a
    float32 number, and the sum of the accuracies a Python float, as long as
    no more than [2 ^ 53] examples are counted. *)

Lemma sum_item_bounds (bs : list bool) :
  (0 <= Torch.sum_item bs <= Z.of_nat (length bs))%Z.
Proof.
  unfold Torch.sum_item.
  pose proof (count_occ_bound bool_dec true bs). lia.
Qed.

Lemma dyadic_quotient (c k : Z) :
  (0 <= k)%Z ->
  inject_Z c / inject_Z (2 ^ k) == inject_Z c * Rounding.pow2 (- k).
Proof.
  intros Hk. rewrite pow2_opp, pow2_Z by exact Hk. reflexivity.
Qed.

Lemma batch_accuracy_dyadic (o : list (list Q)) (t : list nat) (k : Z) :
  (0 <= k <= 24)%Z -> length o = length t -> Z.of_nat (length t) = (2 ^ k)%Z ->
  batch_accuracy o t == inject_Z (batch_correct o t) * Rounding.pow2 (- k) /\
  (0 <= batch_correct o t <= 2 ^ k)%Z.
Proof.
  intros Hk Hot Ht.
  assert (Hlen : length (Torch.eq (Torch.argmax_dim1 o) t) = length t).
  { rewrite Torch_eq_length. unfold Torch.argmax_dim1.
    rewrite length_map, Hot. apply Nat.min_id. }
  assert (Hc : (0 <= batch_correct o t <= 2 ^ k)%Z).
  { unfold batch_correct. rewrite <- Ht, <- Hlen. apply sum_item_bounds. }
  split; [|exact Hc].
  unfold batch_accuracy, Torch.float_mean_item, Binary32.div.
  fold (batch_correct o t). rewrite Hlen, Ht.
  rewrite Binary32_round_format.
  - apply dyadic_quotient. lia.
  - apply (format_comp 24 (inject_Z (batch_correct o t) * Rounding.pow2 (- k))).
    + symmetry. apply dyadic_quotient. lia.
    + apply format_dyadic.
      assert (2 ^ k <= 2 ^ 24)%Z by (apply Z.pow_le_mono_r; lia). lia.
Qed.

(** Adding dyadic numbers from the left loses nothing, up to [2 ^ 53]. *)
Lemma fold_add_dyadic (k : Z) (cs : list Z) : forall (accs : list Q) (s : Q) (T : Z),
  Forall2 (fun a c => a == inject_Z c * Rounding.pow2 (- k)) accs cs ->
  Forall (fun c => (0 <= c)%Z) cs ->
  s == inject_Z T * Rounding.pow2 (- k) ->
  (0 <= T)%Z -> (T + fold_right Z.add 0%Z cs <= 2 ^ 53)%Z ->
  fold_left Binary64.add accs s
  == inject_Z (T + fold_right Z.add 0%Z cs) * Rounding.pow2 (- k).
Proof.
  induction cs as [|c cs IH]; intros accs s T HF Hcs Hs HS Hsum.
  - inversion HF; subst. cbn. rewrite Z.add_0_r. exact Hs.
  - inversion HF as [|a c' accs' cs' Ha HF']; subst.
    inversion Hcs as [|c' cs' Hc Hcs']; subst.
    cbn [fold_left fold_right] in *.
    assert (Hpos : (0 <= fold_right Z.add 0%Z cs)%Z).
    { clear - Hcs'. induction Hcs'; cbn; lia. }
    assert (Hstep : Binary64.add s a == inject_Z (T + c) * Rounding.pow2 (- k)).
    { unfold Binary64.add.
      assert (He : s + a == inject_Z (T + c) * Rounding.pow2 (- k)).
      { rewrite Hs, Ha, inject_Z_plus. ring. }
      rewrite (Binary64_round_comp _ _ He).
      apply Binary64_round_exact, format_dyadic. lia. }
    rewrite (IH accs' (Binary64.add s a) (T + c)%Z HF' Hcs' Hstep) by lia.
    rewrite Z.add_assoc. reflexivity.
Qed.

(** With batches of one size [2 ^ k], the Python float that is the mean of
    the per-batch accuracies is the float of the number of correct
    predictions over the number of examples. *)
Lemma mean_of_equal_batches (outs : list (list (list Q))) (tgts : list (list nat)) (k : Z) :
  (0 <= k <= 24)%Z -> (1 <= length tgts)%nat ->
  Forall2 (fun o t => length o = length t) outs tgts ->
  Forall (fun t => Z.of_nat (length t) = (2 ^ k)%Z) tgts ->
  (Z.of_nat (length (concat tgts)) <= 2 ^ 53)%Z ->
  Binary64.div
    (float_sum (map (fun ot => batch_accuracy (fst ot) (snd ot)) (combine outs tgts)))
    (Binary64.of_int (Z.of_nat (length tgts)))
  = Binary64.div
      (inject_Z (Torch.sum_item
                   (Torch.eq (concat (map Torch.argmax_dim1 outs)) (concat tgts))))
      (inject_Z (Z.of_nat (length (concat tgts)))).
Proof.
  intros Hk Hn Hot Hlen Hmax.
  set (cs := map (fun ot => batch_correct (fst ot) (snd ot)) (combine outs tgts)).
  set (accs := map (fun ot => batch_accuracy (fst ot) (snd ot)) (combine outs tgts)).
  assert (HF : Forall2 (fun a c => a == inject_Z c * Rounding.pow2 (- k)) accs cs
               /\ Forall (fun c => (0 <= c <= 2 ^ k)%Z) cs).
  { unfold accs, cs. clear Hn Hmax. induction Hot as [|o t outs tgts Ho _ IH].
    - split; constructor.
    - inversion Hlen; subst. destruct (IH ltac:(assumption)) as (IH1 & IH2).
      destruct (batch_accuracy_dyadic o t k Hk Ho ltac:(assumption)) as (A1 & A2).
      cbn [combine map fst snd]. split; constructor; assumption. }
  destruct HF as (HF & Hcs).
  assert (Hc : length (concat tgts) = (length tgts * Z.to_nat (2 ^ k))%nat).
  { clear - Hlen Hk. induction Hlen as [|t tgts Ht _ IH]; [reflexivity|].
    cbn. rewrite length_app, IH. lia. }
  assert (Hpow : (0 < 2 ^ k)%Z) by (apply Z.pow_pos_nonneg; lia).
  assert (HcZ : Z.of_nat (length (concat tgts))
                = (Z.of_nat (length tgts) * 2 ^ k)%Z).
  { rewrite Hc, Nat2Z.inj_mul, Z2Nat.id by lia. reflexivity. }
  assert (Hcount : length cs = length tgts).
  { unfold cs. rewrite length_map, length_combine.
    apply Forall2_length in Hot. lia. }
  assert (Htotal : (fold_right Z.add 0%Z cs <= Z.of_nat (length cs) * 2 ^ k)%Z).
  { clear - Hcs. induction Hcs as [|c cs Hc _ IH]; cbn [fold_right length]; [lia|].
    rewrite Nat2Z.inj_succ. lia. }
  assert (Hsum : float_sum accs
                 == inject_Z (fold_right Z.add 0%Z cs) * Rounding.pow2 (- k)).
  { unfold float_sum.
    rewrite (fold_add_dyadic k cs accs 0 0%Z HF).
    - reflexivity.
    - eapply Forall_impl; [|exact Hcs]. cbn. intros; lia.
    - ring.
    - lia.
    - rewrite Hcount in Htotal. lia. }
  unfold cs in Hsum at 1. fold accs.
  rewrite (batch_correct_concat _ _ Hot) in Hsum.
  unfold Binary64.div. apply Binary64_round_comp.
  rewrite Hsum, HcZ, inject_Z_mult.
  rewrite Binary64_of_int_exact by lia.
  rewrite <- dyadic_quotient by lia.
  field. split.
  - intros H. pose proof (inject_Z_pos _ Hpow) as H0. rewrite H in H0. discriminate.
  - intros H. assert (H0 : 0 < inject_Z (Z.of_nat (length tgts)))
      by (apply inject_Z_pos; lia).
    rewrite H in H0. discriminate.
Qed.

(** ** Loaders that drop the last, incomplete batch *)

Section DropLast.
Context {E : External}.

Lemma full_batches_fit dl k :
  DataLoader.drop_last dl = true ->
  (k < DataLoader.n_batches dl)%nat ->
  (k * DataLoader.batch_size dl + DataLoader.batch_size dl
     <= len (DataLoader.dataset dl))%nat.
Proof.
  unfold DataLoader.n_batches. intros -> Hk.
  pose proof (Nat.Div0.mul_div_le (len (DataLoader.dataset dl))
                (DataLoader.batch_size dl)) as H.
  nia.
Qed.

Lemma drop_last_batch_indices dl k :
  DataLoader.drop_last dl = true ->
  (k < DataLoader.n_batches dl)%nat ->
  DataLoader.batch_indices dl k
  = seq (k * DataLoader.batch_size dl) (DataLoader.batch_size dl).
Proof.
  intros Hd Hk. pose proof (full_batches_fit dl k Hd Hk).
  unfold DataLoader.batch_indices. f_equal. lia.
Qed.

Lemma fetch_ext ds ds' idx :
  (forall i, In i idx -> getitem ds' i = getitem ds i) ->
  DataLoader.fetch ds' idx = DataLoader.fetch ds idx.
Proof.
  induction idx as [|i idx IH]; intros H; [reflexivity|].
  cbn. rewrite (H i (or_introl eq_refl)), IH; [reflexivity|].
  intros j Hj. apply H. right. assumption.
Qed.

(** The batches only depend on the items of the full batches. *)
Lemma batches_ext dl dl' :
  DataLoader.drop_last dl = true -> DataLoader.drop_last dl' = true ->
  DataLoader.batch_size dl' = DataLoader.batch_size dl ->
  DataLoader.n_batches dl' = DataLoader.n_batches dl ->
  (forall i, (i < DataLoader.n_batches dl * DataLoader.batch_size dl)%nat ->
             getitem (DataLoader.dataset dl') i = getitem (DataLoader.dataset dl) i) ->
  DataLoader.batches dl' = DataLoader.batches dl.
Proof.
  intros Hd Hd' Hb Hn Hagree. unfold DataLoader.batches. rewrite Hn.
  apply map_ext_in. intros k Hk. apply in_seq in Hk.
  rewrite !drop_last_batch_indices by (try assumption; rewrite ?Hn; lia).
  rewrite Hb. apply fetch_ext. intros i Hi. apply in_seq in Hi.
  apply Hagree. nia.
Qed.

Lemma validate_ext model dev dl dl' verbose integer w :
  DataLoader.batches dl' = DataLoader.batches dl ->
  DataLoader.n_batches dl' = DataLoader.n_batches dl ->
  validate model dev dl' verbose integer w
  = validate model dev dl verbose integer w.
Proof.
  intros Hbs Hn. unfold validate.
  assert (Hloop : validate_loop model dl' verbose integer
                  = validate_loop model dl verbose integer).
  { unfold validate_loop. rewrite Hbs. reflexivity. }
  rewrite Hloop. unfold bind at 1 3.
  destruct (validate_loop model dl verbose integer w) as [[[st|e] w1] e1] eqn:Hl;
    [|reflexivity].
  destruct (Nat.eq_dec (DataLoader.n_batches dl) 0) as [Hz|Hnz].
  - (* no batch: the average is undefined whatever the dataset *)
    assert (Hst : Metric.avg (acc st) = Raise ZeroDivisionError).
    { unfold validate_loop, DataLoader.batches in Hl. rewrite Hz in Hl.
      cbn in Hl. inversion Hl; subst. reflexivity. }
    unfold bind, lift, truediv. rewrite Hst.
    destruct (Z.of_nat (len (DataLoader.dataset dl')) =? 0)%Z,
             (Z.of_nat (len (DataLoader.dataset dl)) =? 0)%Z; reflexivity.
  - destruct (n_batches_pos dl) as (_ & H1); [lia|].
    destruct (n_batches_pos dl') as (_ & H2); [lia|].
    unfold bind, lift, truediv.
    destruct (Z.eqb_spec (Z.of_nat (len (DataLoader.dataset dl'))) 0); [lia|].
    destruct (Z.eqb_spec (Z.of_nat (len (DataLoader.dataset dl))) 0); [lia|].
    reflexivity.
Qed.

End DropLast.

(** ** The value of [validate] *)

Section ValidateMean.
Context {E : External}.

Lemma Metric_avg_updates_inv name (vs : list Q) r :
  Metric.avg (Metric.updates (Metric.init name) vs) = Ok r ->
  (1 <= length vs)%nat /\
  r = Binary64.div (float_sum vs) (Binary64.of_int (Z.of_nat (length vs))).
Proof.
  unfold Metric.avg. rewrite Metric_updates_n, Metric_updates_sum.
  cbn [Metric.init Metric.n Metric.sum Z.add].
  destruct (Z.eqb_spec (Z.of_nat (length vs)) 0) as [Hz|Hnz]; [discriminate|].
  intros H. inversion H; subst. split; [lia | reflexivity].
Qed.

Lemma full_batches_length dl bs :
  DataLoader.drop_last dl = true ->
  Forall2 (fun k b => DataLoader.fetch (DataLoader.dataset dl)
                        (DataLoader.batch_indices dl k) = Ok b)
          (seq 0 (DataLoader.n_batches dl)) bs ->
  Forall (fun t => length t = DataLoader.batch_size dl) (map snd bs).
Proof.
  intros Hd HF.
  assert (Hks : Forall (fun k => (k < DataLoader.n_batches dl)%nat)
                       (seq 0 (DataLoader.n_batches dl))).
  { apply Forall_forall. intros k Hk. apply in_seq in Hk. lia. }
  revert Hks. induction HF as [|k [xs ys] ks bs Hk _ IH]; intros Hks; cbn.
  - constructor.
  - inversion Hks; subst. constructor; [|auto].
    rewrite drop_last_batch_indices in Hk by assumption.
    apply fetch_Ok_inv in Hk. destruct Hk as (_ & _ & Hy).
    cbn. rewrite Hy. apply length_seq.
Qed.

Lemma concat_length_equal {A} (ls : list (list A)) (b : nat) :
  Forall (fun t => length t = b) ls ->
  length (concat ls) = (length ls * b)%nat.
Proof.
  induction 1 as [|t ls Ht _ IH]; [reflexivity|].
  cbn. rewrite length_app, IH, Ht. lia.
Qed.

End ValidateMean.

(** ** The notebook, cell by cell *)

Ltac inv_bind H :=
  let a := fresh "a" in
  let w := fresh "w" in
  let e1 := fresh "e" in
  let e2 := fresh "e" in
  let H1 := fresh "H" in
  apply bind_Ok_inv in H; destruct H as (a & w & e1 & e2 & H1 & H & ->);
  first [ apply call_inv in H1; destruct H1 as (_ & _ & ->)
        | apply lift_inv in H1; destruct H1 as (H1 & -> & ->)
        | apply emit_inv in H1; destruct H1 as (-> & ->)
        | idtac ].

Section NotebookRun.
Context {E : External}.

(** A run that reaches the end made exactly the calls of [script_events]. *)
Lemma notebook_Ok_inv perm w g w' evs :
  notebook perm w = (Ok g, w', evs) ->
  calib_set g = Subset (MNIST true) (firstn Mcalib perm) /\
  valid_set g = MNIST false /\
  calib_loader g = DataLoader.Build (calib_set g) 128 true /\
  valid_loader g = DataLoader.Build (valid_set g) 128 true /\
  exists m0 acc1 acc2 acc3 acc4 ev1 ev2 ev3 ev4 w1 w1' w2 w2' w3 w3' w4 w4' b,
    validate (model g) device (valid_loader g) true false w1 = (Ok acc1, w1', ev1) /\
    validate (model_fq g) device (calib_loader g) true false w2 = (Ok acc2, w2', ev2) /\
    validate (model_fq_rounded g) device (valid_loader g) true false w3 = (Ok acc3, w3', ev3) /\
    validate (model_tq g) device (valid_loader g) true true w4 = (Ok acc4, w4', ev4) /\
    next_iter (valid_loader g) = Ok b /\
    first_unsqueezed (fst b) = Ok (x g) /\
    evs = script_events g m0 acc1 acc3 acc4 ev1 ev2 ev3 ev4.
Proof.
  unfold notebook, new_ExampleNet, with_calibration.
  remember (firstn Mcalib perm) as idx eqn:Hidx. clear Hidx. intros H.
  inv_bind H. inv_bind H0. inv_bind H0. apply ret_inv in H0. destruct H0 as (-> & -> & ->).
  inv_bind H. inv_bind H.
  repeat match goal with
         | Hx : DataLoader.make _ _ _ = Ok _ |- _ =>
             unfold DataLoader.make in Hx; cbn [Nat.eqb] in Hx;
             injection Hx as <-
         end.
  inv_bind H. inv_bind H. inv_bind H.
  (* model = ExampleNet().to(device) *)
  inv_bind H. inv_bind H0. inv_bind H0. apply ret_inv in H0. destruct H0 as (-> & -> & ->).
  inv_bind H.
  (* acc = validate(model, device, valid_loader) *)
  inv_bind H. inv_bind H.
  inv_bind H. inv_bind H. inv_bind H. inv_bind H. inv_bind H.
  (* with calibration(model_fq): *)
  inv_bind H. inv_bind H1. apply finally_Ok_inv in H1.
  destruct H1 as (wc & ec1 & ec2 & Hcal & Hexit & ->).
  apply call_inv in Hexit. destruct Hexit as (_ & _ & ->).
  inv_bind H. inv_bind H. inv_bind H.
  inv_bind H. inv_bind H.
  inv_bind H. inv_bind H.
  inv_bind H. inv_bind H.
  inv_bind H. inv_bind H.
  inv_bind H. inv_bind H. inv_bind H.
  apply ret_inv in H. destruct H as (Hg & -> & ->). subst g.
  cbn [calib_set valid_set calib_loader valid_loader model model_fp model_fq
       model_fq_rounded x model_tq model_tq_removed].
  repeat split.
  do 18 eexists.
  repeat split; try eassumption.
  unfold script_events, events_before_calibration, events_after_calibration. rewrite <- ?app_assoc.
  cbn [app calib_set valid_set calib_loader valid_loader model model_fp
       model_fq model_fq_rounded x model_tq model_tq_removed].
  reflexivity.
Qed.

End NotebookRun.

(** ** Runs that reach the end *)

Section Returns.
Context {E : External}.

Lemma returns_ret {A} (a : A) (P : A -> Prop) : P a -> returns (ret a) P.
Proof. intros H w. exists a, w, []. auto. Qed.

Lemma returns_lift {A} (r : result A) (a : A) (P : A -> Prop) :
  r = Ok a -> P a -> returns (lift r) P.
Proof. intros -> H w. exists a, w, []. auto. Qed.

Lemma returns_emit (ev : Event) : returns (emit ev) (fun _ => True).
Proof. intros w. exists tt, w, [ev]. auto. Qed.

Lemma returns_call {A} (f : W -> A * W) (ev : A -> Event) :
  returns (call f ev) (fun _ => True).
Proof.
  intros w. unfold call. destruct (f w) as [a w1]. exists a, w1, [ev a]. auto.
Qed.

Lemma returns_bind {A B} (m : M A) (f : A -> M B) (P : A -> Prop) (Q : B -> Prop) :
  returns m P -> (forall a, P a -> returns (f a) Q) -> returns (bind m f) Q.
Proof.
  intros Hm Hf w. destruct (Hm w) as (a & w1 & e1 & H1 & Ha).
  destruct (Hf a Ha w1) as (b & w2 & e2 & H2 & Hb).
  exists b, w2, (e1 ++ e2). rewrite (bind_Ok _ _ _ _ _ _ H1), H2. auto.
Qed.

Lemma returns_finally {A} (body : M A) (exit : M unit) (P : A -> Prop) :
  returns body P -> returns exit (fun _ => True) -> returns (finally body exit) P.
Proof.
  intros Hb Hx w. destruct (Hb w) as (a & w1 & e1 & H1 & Ha).
  destruct (Hx w1) as ([] & w2 & e2 & H2 & _).
  exists a, w2, (e1 ++ e2). unfold finally. rewrite H1, H2. auto.
Qed.

Lemma returns_validate classes model dev dl verbose integer :
  classifier classes model ->
  fetchable (DataLoader.dataset dl) ->
  labels_below classes (DataLoader.dataset dl) ->
  (1 <= DataLoader.n_batches dl)%nat ->
  returns (validate model dev dl verbose integer) (fun _ => True).
Proof.
  intros Hm Hf Hl Hn w.
  destruct (validate_Ok classes model dev dl verbose integer w Hm Hf Hl Hn)
    as (r & w' & evs & H).
  exists r, w', evs. auto.
Qed.

(** ** The datasets of the notebook *)

Lemma fetchable_MNIST train : fetchable (MNIST train).
Proof.
  intros i Hi. cbn in *. apply nth_error_Some in Hi.
  destruct (nth_error (mnist_items train) i) as [[raw label]|]; [eauto|congruence].
Qed.

Lemma fetchable_Subset ds indices :
  fetchable ds -> Forall (fun j => (j < len ds)%nat) indices ->
  fetchable (Subset ds indices).
Proof.
  intros Hds Hidx i Hi. cbn in *. apply nth_error_Some in Hi.
  destruct (nth_error indices i) as [j|] eqn:Hj; [|congruence].
  apply Hds. rewrite Forall_forall in Hidx. apply Hidx.
  eapply nth_error_In; eassumption.
Qed.

Lemma labels_below_Subset classes ds indices :
  labels_below classes ds -> labels_below classes (Subset ds indices).
Proof.
  intros Hds i x y. cbn. destruct (nth_error indices i) as [j|]; [|discriminate].
  apply Hds.
Qed.

Lemma firstn_In {A} (n : nat) (l : list A) (a : A) :
  In a (firstn n l) -> In a l.
Proof.
  intros H. rewrite <- (firstn_skipn n l). apply in_or_app. left. exact H.
Qed.

Lemma firstn_NoDup {A} (n : nat) (l : list A) : NoDup l -> NoDup (firstn n l).
Proof.
  intros H. rewrite <- (firstn_skipn n l) in H.
  eapply NoDup_app_remove_r. exact H.
Qed.

Lemma firstn_perm_in_range perm n :
  Permutation perm (seq 0 n) ->
  Forall (fun j => (j < n)%nat) (firstn Mcalib perm).
Proof.
  intros Hp. apply Forall_forall. intros j Hj.
  apply firstn_In in Hj. apply (Permutation_in _ Hp) in Hj.
  apply in_seq in Hj. lia.
Qed.

Lemma firstn_perm_length perm n :
  Permutation perm (seq 0 n) -> (Mcalib <= n)%nat ->
  length (firstn Mcalib perm) = Mcalib.
Proof.
  intros Hp Hn. apply firstn_length_le.
  rewrite (Permutation_length Hp), length_seq. exact Hn.
Qed.

End Returns.

Section NotebookReturns.
Context {E : External}.

Lemma labels_below_MNIST train :
  Forall (fun it => (snd it < 10)%nat) (mnist_items train) ->
  labels_below 10 (MNIST train).
Proof.
  intros H i x y. cbn.
  destruct (nth_error (mnist_items train) i) as [[raw label]|] eqn:Hi; [|discriminate].
  intros Hxy. inversion Hxy; subst. rewrite Forall_forall in H.
  apply (H (raw, y)). eapply nth_error_In; eassumption.
Qed.

Lemma n_batches_drop_last ds b :
  (1 <= b)%nat -> (b <= len ds)%nat ->
  (1 <= DataLoader.n_batches (DataLoader.Build ds b true))%nat.
Proof.
  intros Hb Hn. unfold DataLoader.n_batches. cbn.
  apply Nat.div_str_pos. lia.
Qed.

(** The first batch of a loader with at least one batch. *)
Lemma next_iter_Ok dl :
  fetchable (DataLoader.dataset dl) ->
  DataLoader.drop_last dl = true ->
  (1 <= DataLoader.n_batches dl)%nat ->
  exists b, next_iter dl = Ok b /\
            DataLoader.fetch (DataLoader.dataset dl)
              (seq 0 (DataLoader.batch_size dl)) = Ok b /\
            length (fst b) = DataLoader.batch_size dl.
Proof.
  intros Hf Hd Hn. unfold next_iter, DataLoader.batches.
  destruct (DataLoader.n_batches dl) as [|k] eqn:Hk; [lia|].
  cbn [seq map].
  rewrite drop_last_batch_indices by (try assumption; lia). cbn [Nat.mul].
  assert (Hr : Forall (fun i => (i < len (DataLoader.dataset dl))%nat)
                      (seq 0 (DataLoader.batch_size dl))).
  { pose proof (full_batches_fit dl 0 Hd ltac:(lia)) as Hfit.
    apply Forall_forall. intros i Hi. apply in_seq in Hi. lia. }
  destruct (fetch_Ok _ _ Hf Hr) as (xs & ys & Hxy).
  exists (xs, ys). rewrite Hxy. repeat split.
  apply fetch_Ok_inv in Hxy. destruct Hxy as (_ & Hx & _).
  cbn. rewrite Hx. apply length_seq.
Qed.

Lemma returns_lift_eq {A} (r : result A) (a : A) :
  r = Ok a -> returns (lift r) (fun a' => a' = a).
Proof. intros ->. intros w. exists a, w, []. auto. Qed.

(** Under [run_conditions] the notebook runs to its last cell. *)
Lemma notebook_returns perm :
  run_conditions perm -> returns (notebook perm) (fun _ => True).
Proof.
  intros (Hcls & Hlab & Hperm & Htrain & Htest).
  pose proof (firstn_perm_in_range perm _ Hperm) as Hrange.
  pose proof (firstn_perm_length perm _ Hperm Htrain) as Hlen.
  unfold notebook, new_ExampleNet, with_calibration.
  remember (firstn Mcalib perm) as idx eqn:Hidx. clear Hidx.
  assert (Hcal : forall m, returns (validate m device
             (DataLoader.Build (Subset (MNIST true) idx) 128 true) true false)
             (fun _ => True)).
  { intros m. apply returns_validate with (classes := 10%nat); cbn [DataLoader.dataset].
    - apply Hcls.
    - apply fetchable_Subset; [apply fetchable_MNIST | exact Hrange].
    - apply labels_below_Subset, labels_below_MNIST, Hlab.
    - apply n_batches_drop_last; [lia|]. cbn [len]. rewrite Hlen. unfold Mcalib. lia. }
  assert (Hval : forall m integer, returns (validate m device
             (DataLoader.Build (MNIST false) 128 true) true integer)
             (fun _ => True)).
  { intros m integer. apply returns_validate with (classes := 10%nat); cbn [DataLoader.dataset].
    - apply Hcls.
    - apply fetchable_MNIST.
    - apply labels_below_MNIST, Hlab.
    - apply n_batches_drop_last; [lia | exact Htest]. }
  destruct (next_iter_Ok (DataLoader.Build (MNIST false) 128 true))
    as (b & Hb & _ & Hb1); [apply fetchable_MNIST | reflexivity | |].
  { apply n_batches_drop_last; [lia | exact Htest]. }
  cbn [DataLoader.batch_size] in Hb1.
  destruct b as [[|x0 xs] ys]; [discriminate|].
  repeat first
    [ apply returns_ret; exact I
    | eapply returns_bind;
      [ solve
          [ apply returns_call
          | apply returns_emit
          | apply Hval
          | apply returns_lift_eq; first [exact Hb | reflexivity]
          | eapply returns_bind;
            [ apply returns_call
            | intros ? _; apply returns_finally;
              [apply Hcal | apply returns_call] ]
          | eapply returns_bind;
            [ apply returns_call
            | intros ? _; eapply returns_bind;
              [ apply returns_call | intros ? _; apply returns_ret; exact I ] ] ]
      | cbv beta; intros ? ?; subst ] ].
Qed.

End NotebookReturns.

(** ** The order of the stages *)

Section Stages.
Context {E : External}.

Lemma pipeline_app (e1 e2 : list Event) :
  pipeline (e1 ++ e2) = pipeline e1 ++ pipeline e2.
Proof. apply filter_app. Qed.

Lemma stages_app (e1 e2 : list Event) :
  stages (e1 ++ e2) = stages e1 ++ stages e2.
Proof. apply flat_map_app. Qed.

Lemma validate_events_no_pipeline (evs : list Event) :
  forallb is_validate_event evs = true ->
  pipeline evs = [] /\ stages evs = [] /\ existsb is_export evs = false.
Proof.
  induction evs as [|e evs IH]; [auto|]. cbn [forallb].
  intros H. apply andb_prop in H. destruct H as (He & H).
  destruct (IH H) as (IH1 & IH2 & IH3).
  destruct e; try discriminate; cbn; auto.
Qed.

Lemma validate_Ok_events model dev dl verbose integer w r w' evs :
  validate model dev dl verbose integer w = (Ok r, w', evs) ->
  forallb is_validate_event evs = true.
Proof.
  intros H. apply validate_Ok_inv in H.
  destruct H as (bs & st & _ & _ & _ & _ & _ & H & _). exact H.
Qed.

End Stages.

(** C2.  A run of the notebook takes the pretrained network through the
    floating-point, fake-quantized and true-quantized representations, in
    this order and through no other: the pretrained weights are traced,
    Float2Fake converts the traced network, the rounder edits the result,
    Fake2True converts that, and only then, after every other call of the
    run, the product of Fake2True is handed to the DORY exporter. *)
Theorem three_stages_then_export {E : External} (perm : list nat) (w : W) :
  run_conditions perm ->
  exists g w' evs before,
    notebook perm w = (Ok g, w', evs) /\
    stages evs = [FloatingPoint; FakeQuantized; TrueQuantized] /\
    pipeline evs
    = [ EvLoadStateDict (model g) "examplenet.pt";
        EvTrace (model g) (model_fp g);
        EvF2F (model_fp g) (model_fq g);
        EvRounder (model_fq g) (model_fq_rounded g);
        EvF2T (model_fq_rounded g) (shape (x g)) input_scale (model_tq g);
        EvEpsRemove (model_tq g) (model_tq_removed g);
        EvExport (model_tq g) (shape (x g)) ".";
        EvDumpFeatures (model_tq g) (x g) "." ] /\
    evs = before ++ [ EvExport (model_tq g) (shape (x g)) ".";
                      EvDumpFeatures (model_tq g) (x g) "." ] /\
    stages before = [FloatingPoint; FakeQuantized; TrueQuantized] /\
    existsb is_export before = false.
Proof.
  intros Hrun.
  destruct (notebook_returns perm Hrun w) as (g & w' & evs & Hnb & _).
  destruct (notebook_Ok_inv _ _ _ _ _ Hnb)
    as (_ & _ & _ & _ & m0 & acc1 & acc2 & acc3 & acc4 & ev1 & ev2 & ev3 & ev4
        & w1 & w1' & w2 & w2' & w3 & w3' & w4 & w4' & b
        & Hv1 & Hv2 & Hv3 & Hv4 & _ & _ & Hevs).
  apply validate_Ok_events, validate_events_no_pipeline in Hv1, Hv2, Hv3, Hv4.
  destruct Hv1 as (P1 & S1 & X1), Hv2 as (P2 & S2 & X2),
           Hv3 as (P3 & S3 & X3), Hv4 as (P4 & S4 & X4).
  exists g, w', evs.
  eexists.
  split; [exact Hnb|].
  split; [|split; [|split; [|split]]].
  - rewrite Hevs. unfold script_events, events_before_calibration, events_after_calibration.
    rewrite !stages_app, S1, S2, S3, S4. reflexivity.
  - rewrite Hevs. unfold script_events, events_before_calibration, events_after_calibration.
    rewrite !pipeline_app, P1, P2, P3, P4. reflexivity.
  - rewrite Hevs. unfold script_events, events_before_calibration, events_after_calibration.
    repeat rewrite app_assoc.
    match goal with
    | |- ?pre ++ [?a; ?b; ?c; ?d] = _ =>
        change (pre ++ [a; b; c; d]) with (pre ++ [a; b] ++ [c; d])
    end.
    rewrite app_assoc. reflexivity.
  - rewrite !stages_app, S1, S2, S3, S4. reflexivity.
  - rewrite !existsb_app, X1, X2, X3, X4. reflexivity.
Qed.

(** ** What the modules are tested on *)

Section Inputs.
Context {E : External}.

Lemma tested_on_fed m dl integer acc ev bs :
  tested_on m dl integer acc ev ->
  DataLoader.batches dl = map Ok bs ->
  map (fun c => fst c) (forward_calls ev)
  = map (fun b => (m, feed integer (fst b))) bs.
Proof.
  intros (w & w' & H) Hbs. apply validate_Ok_inv in H.
  destruct H as (bs' & st & Hbs' & Hfed & _).
  assert (bs' = bs) as -> by (apply map_Ok_inj; congruence).
  exact Hfed.
Qed.

Lemma fed_spec ev m integer (bs : list (list Image * list nat)) :
  map (fun c => fst c) (forward_calls ev)
  = map (fun b => (m, feed integer (fst b))) bs ->
  fed ev = map (fun b => feed integer (fst b)) bs.
Proof.
  intros H. unfold fed.
  rewrite <- (map_map (fun c : NNModule * list Image * list (list Q) => fst c)
                      (fun mc : NNModule * list Image => snd mc)), H, map_map.
  reflexivity.
Qed.

(** A run that reaches the end, with the four runs of [validate] in it. *)
Lemma notebook_run perm w :
  run_conditions perm ->
  exists g w' evs m0 acc1 acc2 acc3 acc4 ev1 ev2 ev3 ev4,
    notebook perm w = (Ok g, w', evs) /\
    evs = script_events g m0 acc1 acc3 acc4 ev1 ev2 ev3 ev4 /\
    calib_loader g
    = DataLoader.Build (Subset (MNIST true) (firstn Mcalib perm)) 128 true /\
    valid_loader g = DataLoader.Build (MNIST false) 128 true /\
    tested_on (model g) (valid_loader g) false acc1 ev1 /\
    tested_on (model_fq g) (calib_loader g) false acc2 ev2 /\
    tested_on (model_fq_rounded g) (valid_loader g) false acc3 ev3 /\
    tested_on (model_tq g) (valid_loader g) true acc4 ev4.
Proof.
  intros Hrun.
  destruct (notebook_returns perm Hrun w) as (g & w' & evs & Hnb & _).
  destruct (notebook_Ok_inv _ _ _ _ _ Hnb)
    as (Hc & Hv & Hcl & Hvl & m0 & acc1 & acc2 & acc3 & acc4 & ev1 & ev2 & ev3 & ev4
        & w1 & w1' & w2 & w2' & w3 & w3' & w4 & w4' & b
        & Hv1 & Hv2 & Hv3 & Hv4 & _ & _ & Hevs).
  exists g, w', evs, m0, acc1, acc2, acc3, acc4, ev1, ev2, ev3, ev4.
  rewrite Hc in Hcl. rewrite Hv in Hvl.
  split; [exact Hnb|]. split; [exact Hevs|].
  split; [exact Hcl|]. split; [exact Hvl|].
  split; [exists w1, w1'; exact Hv1|]. split; [exists w2, w2'; exact Hv2|].
  split; [exists w3, w3'; exact Hv3|]. exists w4, w4'; exact Hv4.
Qed.

End Inputs.

(** C6.  The fake-quantized network is tested like the floating-point one:
    [validate] is called without [integer], so that the fake-quantized
    modules receive the batches of their loader as floating-point tensors,
    unchanged, and the rounded fake-quantized network receives exactly the
    tensors the floating-point network received.  The true-quantized network
    is tested with [integer=True] and receives these tensors times 255. *)
Theorem fake_quantized_tested_on_float_inputs {E : External}
    (perm : list nat) (w : W) :
  run_conditions perm ->
  exists g w' evs m0 acc1 acc2 acc3 acc4 ev1 ev2 ev3 ev4 bs cs,
    notebook perm w = (Ok g, w', evs) /\
    evs = script_events g m0 acc1 acc3 acc4 ev1 ev2 ev3 ev4 /\
    DataLoader.batches (valid_loader g) = map Ok bs /\
    DataLoader.batches (calib_loader g) = map Ok cs /\
    (* the floating-point network *)
    tested_on (model g) (valid_loader g) false acc1 ev1 /\
    map (fun c => fst c) (forward_calls ev1)
      = map (fun b => (model g, fst b)) bs /\
    (* the fake-quantized network, in calibration and in its test *)
    tested_on (model_fq g) (calib_loader g) false acc2 ev2 /\
    map (fun c => fst c) (forward_calls ev2)
      = map (fun b => (model_fq g, fst b)) cs /\
    tested_on (model_fq_rounded g) (valid_loader g) false acc3 ev3 /\
    map (fun c => fst c) (forward_calls ev3)
      = map (fun b => (model_fq_rounded g, fst b)) bs /\
    fed ev3 = fed ev1 /\
    (* the true-quantized network *)
    tested_on (model_tq g) (valid_loader g) true acc4 ev4 /\
    map (fun c => fst c) (forward_calls ev4)
      = map (fun b => (model_tq g, Torch.mul_scalar (fst b) 255)) bs /\
    fed ev4 = map (fun data => Torch.mul_scalar data 255) (fed ev1).
Proof.
  intros Hrun.
  destruct (notebook_run perm w Hrun)
    as (g & w' & evs & m0 & acc1 & acc2 & acc3 & acc4 & ev1 & ev2 & ev3 & ev4
        & Hnb & Hevs & Hcl & Hvl & T1 & T2 & T3 & T4).
  destruct (batches_Ok (valid_loader g)) as (bs & Hbs & _).
  { rewrite Hvl. apply fetchable_MNIST. }
  destruct (batches_Ok (calib_loader g)) as (cs & Hcs & _).
  { rewrite Hcl. destruct Hrun as (_ & _ & Hperm & _).
    apply fetchable_Subset; [apply fetchable_MNIST|].
    apply firstn_perm_in_range. exact Hperm. }
  pose proof (tested_on_fed _ _ _ _ _ _ T1 Hbs) as F1.
  pose proof (tested_on_fed _ _ _ _ _ _ T2 Hcs) as F2.
  pose proof (tested_on_fed _ _ _ _ _ _ T3 Hbs) as F3.
  pose proof (tested_on_fed _ _ _ _ _ _ T4 Hbs) as F4.
  cbn [feed] in F1, F2, F3, F4.
  exists g, w', evs, m0, acc1, acc2, acc3, acc4, ev1, ev2, ev3, ev4, bs, cs.
  repeat split; try assumption.
  - rewrite (fed_spec _ _ false _ F1), (fed_spec _ _ false _ F3). reflexivity.
  - rewrite (fed_spec _ _ false _ F1), (fed_spec _ _ true _ F4), map_map.
    reflexivity.
Qed.

(** ** The calibration subset *)

Section Calibration.
Context {E : External}.

Lemma combine_app {A B} (xs xs' : list A) (ys ys' : list B) :
  length xs = length ys ->
  combine (xs ++ xs') (ys ++ ys') = combine xs ys ++ combine xs' ys'.
Proof.
  revert ys. induction xs as [|x xs IH]; intros [|y ys] H; try discriminate.
  - reflexivity.
  - cbn. f_equal. apply IH. cbn in H. lia.
Qed.

(** The batches [s], ..., [s + n - 1] of size [bsz], put end to end, are the
    items at the positions [s * bsz], ..., [(s + n) * bsz - 1]. *)
Lemma fetch_batches_cover ds bsz n : forall s bs,
  Forall2 (fun k b => DataLoader.fetch ds (seq (k * bsz) bsz) = Ok b)
          (seq s n) bs ->
  map (getitem ds) (seq (s * bsz) (n * bsz))
  = map Ok (combine (concat (map fst bs)) (concat (map snd bs))).
Proof.
  induction n as [|n IH]; intros s bs HF.
  - inversion HF; subst. reflexivity.
  - cbn [seq] in HF. inversion HF as [|k [xs ys] ks bs' Hk HF' Hks Hbs]; subst.
    apply fetch_Ok_inv in Hk. destruct Hk as (Hk & Hx & Hy).
    cbn [Nat.mul map concat fst snd].
    rewrite seq_app, map_app, combine_app, map_app by congruence.
    rewrite Hk. f_equal.
    replace (s * bsz + bsz)%nat with (S s * bsz)%nat by lia.
    apply IH. exact HF'.
Qed.

(** A loader that drops nothing: the batches are the whole dataset. *)
Lemma batches_cover dl bs :
  DataLoader.drop_last dl = true ->
  len (DataLoader.dataset dl)
  = (DataLoader.n_batches dl * DataLoader.batch_size dl)%nat ->
  Forall2 (fun k b => DataLoader.fetch (DataLoader.dataset dl)
                        (DataLoader.batch_indices dl k) = Ok b)
          (seq 0 (DataLoader.n_batches dl)) bs ->
  map (getitem (DataLoader.dataset dl)) (seq 0 (len (DataLoader.dataset dl)))
  = map Ok (combine (concat (map fst bs)) (concat (map snd bs))).
Proof.
  intros Hd Hlen HF. rewrite Hlen.
  apply (fetch_batches_cover _ _ _ 0%nat).
  assert (Hks : Forall (fun k => (k < DataLoader.n_batches dl)%nat)
                       (seq 0 (DataLoader.n_batches dl))).
  { apply Forall_forall. intros k Hk. apply in_seq in Hk. lia. }
  revert Hks. induction HF as [|k b ks bs' Hk _ IH]; intros Hks; constructor.
  - inversion Hks; subst. rewrite <- drop_last_batch_indices by assumption.
    exact Hk.
  - inversion Hks; subst. auto.
Qed.

Lemma origin_MNIST train i :
  (i < len (MNIST train))%nat -> origin (MNIST train) i = Some (train, i).
Proof.
  intros H. unfold origin, len in *. apply Nat.ltb_lt in H. rewrite H.
  reflexivity.
Qed.

Lemma origin_Subset_MNIST train indices i :
  Forall (fun j => (j < len (MNIST train))%nat) indices ->
  (i < length indices)%nat ->
  origin (Subset (MNIST train) indices) i = Some (train, nth i indices 0%nat).
Proof.
  intros Hr Hi. cbn [origin].
  rewrite (nth_error_nth' indices 0%nat Hi).
  apply origin_MNIST. rewrite Forall_forall in Hr. apply Hr.
  apply nth_In. exact Hi.
Qed.

Lemma printed_script_events g m0 acc1 acc3 acc4 (ev1 ev2 ev3 ev4 : list Event) :
  printed ev1 = [] -> printed ev2 = [] -> printed ev3 = [] -> printed ev4 = [] ->
  printed (script_events g m0 acc1 acc3 acc4 ev1 ev2 ev3 ev4)
  = [ ("\n\nFullPrecision accuracy: %.3f", acc1);
      ("\nFakeQuantized with calibration+rounding: accuracy: %.3f", acc3);
      ("\nTrueQuantized: accuracy: %.3f", acc4) ]%string.
Proof.
  intros P1 P2 P3 P4. unfold script_events, events_before_calibration, events_after_calibration.
  rewrite !printed_app, P1, P2, P3, P4. reflexivity.
Qed.

Lemma tested_on_printed m dl integer acc ev :
  tested_on m dl integer acc ev -> printed ev = [].
Proof.
  intros (w & w' & H). apply printed_validate_events.
  eapply validate_Ok_events. exact H.
Qed.

End Calibration.

(** C4.  The calibration pass is the run of [validate] on the fake-quantized
    network between the entry and the exit of the calibration context.  It
    runs over [calib_loader], whose dataset is 1024 distinct items of the
    training split; with batches of 128 none of them is dropped, so that the
    tensors the network receives are the images of all 1024 items.  The
    accuracies the notebook prints are those of the three runs of [validate]
    over [valid_loader], whose dataset is the test split: no item of the
    calibration subset is an item of it. *)
Theorem calibration_on_held_out_subset {E : External}
    (perm : list nat) (w : W) :
  run_conditions perm ->
  exists g w' evs m0 acc1 acc2 acc3 acc4 ev1 ev2 ev3 ev4 cs,
    notebook perm w = (Ok g, w', evs) /\
    evs = script_events g m0 acc1 acc3 acc4 ev1 ev2 ev3 ev4 /\
    (* the calibration pass *)
    tested_on (model_fq g) (calib_loader g) false acc2 ev2 /\
    (exists before after,
        evs = before ++ EvCalibEnter (model_fq g) :: ev2
                     ++ EvCalibExit (model_fq g) :: after) /\
    (* 1024 distinct items of the training split *)
    DataLoader.dataset (calib_loader g)
      = Subset (MNIST true) (firstn Mcalib perm) /\
    len (DataLoader.dataset (calib_loader g)) = 1024%nat /\
    NoDup (firstn Mcalib perm) /\
    (forall i, (i < 1024)%nat ->
       origin (DataLoader.dataset (calib_loader g)) i
       = Some (true, nth i perm 0%nat)) /\
    (* all of them are run *)
    DataLoader.batches (calib_loader g) = map Ok cs /\
    fed ev2 = map fst cs /\
    map (getitem (DataLoader.dataset (calib_loader g))) (seq 0 1024)
      = map Ok (combine (concat (map fst cs)) (concat (map snd cs))) /\
    (* the printed accuracies come from the test split *)
    printed evs
      = [ ("\n\nFullPrecision accuracy: %.3f", acc1);
          ("\nFakeQuantized with calibration+rounding: accuracy: %.3f", acc3);
          ("\nTrueQuantized: accuracy: %.3f", acc4) ]%string /\
    tested_on (model g) (valid_loader g) false acc1 ev1 /\
    tested_on (model_fq_rounded g) (valid_loader g) false acc3 ev3 /\
    tested_on (model_tq g) (valid_loader g) true acc4 ev4 /\
    DataLoader.dataset (valid_loader g) = MNIST false /\
    (* the two are disjoint *)
    (forall i j,
       (i < len (DataLoader.dataset (calib_loader g)))%nat ->
       (j < len (DataLoader.dataset (valid_loader g)))%nat ->
       origin (DataLoader.dataset (calib_loader g)) i
       <> origin (DataLoader.dataset (valid_loader g)) j).
Proof.
  intros Hrun.
  destruct (notebook_run perm w Hrun)
    as (g & w' & evs & m0 & acc1 & acc2 & acc3 & acc4 & ev1 & ev2 & ev3 & ev4
        & Hnb & Hevs & Hcl & Hvl & T1 & T2 & T3 & T4).
  destruct Hrun as (_ & _ & Hperm & Htrain & _).
  pose proof (firstn_perm_in_range perm _ Hperm) as Hrange.
  pose proof (firstn_perm_length perm _ Hperm Htrain) as Hlen.
  assert (Hnodup : NoDup (firstn Mcalib perm)).
  { apply firstn_NoDup. apply (Permutation_NoDup (Permutation_sym Hperm)).
    apply seq_NoDup. }
  assert (Horigin : forall i, (i < 1024)%nat ->
            origin (Subset (MNIST true) (firstn Mcalib perm)) i
            = Some (true, nth i perm 0%nat)).
  { intros i Hi. rewrite origin_Subset_MNIST by (try assumption; rewrite Hlen; exact Hi).
    rewrite nth_firstn. unfold Mcalib.
    destruct (Nat.ltb_spec i 1024); [reflexivity | lia]. }
  destruct (batches_Ok (calib_loader g)) as (cs & Hcs & HF).
  { rewrite Hcl. apply fetchable_Subset; [apply fetchable_MNIST | exact Hrange]. }
  pose proof (tested_on_fed _ _ _ _ _ _ T2 Hcs) as F2.
  apply fed_spec in F2. cbn [feed] in F2.
  assert (Hcover : map (getitem (DataLoader.dataset (calib_loader g))) (seq 0 1024)
                   = map Ok (combine (concat (map fst cs)) (concat (map snd cs)))).
  { pose proof (batches_cover (calib_loader g) cs) as Hc.
    rewrite Hcl in Hc, HF |- *. cbn [DataLoader.dataset DataLoader.drop_last len] in Hc |- *.
    unfold DataLoader.n_batches in Hc.
    cbn [DataLoader.dataset DataLoader.drop_last DataLoader.batch_size len] in Hc.
    rewrite Hlen in Hc. apply Hc; [reflexivity | reflexivity |].
    unfold DataLoader.n_batches in HF.
    cbn [DataLoader.dataset DataLoader.drop_last DataLoader.batch_size len] in HF.
    rewrite Hlen in HF. exact HF. }
  exists g, w', evs, m0, acc1, acc2, acc3, acc4, ev1, ev2, ev3, ev4, cs.
  split; [exact Hnb|]. split; [exact Hevs|]. split; [exact T2|].
  split.
  { exists (events_before_calibration g m0 acc1 ev1),
           (events_after_calibration g acc3 acc4 ev3 ev4).
    exact Hevs. }
  rewrite Hcl, Hvl. cbn [DataLoader.dataset len].
  rewrite Hcl in Hcs, Hcover. cbn [DataLoader.dataset] in Hcover.
  split; [reflexivity|]. split; [exact Hlen|]. split; [exact Hnodup|].
  split; [exact Horigin|]. split; [exact Hcs|]. split; [exact F2|].
  split; [exact Hcover|].
  split.
  { rewrite Hevs. apply printed_script_events;
      eapply tested_on_printed; eassumption. }
  rewrite Hvl in T1, T3, T4.
  split; [exact T1|]. split; [exact T3|]. split; [exact T4|].
  split; [reflexivity|].
  intros i j Hi Hj. rewrite Hlen in Hi. unfold Mcalib in Hi.
  rewrite (Horigin i Hi), (origin_MNIST false j Hj). discriminate.
Qed.

(** ** The draw of the calibration subset *)

Section Draw.
Context {E : External}.

(** Whatever a draw gives, another draw gives a subset with an item the
    first one does not have. *)
Lemma another_draw (n : nat) (perm1 : list nat) :
  (Mcalib < n)%nat ->
  Permutation perm1 (seq 0 n) ->
  exists perm2 j,
    Permutation perm2 (seq 0 n) /\
    In j (firstn Mcalib perm2) /\ ~ In j (firstn Mcalib perm1).
Proof.
  intros Hn Hp.
  assert (Hlen : length perm1 = n).
  { rewrite (Permutation_length Hp). apply length_seq. }
  assert (Hnd : NoDup perm1).
  { apply (Permutation_NoDup (Permutation_sym Hp)), seq_NoDup. }
  rewrite <- (firstn_skipn Mcalib perm1) in Hp, Hnd.
  destruct (skipn Mcalib perm1) as [|j rest] eqn:Hs.
  - apply (f_equal (@length _)) in Hs. rewrite length_skipn in Hs. cbn in Hs. lia.
  - exists (j :: firstn Mcalib perm1 ++ rest), j. split; [|split].
    + transitivity (firstn Mcalib perm1 ++ j :: rest); [|exact Hp].
      apply Permutation_middle.
    + unfold Mcalib. cbn [firstn]. left. reflexivity.
    + intros Hin. apply NoDup_remove_2 in Hnd. apply Hnd.
      apply in_or_app. left. exact Hin.
Qed.

Lemma origin_Subset_In indices i j :
  origin (Subset (MNIST true) indices) i = Some (true, j) -> In j indices.
Proof.
  cbn [origin]. destruct (nth_error indices i) as [k|] eqn:Hk; [|discriminate].
  unfold origin. destruct (k <? length (mnist_items true))%nat; [|discriminate].
  intros H. inversion H; subst. eapply nth_error_In; eassumption.
Qed.

End Draw.
(** ** The small world satisfies the conditions of a run *)

#[local] Existing Instance Toy.world.

Lemma Toy_row_length (img : Image) : length (Toy.row img) = 10%nat.
Proof. unfold Toy.row. rewrite length_map. reflexivity. Qed.

Lemma Toy_classifier (m : @NNModule Toy.world) : classifier 10 m.
Proof.
  intros data w. cbn. split; [apply length_map|].
  apply Forall_forall. intros r Hr. apply in_map_iff in Hr.
  destruct Hr as (img & <- & _). rewrite Toy_row_length. lia.
Qed.

Lemma Toy_labels (train : bool) :
  Forall (fun it => (snd it < 10)%nat) (@mnist_items Toy.world train).
Proof.
  apply Forall_forall. intros it Hit.
  assert (H : forallb (fun it => (snd it <? 10)%nat) (Toy.items train) = true)
    by (destruct train; vm_compute; reflexivity).
  rewrite forallb_forall in H. apply Nat.ltb_lt. apply H. exact Hit.
Qed.

Lemma Toy_len (train : bool) :
  @len Toy.world (MNIST train) = if train then 1030%nat else 300%nat.
Proof. destruct train; vm_compute; reflexivity. Qed.

Lemma Toy_run_conditions : @run_conditions Toy.world Toy.perm.
Proof.
  unfold run_conditions. rewrite !Toy_len.
  split; [exact Toy_classifier|]. split; [exact Toy_labels|].
  split; [apply Permutation_refl|]. unfold Mcalib. split; lia.
Qed.

Lemma Toy_run_conditions' : @run_conditions Toy.world Toy.perm'.
Proof.
  unfold run_conditions. rewrite !Toy_len.
  split; [exact Toy_classifier|]. split; [exact Toy_labels|].
  split; [|unfold Mcalib; split; lia].
  change (seq 0 1030) with (seq 0 1024 ++ 1024%nat :: seq 1025 5).
  apply Permutation_middle.
Qed.

Lemma three_stages_then_export_witness :
  exists g w' evs,
    notebook (E := Toy.world) Toy.perm [] = (Ok g, w', evs) /\
    stages evs = [FloatingPoint; FakeQuantized; TrueQuantized] /\
    exists before,
      evs = before ++ [ EvExport (model_tq g) (shape (x g)) ".";
                        EvDumpFeatures (model_tq g) (x g) "." ] /\
      existsb is_export before = false.
Proof.
  destruct (three_stages_then_export (E := Toy.world) Toy.perm []
              Toy_run_conditions)
    as (g & w' & evs & before & H1 & H2 & _ & H3 & _ & H4).
  exists g, w', evs. repeat split; try assumption.
  exists before. split; assumption.
Defined.

Lemma fake_quantized_tested_on_float_inputs_witness :
  exists g w' evs m0 acc1 acc3 acc4 ev1 ev2 ev3 ev4,
    notebook (E := Toy.world) Toy.perm [] = (Ok g, w', evs) /\
    evs = script_events g m0 acc1 acc3 acc4 ev1 ev2 ev3 ev4 /\
    fed ev3 = fed ev1 /\
    fed ev4 = map (fun data => Torch.mul_scalar data 255) (fed ev1).
Proof.
  destruct (fake_quantized_tested_on_float_inputs (E := Toy.world) Toy.perm []
              Toy_run_conditions)
    as (g & w' & evs & m0 & acc1 & acc2 & acc3 & acc4 & ev1 & ev2 & ev3 & ev4
        & bs & cs & H1 & H2 & _ & _ & _ & _ & _ & _ & _ & _ & H3 & _ & _ & H4).
  exists g, w', evs, m0, acc1, acc3, acc4, ev1, ev2, ev3, ev4.
  repeat split; assumption.
Defined.

Lemma calibration_on_held_out_subset_witness :
  exists g w' evs,
    notebook (E := Toy.world) Toy.perm [] = (Ok g, w', evs) /\
    len (DataLoader.dataset (calib_loader g)) = 1024%nat /\
    forall i j,
      (i < len (DataLoader.dataset (calib_loader g)))%nat ->
      (j < len (DataLoader.dataset (valid_loader g)))%nat ->
      origin (DataLoader.dataset (calib_loader g)) i
      <> origin (DataLoader.dataset (valid_loader g)) j.
Proof.
  destruct (calibration_on_held_out_subset (E := Toy.world) Toy.perm []
              Toy_run_conditions)
    as (g & w' & evs & m0 & acc1 & acc2 & acc3 & acc4 & ev1 & ev2 & ev3 & ev4
        & cs & H1 & _ & _ & _ & _ & H2 & _ & _ & _ & _ & _ & _ & _ & _ & _ & _ & H3).
  exists g, w', evs. repeat split; assumption.
Defined.

(** C9.  The calibration subset is not a function of the data: nothing seeds
    the generator, so that every permutation of the positions of the training
    split is a possible outcome of the draw.  With more than [Mcalib]
    training items, for every run there is another run on the same data and
    from the same state of the libraries whose calibration subset has an
    item that the first run's subset does not have.  The libraries may then
    end in another state: in the small world, where a module's state is made
    of the batches it has seen, the two runs below do. *)
Theorem calibration_subset_depends_on_the_draw :
  (forall (E : External) (perm1 : list nat) (w : W),
      run_conditions perm1 ->
      (Mcalib < len (MNIST true))%nat ->
      exists perm2 g1 g2 w1 w2 evs1 evs2 i j,
        run_conditions perm2 /\
        notebook perm1 w = (Ok g1, w1, evs1) /\
        notebook perm2 w = (Ok g2, w2, evs2) /\
        calib_set g1 = Subset (MNIST true) (firstn Mcalib perm1) /\
        calib_set g2 = Subset (MNIST true) (firstn Mcalib perm2) /\
        origin (calib_set g2) i = Some (true, j) /\
        (forall i', origin (calib_set g1) i' <> Some (true, j)) /\
        calib_set g1 <> calib_set g2) /\
  (run_conditions (E := Toy.world) Toy.perm /\
   run_conditions (E := Toy.world) Toy.perm' /\
   final_state (E := Toy.world) Toy.perm []
   <> final_state (E := Toy.world) Toy.perm' []).
Proof.
  split.
  - intros E perm1 w Hrun Hn.
    pose proof Hrun as (Hcls & Hlab & Hperm & Htrain & Htest).
    destruct (another_draw _ perm1 Hn Hperm) as (perm2 & j & Hperm2 & Hin & Hnot).
    assert (Hrun2 : run_conditions perm2).
    { unfold run_conditions. auto. }
    destruct (notebook_returns perm1 Hrun w) as (g1 & w1 & evs1 & H1 & _).
    destruct (notebook_returns perm2 Hrun2 w) as (g2 & w2 & evs2 & H2 & _).
    destruct (notebook_Ok_inv _ _ _ _ _ H1) as (C1 & _).
    destruct (notebook_Ok_inv _ _ _ _ _ H2) as (C2 & _).
    destruct (In_nth _ _ 0%nat Hin) as (i & Hi & Hnth).
    exists perm2, g1, g2, w1, w2, evs1, evs2, i, j.
    split; [exact Hrun2|]. split; [exact H1|]. split; [exact H2|].
    split; [exact C1|]. split; [exact C2|].
    assert (Ho1 : forall i', origin (calib_set g1) i' <> Some (true, j)).
    { intros i' Ho. rewrite C1 in Ho. apply origin_Subset_In in Ho. auto. }
    assert (Ho2 : origin (calib_set g2) i = Some (true, j)).
    { rewrite C2, origin_Subset_MNIST, Hnth; [reflexivity | | exact Hi].
      apply firstn_perm_in_range. exact Hperm2. }
    split; [exact Ho2|]. split; [exact Ho1|].
    intros Heq. apply (Ho1 i). rewrite Heq. exact Ho2.
  - split; [exact Toy_run_conditions|]. split; [exact Toy_run_conditions'|].
    intros H.
    apply (f_equal (fun w => nth 1 (nth 2 (rev w) []) [])) in H.
    vm_compute in H. discriminate.
Qed.

Lemma calibration_subset_depends_on_the_draw_witness :
  exists perm2 g1 g2 w1 w2 evs1 evs2,
    notebook (E := Toy.world) Toy.perm [] = (Ok g1, w1, evs1) /\
    notebook (E := Toy.world) perm2 [] = (Ok g2, w2, evs2) /\
    calib_set g1 <> calib_set g2.
Proof.
  destruct (proj1 calibration_subset_depends_on_the_draw Toy.world Toy.perm []
              Toy_run_conditions ltac:(rewrite Toy_len; unfold Mcalib; lia))
    as (perm2 & g1 & g2 & w1 & w2 & evs1 & evs2 & i & j
        & _ & H1 & H2 & _ & _ & _ & _ & H3).
  exists perm2, g1, g2, w1, w2, evs1, evs2. repeat split; assumption.
Defined.

(** ** The logic of the notebook's own *)

Lemma Metric_does_not_only_delegate : ~ Metric_only_delegates.
Proof.
  intros H.
  destruct (H "test_acc"%string [1; 0] (1 # 2)) as (v & Hin & Hv).
  - vm_compute. reflexivity.
  - cbn in Hin. destruct Hin as [<- | [<- | []]]; vm_compute in Hv; discriminate.
Qed.

Lemma validate_does_not_only_delegate : ~ validate_only_delegates.
Proof.
  intros H.
  destruct (validate (E := Toy.world) 0%nat "cpu" Toy_loader true false [])
    as [[r w'] evs] eqn:Hv.
  destruct (batches_Ok (E := Toy.world) Toy_loader (fetchable_MNIST false))
    as (bs & Hbs & _).
  assert (Hr : r = Ok (7325855207740757 # 36028797018963968)).
  { apply (f_equal (fun x => fst (fst x))) in Hv. vm_compute in Hv. congruence. }
  subst r.
  destruct (H Toy.world _ _ _ _ _ _ _ _ _ bs Hv Hbs) as (v & Hin & Heq).
  assert (Hnone : existsb (Qeq_bool (7325855207740757 # 36028797018963968)) (items_returned evs bs) = false).
  { assert (Hbs' : bs = Toy_batches).
    { apply map_Ok_inj. rewrite <- Hbs. vm_compute. reflexivity. }
    apply (f_equal (fun x => snd x)) in Hv. cbn [snd] in Hv.
    rewrite <- Hv, Hbs'. vm_compute. reflexivity. }
  assert (Hsome : existsb (Qeq_bool (7325855207740757 # 36028797018963968)) (items_returned evs bs) = true).
  { apply existsb_exists. exists v. split; [exact Hin|]. apply Qeq_bool_iff. exact Heq. }
  congruence.
Qed.

Lemma accuracies_are_items {E : External} (evs : list Event)
    (bs : list (list Image * list nat)) :
  incl (accuracies evs bs) (items_returned evs bs).
Proof.
  unfold accuracies, items_returned.
  generalize (combine (outputs evs) (map snd bs)). intros l a Ha.
  apply in_map_iff in Ha. destruct Ha as (ot & <- & Hot).
  apply in_flat_map. exists ot. split; [exact Hot|].
  unfold items_of_batch. apply in_or_app. right. right. left. reflexivity.
Qed.

(** C5, as the notebook has it.  The notebook has a little logic of its own,
    all of it in [Metric] and [validate]: [validate] hands the batches of its
    loader to the module, times 255 when [integer] is set, and returns the
    average that a [Metric] keeps of the per-batch accuracies the libraries
    returned; its other calls are [eval], the module and the progress bar.
    Everything else in a run is a call into the libraries, and the numbers
    the notebook prints are the values [validate] returned. *)
Theorem own_logic_is_Metric_and_validate :
  (forall (E : External) model dev dl verbose integer w r w' evs,
      validate model dev dl verbose integer w = (Ok r, w', evs) ->
      exists bs,
        DataLoader.batches dl = map Ok bs /\
        Metric.avg (Metric.updates (Metric.init "test_acc")
                      (accuracies evs bs)) = Ok r /\
        incl (accuracies evs bs) (items_returned evs bs) /\
        fed evs = map (fun b => feed integer (fst b)) bs /\
        forallb is_validate_event evs = true) /\
  (forall (E : External) perm w g w' evs,
      notebook perm w = (Ok g, w', evs) ->
      exists m0 acc1 acc2 acc3 acc4 ev1 ev2 ev3 ev4,
        evs = script_events g m0 acc1 acc3 acc4 ev1 ev2 ev3 ev4 /\
        tested_on (model g) (valid_loader g) false acc1 ev1 /\
        tested_on (model_fq g) (calib_loader g) false acc2 ev2 /\
        tested_on (model_fq_rounded g) (valid_loader g) false acc3 ev3 /\
        tested_on (model_tq g) (valid_loader g) true acc4 ev4 /\
        printed evs
        = [ ("\n\nFullPrecision accuracy: %.3f", acc1);
            ("\nFakeQuantized with calibration+rounding: accuracy: %.3f", acc3);
            ("\nTrueQuantized: accuracy: %.3f", acc4) ]%string).
Proof.
  split.
  - intros E model dev dl verbose integer w r w' evs Hv.
    destruct (validate_Ok_inv _ _ _ _ _ _ _ _ _ Hv)
      as (bs & st & Hbs & Hfed & Hacc & _ & _ & Hev & Havg).
    exists bs. rewrite <- Hacc.
    repeat split; try assumption.
    + apply accuracies_are_items.
    + eapply fed_spec. exact Hfed.
  - intros E perm w g w' evs Hnb.
    destruct (notebook_Ok_inv _ _ _ _ _ Hnb)
      as (_ & _ & _ & _ & m0 & acc1 & acc2 & acc3 & acc4 & ev1 & ev2 & ev3 & ev4
          & w1 & w1' & w2 & w2' & w3 & w3' & w4 & w4' & b
          & Hv1 & Hv2 & Hv3 & Hv4 & _ & _ & Hevs).
    exists m0, acc1, acc2, acc3, acc4, ev1, ev2, ev3, ev4.
    assert (T1 : tested_on (model g) (valid_loader g) false acc1 ev1)
      by (exists w1, w1'; exact Hv1).
    assert (T2 : tested_on (model_fq g) (calib_loader g) false acc2 ev2)
      by (exists w2, w2'; exact Hv2).
    assert (T3 : tested_on (model_fq_rounded g) (valid_loader g) false acc3 ev3)
      by (exists w3, w3'; exact Hv3).
    assert (T4 : tested_on (model_tq g) (valid_loader g) true acc4 ev4)
      by (exists w4, w4'; exact Hv4).
    repeat split; try assumption.
    rewrite Hevs. apply printed_script_events;
      eapply tested_on_printed; eassumption.
Qed.

Lemma own_logic_is_Metric_and_validate_witness :
  exists g w' evs acc1 acc3 acc4,
    notebook (E := Toy.world) Toy.perm [] = (Ok g, w', evs) /\
    printed evs
    = [ ("\n\nFullPrecision accuracy: %.3f", acc1);
        ("\nFakeQuantized with calibration+rounding: accuracy: %.3f", acc3);
        ("\nTrueQuantized: accuracy: %.3f", acc4) ]%string.
Proof.
  destruct (notebook_returns (E := Toy.world) Toy.perm Toy_run_conditions [])
    as (g & w' & evs & Hnb & _).
  destruct (proj2 own_logic_is_Metric_and_validate Toy.world Toy.perm [] g w' evs Hnb)
    as (m0 & acc1 & acc2 & acc3 & acc4 & ev1 & ev2 & ev3 & ev4 & _ & _ & _ & _ & _ & Hp).
  exists g, w', evs, acc1, acc3, acc4. split; assumption.
Defined.

(** C5, as it is stated, fails: after [update(1); update(0)] a [Metric]
    returns 1/2, a number that was never passed to it, and [validate] returns
    a number that no library call returned. *)
Lemma notebook_has_logic_of_its_own :
  Metric.avg (Metric.updates (Metric.init "test_acc") [1; 0]) = Ok (1 # 2) /\
  ~ (exists v, In v [1; 0] /\ (1 # 2) == v) /\
  ~ Metric_only_delegates /\ ~ validate_only_delegates.
Proof.
  split; [vm_compute; reflexivity|]. split.
  - intros (v & Hin & Hv). cbn in Hin.
    destruct Hin as [<- | [<- | []]]; vm_compute in Hv; discriminate.
  - split;
      [exact Metric_does_not_only_delegate
      | exact validate_does_not_only_delegate].
Qed.

(** ** The values a module receives *)

Section InputValues.
Context {E : External}.

Lemma pixel_range (b : Byte.byte) : (0 <= Torch.pixel b <= 255)%Z.
Proof.
  unfold Torch.pixel. pose proof (Byte.to_N_bounded b) as H. lia.
Qed.

Lemma getitem_image ds : forall i x y,
  getitem ds i = Ok (x, y) -> exists raw, x = Torch.ToTensor raw.
Proof.
  induction ds as [train | ds IH indices]; intros i x y H; cbn in H.
  - destruct (nth_error (mnist_items train) i) as [[raw label]|]; [|discriminate].
    inversion H; subst. eauto.
  - destruct (nth_error indices i) as [j|]; [|discriminate]. eapply IH. exact H.
Qed.

Lemma fetch_images ds idx xs ys :
  DataLoader.fetch ds idx = Ok (xs, ys) ->
  Forall (fun x => exists raw, x = Torch.ToTensor raw) xs.
Proof.
  revert xs ys. induction idx as [|i idx IH]; intros xs ys H; cbn in H.
  - inversion H; subst. constructor.
  - destruct (getitem ds i) as [[x y]|e] eqn:Hi; [|discriminate].
    destruct (DataLoader.fetch ds idx) as [[xs' ys']|e]; [|discriminate].
    inversion H; subst. constructor; [|eapply IH; reflexivity].
    eapply getitem_image. exact Hi.
Qed.

Lemma batches_images dl bs :
  DataLoader.batches dl = map Ok bs ->
  Forall (fun b => Forall (fun x => exists raw, x = Torch.ToTensor raw) (fst b)) bs.
Proof.
  unfold DataLoader.batches. generalize (seq 0 (DataLoader.n_batches dl)).
  intros ks. revert bs. induction ks as [|k ks IH]; intros [|[xs ys] bs] H;
    try discriminate; constructor.
  - cbn in H. inversion H as [[Hk Hks]]. cbn. eapply fetch_images. exact Hk.
  - apply IH. cbn in H. inversion H. reflexivity.
Qed.

Lemma ToTensor_normalised raw : Forall is_normalised (Torch.ToTensor raw).
Proof.
  unfold Torch.ToTensor. apply Forall_forall. intros v Hv.
  apply in_map_iff in Hv. destruct Hv as (b & <- & _).
  exists (Torch.pixel b). split; [apply pixel_range | reflexivity].
Qed.

Lemma ToTensor_times_255_pixel raw :
  Forall is_pixel (map (fun v => v * 255) (Torch.ToTensor raw)).
Proof.
  unfold Torch.ToTensor. rewrite map_map. apply Forall_forall. intros v Hv.
  apply in_map_iff in Hv. destruct Hv as (b & <- & _).
  exists (Torch.pixel b). split; [apply pixel_range | field].
Qed.

End InputValues.


(** ** The pixels in binary32 *)

Example Binary32_round_third :
  Binary32.round (1 # 3) == 11184811 # 33554432.
Proof. vm_compute. reflexivity. Qed.

Example Binary32_round_exact :
  Binary32.round 255 == 255 /\ Binary32.round (1 # 2) == 1 # 2 /\
  Binary32.round (16777217 # 1) == 16777216 # 1 /\
  Binary32.round (16777219 # 1) == 16777220 # 1.
Proof. repeat split. Qed.

(** A pixel [k] becomes [k / 255] rounded to binary32 under [ToTensor]; its
    product with 255, rounded again, is [k] exactly. *)
Lemma integerised_pixel_exact_in_binary32 (b : Byte.byte) :
  Binary32.mul (Binary32.div (inject_Z (Torch.pixel b)) 255) 255
  == inject_Z (Torch.pixel b).
Proof. destruct b; vm_compute; reflexivity. Qed.



(** C7.  Over a non-empty loader, [validate] returns the mean of the
    per-batch accuracies, as [Metric] takes it in Python floats.  When the
    loader drops the last, incomplete batch, all batches have [batch_size]
    examples, and the items after the last full batch have no part in the
    run: any loader that agrees on the items of the full batches gives the
    same run.  When, moreover, [batch_size] is a power of two up to [2 ^ 24],
    as the 128 of both loaders of the notebook is, and no more than [2 ^ 53]
    examples are evaluated, nothing is lost in the accuracies and in their
    sum, and the returned value is the Python float [correct / examples]:
    the number of correct predictions over the number of examples evaluated,
    rounded once.  This is a matter of the batch size: over the small world's
    loader with batches of 100 the returned value is another float. *)
Theorem validate_mean_accuracy :
  (forall (E : External) classes model dev dl verbose integer w,
    classifier classes model ->
    fetchable (DataLoader.dataset dl) ->
    labels_below classes (DataLoader.dataset dl) ->
    (1 <= DataLoader.n_batches dl)%nat ->
    exists bs r w' evs,
      DataLoader.batches dl = map Ok bs /\
      validate model dev dl verbose integer w = (Ok r, w', evs) /\
      length (accuracies evs bs) = DataLoader.n_batches dl /\
      r = Binary64.div (float_sum (accuracies evs bs))
            (Binary64.of_int (Z.of_nat (DataLoader.n_batches dl))) /\
      (DataLoader.drop_last dl = true ->
       let preds := concat (map Torch.argmax_dim1 (outputs evs)) in
       let targets := concat (map snd bs) in
       Forall (fun b => length (snd b) = DataLoader.batch_size dl) bs /\
       length targets
         = (DataLoader.n_batches dl * DataLoader.batch_size dl)%nat /\
       (forall k : Z,
           (0 <= k <= 24)%Z ->
           Z.of_nat (DataLoader.batch_size dl) = (2 ^ k)%Z ->
           (Z.of_nat (length targets) <= 2 ^ 53)%Z ->
           r = Binary64.div
                 (inject_Z (Torch.sum_item (Torch.eq preds targets)))
                 (inject_Z (Z.of_nat (length targets)))) /\
       forall dl',
         DataLoader.drop_last dl' = true ->
         DataLoader.batch_size dl' = DataLoader.batch_size dl ->
         DataLoader.n_batches dl' = DataLoader.n_batches dl ->
         (forall i,
             (i < DataLoader.n_batches dl * DataLoader.batch_size dl)%nat ->
             getitem (DataLoader.dataset dl') i
             = getitem (DataLoader.dataset dl) i) ->
         validate model dev dl' verbose integer w
         = validate model dev dl verbose integer w)) /\
  (forall (E : External) perm w g w' evs,
    notebook perm w = (Ok g, w', evs) ->
    DataLoader.batch_size (calib_loader g) = 128%nat /\
    DataLoader.drop_last (calib_loader g) = true /\
    DataLoader.batch_size (valid_loader g) = 128%nat /\
    DataLoader.drop_last (valid_loader g) = true) /\
  (exists r w' evs,
    validate (E := Toy.world) 0%nat "cpu" Toy_loader true false []
      = (Ok r, w', evs) /\
    DataLoader.batches (E := Toy.world) Toy_loader = map Ok Toy_batches /\
    let preds := concat (map Torch.argmax_dim1 (outputs evs)) in
    let targets := concat (map snd Toy_batches) in
    Torch.sum_item (Torch.eq preds targets) = 61%Z /\
    length targets = 300%nat /\
    ~ r == Binary64.div 61 300).
Proof.
  split; [|split].
  2: { intros E perm w g w' evs Hnb.
       destruct (notebook_Ok_inv _ _ _ _ _ Hnb) as (_ & _ & -> & -> & _).
       repeat split. }
  2: { destruct (validate (E := Toy.world) 0%nat "cpu" Toy_loader true false [])
         as [[r w'] evs] eqn:Hv.
       assert (Hr : r = Ok (7325855207740757 # 36028797018963968)).
       { apply (f_equal (fun x => fst (fst x))) in Hv. vm_compute in Hv. congruence. }
       subst r. eexists _, w', evs. split; [reflexivity|].
       split; [vm_compute; reflexivity|].
       apply (f_equal (fun x => snd x)) in Hv. cbn [snd] in Hv. rewrite <- Hv.
       split; [vm_compute; reflexivity|]. split; [vm_compute; reflexivity|].
       vm_compute. discriminate. }
  intros E classes model dev dl verbose integer w Hm Hf Hl Hn.
  destruct (validate_Ok classes model dev dl verbose integer w Hm Hf Hl Hn)
    as (r & w' & evs & Hv).
  destruct (batches_Ok dl Hf) as (bs & Hbs & HF).
  destruct (validate_Ok_inv _ _ _ _ _ _ _ _ _ Hv)
    as (bs' & st & Hbs' & Hfed & Hacc & _ & Hnll & _ & Havg).
  assert (bs' = bs) as -> by (apply map_Ok_inj; congruence).
  assert (Hlen : length bs = DataLoader.n_batches dl).
  { apply Forall2_length in HF. rewrite length_seq in HF. congruence. }
  assert (Hout : length (outputs evs) = length bs).
  { unfold outputs. rewrite length_map.
    apply (f_equal (@length _)) in Hfed. rewrite !length_map in Hfed. exact Hfed. }
  assert (Haccs : length (accuracies evs bs) = DataLoader.n_batches dl).
  { unfold accuracies. rewrite length_map, length_combine, length_map, Hout. lia. }
  rewrite Hacc in Havg. apply Metric_avg_updates_inv in Havg.
  destruct Havg as (_ & Hr). rewrite Haccs in Hr.
  exists bs, r, w', evs.
  split; [exact Hbs|]. split; [exact Hv|]. split; [exact Haccs|].
  split; [exact Hr|].
  intros Hdrop preds targets.
  assert (Hfull : Forall (fun t => length t = DataLoader.batch_size dl) (map snd bs))
    by (apply full_batches_length; assumption).
  assert (Htargets : length targets
                     = (DataLoader.n_batches dl * DataLoader.batch_size dl)%nat).
  { unfold targets. rewrite (concat_length_equal _ (DataLoader.batch_size dl) Hfull).
    rewrite length_map, Hlen. reflexivity. }
  split; [rewrite <- Forall_map with (f := snd)
            (P := fun t => length t = DataLoader.batch_size dl); exact Hfull|].
  split; [exact Htargets|]. split.
  - intros k Hk Hb Hmax. rewrite Hr, <- Hlen, <- (length_map snd bs).
    unfold accuracies, preds, targets.
    apply mean_of_equal_batches with (k := k).
    + exact Hk.
    + rewrite length_map. lia.
    + clear - Hnll. induction Hnll as [|o t os ts (l & Hot) _ IH]; constructor.
      * eapply nll_loss_Ok_length; eassumption.
      * assumption.
    + eapply Forall_impl; [|exact Hfull]. cbn. intros t ->. exact Hb.
    + exact Hmax.
  - intros dl' Hd' Hb' Hn' Hagree.
    apply validate_ext; [|assumption].
    apply batches_ext; assumption.
Qed.

Lemma validate_mean_accuracy_witness :
  exists bs r w' evs,
    validate (E := Toy.world) 0%nat "cpu" Toy.valid_loader true false []
      = (Ok r, w', evs) /\
    r = Binary64.div (float_sum (accuracies evs bs)) (Binary64.of_int 2) /\
    r = Binary64.div
          (inject_Z (Torch.sum_item
                       (Torch.eq (concat (map Torch.argmax_dim1 (outputs evs)))
                                 (concat (map snd bs)))))
          (inject_Z 256).
Proof.
  assert (Hn : DataLoader.n_batches (E := Toy.world) Toy.valid_loader = 2%nat).
  { unfold DataLoader.n_batches, Toy.valid_loader.
    cbn [DataLoader.dataset DataLoader.drop_last DataLoader.batch_size].
    rewrite Toy_len. reflexivity. }
  destruct (proj1 validate_mean_accuracy Toy.world 10%nat 0%nat "cpu"%string
              Toy.valid_loader true false []
              (Toy_classifier 0%nat)
              (fetchable_MNIST false)
              (labels_below_MNIST false (Toy_labels false))
              ltac:(rewrite Hn; lia))
    as (bs & r & w' & evs & _ & H1 & _ & H2 & H3).
  destruct (H3 eq_refl) as (_ & H4 & H5 & _).
  exists bs, r, w', evs. rewrite Hn in H2, H4.
  split; [exact H1|]. split; [exact H2|].
  rewrite H4 in H5. apply (H5 7%Z); [lia | reflexivity | cbn; lia].
Defined.

(** * More of the notebook *)

(** ** The shapes [ExampleNet] accepts *)

Lemma conv_out_same (n : nat) :
  Shapes.conv_out n 3 1 1 = if (1 <=? n)%nat then Some n else None.
Proof.
  unfold Shapes.conv_out. destruct n as [|n]; [reflexivity|].
  replace (3 <=? S n + 2 * 1)%nat with true by (symmetry; apply Nat.leb_le; lia).
  cbn [andb Nat.leb]. f_equal. rewrite Nat.div_1_r. lia.
Qed.

Lemma conv_out_half (n : nat) :
  Shapes.conv_out n 3 1 2
  = if (1 <=? n)%nat then Some ((n + 1) / 2)%nat else None.
Proof.
  unfold Shapes.conv_out. destruct n as [|n]; [reflexivity|].
  replace (3 <=? S n + 2 * 1)%nat with true by (symmetry; apply Nat.leb_le; lia).
  cbn [andb Nat.leb]. f_equal.
  replace (S n + 2 * 1 - 3)%nat with n by lia.
  replace (S n + 1)%nat with (n + 1 * 2)%nat by lia.
  rewrite Nat.div_add by lia. reflexivity.
Qed.

Lemma half_pos (n : nat) : (1 <= n -> 1 <= (n + 1) / 2)%nat.
Proof. intros H. apply Nat.div_le_lower_bound; lia. Qed.

Lemma half_thrice (n : nat) : ((((n + 1) / 2 + 1) / 2 + 1) / 2 = (n + 7) / 8)%nat.
Proof.
  replace ((n + 1) / 2 + 1)%nat with ((n + 1 + 1 * 2) / 2)%nat
    by (rewrite Nat.div_add by lia; reflexivity).
  rewrite Nat.Div0.div_div.
  replace ((n + 1 + 1 * 2) / (2 * 2) + 1)%nat with ((n + 3 + 1 * 4) / 4)%nat
    by (rewrite Nat.div_add by lia; f_equal; f_equal; lia).
  rewrite Nat.Div0.div_div. f_equal. lia.
Qed.

(** The shape after [relu4], for an image with one channel. *)
Lemma ExampleNet_shape_spec (c h w : nat) :
  ExampleNet_shape (CHW c h w)
  = if ((c =? 1) && (1 <=? h) && (1 <=? w)
        && (80 * ((h + 7) / 8) * ((w + 7) / 8) =? 80 * 4 ^ 2))%nat
    then Some (Flat 10) else None.
Proof.
  unfold ExampleNet_shape, ExampleNet_forward, Shapes.run.
  cbn [Shapes.step Shapes.attribute ExampleNet String.eqb Ascii.eqb Bool.eqb].
  unfold Shapes.layer at 1.
  destruct (Nat.eqb_spec c 1) as [->|Hc]; [|reflexivity].
  rewrite !conv_out_same.
  destruct (Nat.leb_spec 1 h) as [Hh|Hh]; [|reflexivity].
  destruct (Nat.leb_spec 1 w) as [Hw|Hw]; [|reflexivity].
  cbn [Shapes.layer Nat.eqb andb].
  rewrite !conv_out_half.
  pose proof (half_pos h Hh) as Hh2. pose proof (half_pos w Hw) as Hw2.
  pose proof (half_pos _ Hh2) as Hh3. pose proof (half_pos _ Hw2) as Hw3.
  repeat match goal with
         | H : (1 <= ?n)%nat |- context [(1 <=? ?n)%nat] =>
             replace (1 <=? n)%nat with true by (symmetry; apply Nat.leb_le; exact H)
         end.
  cbn [Shapes.layer Nat.eqb andb].
  rewrite !conv_out_half.
  repeat match goal with
         | H : (1 <= ?n)%nat |- context [(1 <=? ?n)%nat] =>
             replace (1 <=? n)%nat with true by (symmetry; apply Nat.leb_le; exact H)
         end.
  cbn [Shapes.layer Nat.eqb andb].
  rewrite !conv_out_half.
  repeat match goal with
         | H : (1 <= ?n)%nat |- context [(1 <=? ?n)%nat] =>
             replace (1 <=? n)%nat with true by (symmetry; apply Nat.leb_le; exact H)
         end.
  cbn [Shapes.layer Nat.eqb andb].
  rewrite !half_thrice.
  destruct (80 * ((h + 7) / 8) * ((w + 7) / 8) =? 80 * 4 ^ 2)%nat; reflexivity.
Qed.

(** X1.  [ExampleNet] accepts an example exactly when it has one channel and
    its height and width, each divided by 8 and rounded up, multiply to 16,
    the 4 x 4 map that [fc1] is declared for; the result then has 10
    features.  Among square images these are the sizes 25 to 32, MNIST's 28
    among them; a flat vector is rejected. *)
Theorem ExampleNet_accepted_shapes :
  (forall s s', ExampleNet_shape s = Some s' -> s' = Flat 10) /\
  (forall s,
      ExampleNet_shape s = Some (Flat 10) <->
      exists h w, s = CHW 1 h w /\ ((h + 7) / 8 * ((w + 7) / 8) = 16)%nat) /\
  (forall n,
      ExampleNet_shape (CHW 1 n n) = Some (Flat 10) <-> (25 <= n <= 32)%nat).
Proof.
  assert (Hiff : forall s,
      ExampleNet_shape s = Some (Flat 10) <->
      exists h w, s = CHW 1 h w /\ ((h + 7) / 8 * ((w + 7) / 8) = 16)%nat).
  { intros [c h w|n]; [|split; [discriminate | intros (h & w & H & _); discriminate]].
    rewrite ExampleNet_shape_spec. split.
    - destruct (Nat.eqb_spec c 1) as [->|]; [|discriminate].
      destruct (1 <=? h)%nat; [|discriminate].
      destruct (1 <=? w)%nat; [|discriminate]. cbn [andb].
      destruct (Nat.eqb_spec (80 * ((h + 7) / 8) * ((w + 7) / 8)) (80 * 4 ^ 2))
        as [He|]; [|discriminate].
      intros _. exists h, w. split; [reflexivity|].
      change (80 * 4 ^ 2)%nat with (80 * 16)%nat in He.
      rewrite <- Nat.mul_assoc in He. apply Nat.mul_cancel_l in He; [exact He | lia].
    - intros (h' & w' & Hs & He). inversion Hs; subst h' w' c.
      assert (Hh : (1 <= h)%nat).
      { destruct h; [|lia]. cbn in He. discriminate. }
      assert (Hw : (1 <= w)%nat).
      { destruct w; [|lia]. cbn [Nat.add] in He.
        replace (7 / 8)%nat with 0%nat in He by reflexivity. lia. }
      apply Nat.leb_le in Hh, Hw. rewrite Hh, Hw. cbn [Nat.eqb andb].
      replace (80 * ((h + 7) / 8) * ((w + 7) / 8))%nat with (80 * 4 ^ 2)%nat
        by (rewrite <- Nat.mul_assoc, He; reflexivity).
      rewrite Nat.eqb_refl. reflexivity. }
  split; [|split; [exact Hiff|]].
  - intros [c h w|n] s'; [|discriminate].
    rewrite ExampleNet_shape_spec.
    destruct (_ && _)%bool; [|discriminate]. intros H. inversion H. reflexivity.
  - intros n. rewrite Hiff. split.
    + intros (h & w & Hs & He). inversion Hs; subst h w.
      assert (Hq : ((n + 7) / 8 = 4)%nat) by nia.
      pose proof (Nat.div_mod_eq (n + 7) 8) as Hd.
      pose proof (Nat.mod_upper_bound (n + 7) 8 ltac:(lia)) as Hm. lia.
    + intros Hn. exists n, n. split; [reflexivity|].
      assert (Hq : ((n + 7) / 8 = 4)%nat).
      { symmetry. apply (Nat.div_unique (n + 7) 8 4 (n + 7 - 32)); lia. }
      rewrite Hq. reflexivity.
Qed.

Lemma ExampleNet_accepted_shapes_witness :
  ExampleNet_shape (CHW 1 28 28) = Some (Flat 10).
Proof.
  apply (proj2 (proj2 (proj2 ExampleNet_accepted_shapes) 28%nat)). lia.
Defined.

(** ** Bounds on the averages *)

(** Counting in Python floats: what [k] updates with values of at most 1
    can add up to. *)
Lemma fold_add_unit (vs : list Q) : forall (s : Q) (j : Z),
  Forall (fun v => 0 <= v <= 1) vs ->
  (0 <= j)%Z -> 0 <= s -> s <= inject_Z (Z.min j (2 ^ 53)) ->
  0 <= fold_left Binary64.add vs s /\
  fold_left Binary64.add vs s
  <= inject_Z (Z.min (j + Z.of_nat (length vs)) (2 ^ 53)).
Proof.
  induction vs as [|v vs IH]; intros s j Hvs Hj H0 Hs.
  - cbn. rewrite Z.add_0_r. split; assumption.
  - inversion Hvs as [|v' vs' (Hv0 & Hv1) Hvs']; subst.
    cbn [fold_left length]. rewrite Nat2Z.inj_succ.
    replace (j + Z.succ (Z.of_nat (length vs)))%Z
      with (j + 1 + Z.of_nat (length vs))%Z by lia.
    apply IH; [exact Hvs' | lia | |].
    + apply Binary64_round_lb; [apply (format_Z 53 0); cbn; lia|].
      rewrite <- (Qplus_0_r 0). apply Qplus_le_compat; assumption.
    + unfold Binary64.add.
      assert (Hsv : s + v <= inject_Z (Z.min j (2 ^ 53)) + 1)
        by (apply Qplus_le_compat; assumption).
      destruct (Z_le_gt_dec (j + 1) (2 ^ 53)) as [Hsmall|Hbig].
      * rewrite Z.min_l in Hsv |- * by lia.
        apply Binary64_round_ub; [apply format_Z; lia|].
        rewrite inject_Z_plus. exact Hsv.
      * rewrite Z.min_r in Hsv |- * by lia.
        apply Binary64_round_saturates. exact Hsv.
Qed.

(** The average of values between 0 and 1 lies between 0 and 1, however
    many they are. *)
Lemma Metric_avg_unit (name : string) (vs : list Q) (r : Q) :
  Forall (fun v => 0 <= v <= 1) vs ->
  Metric.avg (Metric.updates (Metric.init name) vs) = Ok r ->
  0 <= r <= 1.
Proof.
  intros Hvs Havg. apply Metric_avg_updates_inv in Havg.
  destruct Havg as (Hk & ->).
  destruct (fold_add_unit vs 0 0%Z Hvs) as (H0 & H1);
    [lia | apply Qle_refl | apply Qle_refl |].
  fold (float_sum vs) in H0, H1. rewrite Z.add_0_l in H1.
  set (k := Z.of_nat (length vs)) in *.
  assert (Hpos : 0 < Binary64.of_int k) by (apply Binary64_of_int_pos; lia).
  assert (Hge : inject_Z (Z.min k (2 ^ 53)) <= Binary64.of_int k)
    by (apply Binary64_of_int_ge; lia).
  unfold Binary64.div. apply Binary64_round_unit. split.
  - apply Qle_shift_div_l; [exact Hpos|]. rewrite Qmult_0_l. exact H0.
  - apply Qle_shift_div_r; [exact Hpos|]. rewrite Qmult_1_l.
    eapply Qle_trans; eassumption.
Qed.

(** Sums of values between two ints, as long as the ints of the bounds are
    Python floats. *)
Lemma fold_add_between (lo hi : Z) (vs : list Q) : forall (s : Q) (j : Z),
  Forall (fun v => inject_Z lo <= v <= inject_Z hi) vs ->
  (0 <= j)%Z ->
  ((j + Z.of_nat (length vs)) * Z.max (Z.abs lo) (Z.abs hi) <= 2 ^ 53)%Z ->
  inject_Z (j * lo) <= s -> s <= inject_Z (j * hi) ->
  inject_Z ((j + Z.of_nat (length vs)) * lo) <= fold_left Binary64.add vs s /\
  fold_left Binary64.add vs s <= inject_Z ((j + Z.of_nat (length vs)) * hi).
Proof.
  induction vs as [|v vs IH]; intros s j Hvs Hj Hmax Hlo Hhi.
  - cbn. rewrite Z.add_0_r. split; assumption.
  - inversion Hvs as [|v' vs' (Hv0 & Hv1) Hvs']; subst.
    cbn [fold_left length] in *. rewrite Nat2Z.inj_succ in *.
    replace (j + Z.succ (Z.of_nat (length vs)))%Z
      with (j + 1 + Z.of_nat (length vs))%Z in * by lia.
    assert (Hk : (0 <= Z.of_nat (length vs))%Z) by lia.
    apply IH; [exact Hvs' | lia | exact Hmax | |].
    + apply Binary64_round_lb; [apply format_Z; nia|].
      replace ((j + 1) * lo)%Z with (j * lo + lo)%Z by lia.
      rewrite inject_Z_plus. apply Qplus_le_compat; assumption.
    + apply Binary64_round_ub; [apply format_Z; nia|].
      replace ((j + 1) * hi)%Z with (j * hi + hi)%Z by lia.
      rewrite inject_Z_plus. apply Qplus_le_compat; assumption.
Qed.

(** X2.  The average a [Metric] returns lies between two ints that bound the
    values it was updated with, as long as the number of updates times the
    bounds stays within [2 ^ 53], where every int is a Python float.  Other
    bounds can be crossed: after three updates with the float 0.1 the
    average is above it. *)
Theorem Metric_avg_between :
  (forall (name : string) (vs : list Q) (lo hi : Z) (r : Q),
      Forall (fun v => inject_Z lo <= v <= inject_Z hi) vs ->
      (Z.of_nat (length vs) * Z.max 1 (Z.max (Z.abs lo) (Z.abs hi)) <= 2 ^ 53)%Z ->
      Metric.avg (Metric.updates (Metric.init name) vs) = Ok r ->
      inject_Z lo <= r <= inject_Z hi) /\
  (let tenth := Binary64.round (1 # 10) in
   exists r,
     Metric.avg (Metric.updates (Metric.init "test_acc") [tenth; tenth; tenth])
     = Ok r /\
     tenth < r).
Proof.
  split.
  2: { cbv zeta. eexists. split; [vm_compute; reflexivity | reflexivity]. }
  intros name vs lo hi r Hvs Hmax Havg.
  apply Metric_avg_updates_inv in Havg. destruct Havg as (Hk & ->).
  set (k := Z.of_nat (length vs)) in *.
  assert (Hk1 : (1 <= k)%Z) by (unfold k; lia).
  destruct (fold_add_between lo hi vs 0 0%Z Hvs) as (H0 & H1);
    [lia | fold k; nia | apply Qle_refl | apply Qle_refl |].
  fold (float_sum vs) in H0, H1. fold k in H0, H1. rewrite Z.add_0_l in H0, H1.
  assert (Hkk : Binary64.of_int k == inject_Z k)
    by (apply Binary64_of_int_exact; nia).
  assert (Hpos : 0 < Binary64.of_int k) by (apply Binary64_of_int_pos; lia).
  unfold Binary64.div. split.
  - apply Binary64_round_lb; [apply format_Z; nia|].
    apply Qle_shift_div_l; [exact Hpos|].
    rewrite Hkk, <- inject_Z_mult, Z.mul_comm. exact H0.
  - apply Binary64_round_ub; [apply format_Z; nia|].
    apply Qle_shift_div_r; [exact Hpos|].
    rewrite Hkk, <- inject_Z_mult, Z.mul_comm. exact H1.
Qed.

Lemma Metric_avg_between_witness :
  exists r,
    Metric.avg (Metric.updates (Metric.init "test_acc") [1; 0; 1; 1]) = Ok r /\
    0 <= r <= 1.
Proof.
  destruct (Metric.avg (Metric.updates (Metric.init "test_acc") [1; 0; 1; 1]))
    as [r|e] eqn:Havg; [|vm_compute in Havg; discriminate].
  exists r. split; [reflexivity|].
  apply (proj1 Metric_avg_between "test_acc"%string [1; 0; 1; 1] 0%Z 1%Z r).
  - repeat constructor; discriminate.
  - vm_compute. discriminate.
  - exact Havg.
Defined.

Lemma batch_accuracy_unit (output : list (list Q)) (target : list nat) :
  0 <= batch_accuracy output target <= 1.
Proof.
  unfold batch_accuracy, Torch.float_mean_item, Binary32.div.
  apply Binary32_round_unit.
  set (bs := Torch.eq (Torch.argmax_dim1 output) target).
  pose proof (sum_item_bounds bs) as Hb.
  destruct (length bs) as [|k] eqn:Hk.
  - assert (Hc : Torch.sum_item bs = 0%Z) by lia.
    rewrite Hc. cbn. split; discriminate.
  - assert (Hpos : 0 < inject_Z (Z.of_nat (S k))) by (apply inject_Z_pos; lia).
    split.
    + apply Qle_shift_div_l; [exact Hpos|]. rewrite Qmult_0_l.
      replace 0 with (inject_Z 0) by reflexivity. rewrite <- Zle_Qle. lia.
    + apply Qle_shift_div_r; [exact Hpos|]. rewrite Qmult_1_l.
      rewrite <- Zle_Qle. lia.
Qed.

Lemma accuracies_unit {E : External} (evs : list Event)
    (bs : list (list Image * list nat)) :
  Forall (fun v => 0 <= v <= 1) (accuracies evs bs).
Proof.
  unfold accuracies. apply Forall_forall. intros v Hv.
  apply in_map_iff in Hv. destruct Hv as (ot & <- & _).
  apply batch_accuracy_unit.
Qed.

(** X3.  Whatever the module returns, a value that [validate] returns is an
    accuracy: it lies between 0 and 1. *)
Theorem validate_between_0_and_1 {E : External}
    model dev dl verbose integer w r w' evs :
  validate model dev dl verbose integer w = (Ok r, w', evs) ->
  0 <= r <= 1.
Proof.
  intros Hv. apply validate_Ok_inv in Hv.
  destruct Hv as (bs & st & _ & _ & Hacc & _ & _ & _ & Havg).
  rewrite Hacc in Havg.
  exact (Metric_avg_unit _ _ _ (accuracies_unit evs bs) Havg).
Qed.

Lemma validate_between_0_and_1_witness :
  exists r, fst (fst (validate (E := Toy.world) 0%nat "cpu" Toy_loader
                        true false [])) = Ok r /\ 0 <= r <= 1.
Proof.
  destruct (validate (E := Toy.world) 0%nat "cpu" Toy_loader true false [])
    as [[[r|e] w'] evs] eqn:Hv.
  - exists r. split; [reflexivity|].
    exact (validate_between_0_and_1 _ _ _ _ _ _ _ _ _ Hv).
  - apply (f_equal (fun x => fst (fst x))) in Hv. vm_compute in Hv. discriminate.
Defined.

(** ** [validate] on a loader without a batch *)

(** X4.  On an empty dataset, or on one smaller than a batch when the last
    batch is dropped, [validate] raises [ZeroDivisionError]; the module has
    been put in evaluation mode and was never called. *)
Theorem validate_without_batch {E : External} model dev dl verbose integer w :
  len (DataLoader.dataset dl) = 0%nat \/
  (DataLoader.drop_last dl = true /\
   (len (DataLoader.dataset dl) < DataLoader.batch_size dl)%nat) ->
  validate model dev dl verbose integer w
  = (Raise ZeroDivisionError, module_eval model w, [EvEval model]).
Proof.
  intros H.
  assert (Hn : DataLoader.n_batches dl = 0%nat).
  { unfold DataLoader.n_batches. destruct H as [H0 | (Hd & Hlt)].
    - rewrite H0. destruct (DataLoader.drop_last dl).
      + apply Nat.Div0.div_0_l.
      + destruct (DataLoader.batch_size dl) as [|b]; [reflexivity|].
        apply Nat.div_small. lia.
    - rewrite Hd. apply Nat.div_small. exact Hlt. }
  unfold validate, validate_loop, DataLoader.batches. rewrite Hn.
  unfold bind, call, lift, truediv. cbn.
  destruct (Z.of_nat (len (DataLoader.dataset dl)) =? 0)%Z; reflexivity.
Qed.

Lemma validate_without_batch_witness :
  validate (E := Toy.world) 0%nat "cpu" (DataLoader.Build (MNIST false) 500 true)
    true false []
  = (Raise ZeroDivisionError, [], [EvEval 0%nat]).
Proof.
  apply (validate_without_batch (E := Toy.world)). right.
  split; [reflexivity|]. cbn [DataLoader.dataset DataLoader.batch_size].
  rewrite Toy_len. lia.
Defined.

(** ** [verbose] *)

Section Verbose.
Context {E : External}.

Lemma without_postfix_app (e1 e2 : list Event) :
  without_postfix (e1 ++ e2) = without_postfix e1 ++ without_postfix e2.
Proof. apply filter_app. Qed.

Lemma quieter_bind {A B} (m m' : M A) (f f' : A -> M B) :
  quieter m m' -> (forall a, quieter (f a) (f' a)) ->
  quieter (bind m f) (bind m' f').
Proof.
  intros Hm Hf w. unfold bind. rewrite (Hm w).
  destruct (m w) as [[[a|e] w1] e1]; cbn [fst snd]; [|reflexivity].
  rewrite (Hf a w1). destruct (f a w1) as [[r w2] e2]. cbn [fst snd].
  rewrite without_postfix_app. reflexivity.
Qed.

Lemma quieter_refl_no_postfix {A} (m : M A) :
  (forall w, without_postfix (snd (m w)) = snd (m w)) -> quieter m m.
Proof.
  intros H w. rewrite H. destruct (m w) as [[r w1] e1]. reflexivity.
Qed.

Lemma quieter_validate_step model integer st rb :
  quieter (validate_step model true integer st rb)
          (validate_step model false integer st rb).
Proof.
  intros w. unfold validate_step, bind, lift, call, ret, emit.
  destruct rb as [[data target]|e]; [|reflexivity]. cbn [fst snd].
  destruct (forward model _ w) as [output w1]. cbn [fst snd].
  destruct (Torch.nll_loss_sum_item output target) as [l|e]; [|reflexivity].
  destruct (Metric.avg _) as [a|e]; reflexivity.
Qed.

Lemma quieter_for_each model integer rs : forall st,
  quieter (for_each rs (validate_step model true integer) st)
          (for_each rs (validate_step model false integer) st).
Proof.
  induction rs as [|rb rs IH]; intros st.
  - intros w. reflexivity.
  - cbn [for_each]. apply quieter_bind; [apply quieter_validate_step | exact IH].
Qed.

Lemma postfixes_without_postfix (evs : list Event) :
  postfixes (without_postfix evs) = [].
Proof.
  induction evs as [|e evs IH]; [reflexivity|].
  destruct e; cbn; try exact IH.
Qed.

End Verbose.

(** X5.  [verbose] only decides whether the progress bar shows anything:
    without it [validate] returns the same value or raises the same
    exception, leaves the libraries in the same state and makes the same
    calls. *)
Theorem verbose_only_changes_the_display {E : External}
    model dev dl integer w :
  validate model dev dl false integer w
  = (fst (fst (validate model dev dl true integer w)),
     snd (fst (validate model dev dl true integer w)),
     without_postfix (snd (validate model dev dl true integer w))) /\
  postfixes (snd (validate model dev dl false integer w)) = [].
Proof.
  assert (H : quieter (validate model dev dl true integer)
                      (validate model dev dl false integer)).
  { unfold validate, validate_loop.
    apply quieter_bind.
    - apply quieter_bind.
      + apply quieter_refl_no_postfix. intros w0. reflexivity.
      + intros _. apply quieter_for_each.
    - intros st. apply quieter_refl_no_postfix. intros w0.
      unfold bind, lift.
      destruct (truediv _ _); [destruct (Metric.avg _)|]; reflexivity. }
  split; [apply H|]. rewrite (H w). apply postfixes_without_postfix.
Qed.

(** ** What the progress bar shows *)

Section ProgressBar.
Context {E : External}.

Lemma postfixes_app (e1 e2 : list Event) :
  postfixes (e1 ++ e2) = postfixes e1 ++ postfixes e2.
Proof. apply flat_map_app. Qed.

Lemma last_map {A B} (f : A -> B) (l : list A) (d : A) :
  last (map f l) (f d) = f (last l d).
Proof.
  induction l as [|a l IH]; [reflexivity|].
  destruct l as [|b l]; [reflexivity|]. exact IH.
Qed.

(** After each batch the bar shows the average so far. *)
Lemma for_each_postfixes model integer rs : forall st w st' w' evs bs,
  for_each rs (validate_step model true integer) st w = (Ok st', w', evs) ->
  rs = map Ok bs ->
  map Ok (postfixes evs)
  = map (fun k => Metric.avg
                    (Metric.updates (acc st)
                       (firstn k (map (fun ot => batch_accuracy (fst ot) (snd ot))
                                      (combine (outputs evs) (map snd bs))))))
        (seq 1 (length bs)).
Proof.
  induction rs as [|rb rs IH]; intros st w st' w' evs bs H Hbs.
  - destruct bs; [|discriminate]. cbn in H. apply ret_inv in H.
    destruct H as (_ & _ & ->). reflexivity.
  - destruct bs as [|[data target] bs]; [discriminate|].
    cbn [map] in Hbs. inversion Hbs as [[Hrb Hrs]]. subst rb.
    cbn [for_each] in H.
    apply bind_Ok_inv in H. destruct H as (st1 & w1 & e1 & e2 & H1 & H2 & ->).
    apply validate_step_inv in H1.
    destruct H1 as (data' & target' & output & l & a & Heq & _ & _ & _ & _
                    & Ha & Havg & ->).
    inversion Heq; subst data' target'.
    specialize (IH st1 w1 st' w' e2 bs H2 Hrs).
    cbn [app postfixes flat_map map length seq].
    fold (postfixes e2). unfold outputs in *.
    cbn [forward_calls flat_map app map combine fst snd firstn].
    fold (forward_calls e2).
    rewrite IH, Ha. f_equal.
    + cbn. rewrite <- Ha. symmetry. exact Havg.
    + rewrite <- (seq_shift (length bs) 1), map_map. reflexivity.
Qed.

End ProgressBar.

(** X6.  With the progress bar on, [validate] shows one value per batch, the
    average of the accuracies of the batches so far, and the last value
    shown is the value it returns. *)
Theorem progress_bar_shows_running_average {E : External}
    model dev dl integer w r w' evs :
  validate model dev dl true integer w = (Ok r, w', evs) ->
  exists bs,
    DataLoader.batches dl = map Ok bs /\
    length (postfixes evs) = DataLoader.n_batches dl /\
    map Ok (postfixes evs)
    = map (fun k => Metric.avg
                      (Metric.updates (Metric.init "test_acc")
                         (firstn k (accuracies evs bs))))
          (seq 1 (DataLoader.n_batches dl)) /\
    last (postfixes evs) 0 = r.
Proof.
  intros Hv.
  destruct (validate_Ok_inv _ _ _ _ _ _ _ _ _ Hv)
    as (bs & st & Hbs & Hfed & Hacc & _ & _ & _ & Havg).
  assert (Hlen : length bs = DataLoader.n_batches dl).
  { apply (f_equal (@length _)) in Hbs. unfold DataLoader.batches in Hbs.
    rewrite !length_map, length_seq in Hbs. congruence. }
  assert (Hout : length (outputs evs) = length bs).
  { unfold outputs. rewrite length_map.
    apply (f_equal (@length _)) in Hfed. rewrite !length_map in Hfed. exact Hfed. }
  assert (Hpost : map Ok (postfixes evs)
    = map (fun k => Metric.avg
                      (Metric.updates (Metric.init "test_acc")
                         (firstn k (accuracies evs bs))))
          (seq 1 (length bs))).
  { unfold validate, validate_loop in Hv.
    apply bind_Ok_inv in Hv. destruct Hv as (st0 & w1 & e1 & e2 & H1 & H2 & ->).
    apply bind_Ok_inv in H2. destruct H2 as (q & w3 & e5 & e6 & H4 & H5 & ->).
    apply lift_inv in H4. destruct H4 as (_ & _ & ->).
    apply lift_inv in H5. destruct H5 as (_ & _ & ->).
    apply bind_Ok_inv in H1. destruct H1 as ([] & w2 & e3 & e4 & H3 & H1 & ->).
    apply call_inv in H3. destruct H3 as (_ & _ & ->).
    rewrite !app_nil_r.
    pose proof (for_each_postfixes _ _ _ _ _ _ _ _ bs H1 Hbs) as Hp.
    exact Hp. }
  exists bs. split; [exact Hbs|].
  split.
  { apply (f_equal (@length _)) in Hpost.
    rewrite !length_map, length_seq in Hpost. congruence. }
  split; [rewrite <- Hlen; exact Hpost|].
  rewrite Hacc in Havg.
  destruct (Metric_avg_updates_inv _ _ _ Havg) as (Hk & _).
  assert (Hn : (1 <= length bs)%nat).
  { unfold accuracies in Hk. rewrite length_map, length_combine, length_map in Hk. lia. }
  apply (f_equal (fun l => last l (Ok 0))) in Hpost.
  rewrite last_map in Hpost.
  replace (length bs) with (S (length bs - 1)) in Hpost by lia.
  rewrite seq_S, map_app in Hpost. cbn [map] in Hpost.
  rewrite last_last in Hpost.
  replace (1 + (length bs - 1))%nat with (length bs) in Hpost by lia.
  rewrite firstn_all2 in Hpost.
  - rewrite Havg in Hpost. inversion Hpost. reflexivity.
  - unfold accuracies. rewrite length_map, length_combine, length_map. lia.
Qed.

Lemma progress_bar_shows_running_average_witness :
  exists r evs,
    validate (E := Toy.world) 0%nat "cpu" Toy_loader true false []
    = (Ok r, snd (fst (validate (E := Toy.world) 0%nat "cpu" Toy_loader
                         true false [])), evs) /\
    length (postfixes evs) = 3%nat /\ last (postfixes evs) 0 = r.
Proof.
  destruct (validate (E := Toy.world) 0%nat "cpu" Toy_loader true false [])
    as [[[r|e] w'] evs] eqn:Hv.
  - exists r, evs. split; [reflexivity|].
    destruct (progress_bar_shows_running_average _ _ _ _ _ _ _ _ Hv)
      as (bs & _ & Hn & _ & Hl).
    split; [|exact Hl]. rewrite Hn. vm_compute. reflexivity.
  - apply (f_equal (fun x => fst (fst x))) in Hv. vm_compute in Hv. discriminate.
Defined.

(** X7.  What [validate] hands to the module, over any loader: with
    [integer] set, non-negative integers, the pixels 0 to 255 of the files;
    without it, the values [k / 255] that [ToTensor] made of them. *)
Theorem integer_switch_gives_pixels {E : External} m dl integer acc ev :
  tested_on m dl integer acc ev ->
  Forall (Forall (Forall (if integer then is_pixel else is_normalised)))
         (fed ev).
Proof.
  intros T. pose proof T as (w & w' & Hv).
  destruct (validate_Ok_inv _ _ _ _ _ _ _ _ _ Hv) as (bs & st & Hbs & _).
  pose proof (tested_on_fed _ _ _ _ _ _ T Hbs) as Hfed.
  apply fed_spec in Hfed. rewrite Hfed.
  pose proof (batches_images dl bs Hbs) as Himg.
  clear - Himg. induction Himg as [|[xs ys] bs Hb _ IH]; cbn [map];
    constructor; [|exact IH].
  cbn [fst] in *. unfold feed, Torch.mul_scalar. destruct integer.
  - rewrite Forall_map. eapply Forall_impl; [|exact Hb].
    intros x (raw & ->). apply ToTensor_times_255_pixel.
  - eapply Forall_impl; [|exact Hb].
    intros x (raw & ->). apply ToTensor_normalised.
Qed.

Lemma integer_switch_gives_pixels_witness :
  exists acc ev,
    tested_on (E := Toy.world) 0%nat Toy_loader true acc ev /\
    Forall (Forall (Forall is_pixel)) (fed ev).
Proof.
  destruct (validate (E := Toy.world) 0%nat "cpu" Toy_loader true true [])
    as [[[r|e] w'] evs] eqn:Hv.
  - assert (T : tested_on (E := Toy.world) 0%nat Toy_loader true r evs)
      by (exists [], w'; exact Hv).
    exists r, evs. split; [exact T|].
    exact (integer_switch_gives_pixels _ _ _ _ _ T).
  - apply (f_equal (fun x => fst (fst x))) in Hv. vm_compute in Hv. discriminate.
Defined.

(** X8.  In binary32, the arithmetic of the tensors, nothing is lost on the
    way: [ToTensor] rounds [k / 255], [data *= 255] rounds the product, and
    the result is the pixel [k] again, for every image. *)
Theorem float32_integerisation_exact (raw : list Byte.byte) :
  Forall2 Qeq
    (map (fun v => Binary32.mul v 255)
         (map (fun b => Binary32.div (inject_Z (Torch.pixel b)) 255) raw))
    (map (fun b => inject_Z (Torch.pixel b)) raw) /\
  Forall (fun b => 0 <= Binary32.div (inject_Z (Torch.pixel b)) 255 <= 1) raw.
Proof.
  split.
  - induction raw as [|b raw IH]; cbn [map]; constructor; [|exact IH].
    apply integerised_pixel_exact_in_binary32.
  - apply Forall_forall. intros b _. destruct b; vm_compute; split; discriminate.
Qed.

(** ** How often the modules are called *)

Section Calls.
Context {E : External}.

Lemma full_batches_images dl bs :
  DataLoader.drop_last dl = true ->
  Forall2 (fun k b => DataLoader.fetch (DataLoader.dataset dl)
                        (DataLoader.batch_indices dl k) = Ok b)
          (seq 0 (DataLoader.n_batches dl)) bs ->
  Forall (fun b => length (fst b) = DataLoader.batch_size dl) bs.
Proof.
  intros Hd HF.
  assert (Hks : Forall (fun k => (k < DataLoader.n_batches dl)%nat)
                       (seq 0 (DataLoader.n_batches dl))).
  { apply Forall_forall. intros k Hk. apply in_seq in Hk. lia. }
  revert Hks. induction HF as [|k [xs ys] ks bs Hk _ IH]; intros Hks.
  - constructor.
  - inversion Hks; subst. constructor; [|auto].
    rewrite drop_last_batch_indices in Hk by assumption.
    apply fetch_Ok_inv in Hk. destruct Hk as (_ & Hx & _).
    cbn. rewrite Hx. apply length_seq.
Qed.

(** A run of [validate] over a loader that drops the last batch calls the
    module once per full batch. *)
Lemma tested_on_calls m dl integer acc ev :
  tested_on m dl integer acc ev ->
  fetchable (DataLoader.dataset dl) ->
  DataLoader.drop_last dl = true ->
  length (fed ev) = DataLoader.n_batches dl /\
  Forall (fun data => length data = DataLoader.batch_size dl) (fed ev).
Proof.
  intros T Hf Hd.
  destruct (batches_Ok dl Hf) as (bs & Hbs & HF).
  pose proof (tested_on_fed _ _ _ _ _ _ T Hbs) as Hfed.
  apply fed_spec in Hfed. rewrite Hfed, length_map. split.
  - apply Forall2_length in HF. rewrite length_seq in HF. congruence.
  - rewrite Forall_map.
    eapply Forall_impl; [|exact (full_batches_images dl bs Hd HF)].
    intros [xs ys] Hb. cbn [fst] in *. rewrite feed_length. exact Hb.
Qed.

End Calls.

(** X9.  In a run of the notebook the calibration pass calls the network 8
    times and each of the three tests calls it once per full batch of the
    test split, [len(valid_set) // 128] times, always on 128 images; these
    are the totals the progress bars count to. *)
Theorem module_calls_of_a_run {E : External} (perm : list nat) (w : W) :
  run_conditions perm ->
  exists g w' evs m0 acc1 acc2 acc3 acc4 ev1 ev2 ev3 ev4,
    notebook perm w = (Ok g, w', evs) /\
    evs = script_events g m0 acc1 acc3 acc4 ev1 ev2 ev3 ev4 /\
    tested_on (model g) (valid_loader g) false acc1 ev1 /\
    tested_on (model_fq g) (calib_loader g) false acc2 ev2 /\
    tested_on (model_fq_rounded g) (valid_loader g) false acc3 ev3 /\
    tested_on (model_tq g) (valid_loader g) true acc4 ev4 /\
    length (fed ev2) = 8%nat /\
    length (fed ev1) = (len (MNIST false) / 128)%nat /\
    length (fed ev3) = (len (MNIST false) / 128)%nat /\
    length (fed ev4) = (len (MNIST false) / 128)%nat /\
    Forall (fun data => length data = 128%nat)
           (fed ev1 ++ fed ev2 ++ fed ev3 ++ fed ev4).
Proof.
  intros Hrun.
  destruct (notebook_run perm w Hrun)
    as (g & w' & evs & m0 & acc1 & acc2 & acc3 & acc4 & ev1 & ev2 & ev3 & ev4
        & Hnb & Hevs & Hcl & Hvl & T1 & T2 & T3 & T4).
  destruct Hrun as (_ & _ & Hperm & Htrain & _).
  assert (Hfc : fetchable (DataLoader.dataset (calib_loader g))).
  { rewrite Hcl. apply fetchable_Subset; [apply fetchable_MNIST|].
    apply firstn_perm_in_range. exact Hperm. }
  assert (Hfv : fetchable (DataLoader.dataset (valid_loader g))).
  { rewrite Hvl. apply fetchable_MNIST. }
  assert (Hdc : DataLoader.drop_last (calib_loader g) = true) by (rewrite Hcl; reflexivity).
  assert (Hdv : DataLoader.drop_last (valid_loader g) = true) by (rewrite Hvl; reflexivity).
  destruct (tested_on_calls _ _ _ _ _ T1 Hfv Hdv) as (N1 & B1).
  destruct (tested_on_calls _ _ _ _ _ T2 Hfc Hdc) as (N2 & B2).
  destruct (tested_on_calls _ _ _ _ _ T3 Hfv Hdv) as (N3 & B3).
  destruct (tested_on_calls _ _ _ _ _ T4 Hfv Hdv) as (N4 & B4).
  assert (Hnv : DataLoader.n_batches (valid_loader g) = (len (MNIST false) / 128)%nat)
    by (rewrite Hvl; reflexivity).
  assert (Hnc : DataLoader.n_batches (calib_loader g) = 8%nat).
  { rewrite Hcl. unfold DataLoader.n_batches.
    cbn [DataLoader.dataset DataLoader.drop_last DataLoader.batch_size len].
    rewrite (firstn_perm_length perm _ Hperm Htrain). reflexivity. }
  assert (Hbc : DataLoader.batch_size (calib_loader g) = 128%nat) by (rewrite Hcl; reflexivity).
  assert (Hbv : DataLoader.batch_size (valid_loader g) = 128%nat) by (rewrite Hvl; reflexivity).
  rewrite Hbv in B1, B3, B4. rewrite Hbc in B2.
  exists g, w', evs, m0, acc1, acc2, acc3, acc4, ev1, ev2, ev3, ev4.
  repeat split; try assumption; try congruence.
  repeat (apply Forall_app; split); assumption.
Qed.

Lemma module_calls_of_a_run_witness :
  exists g w' evs ev1 ev2,
    notebook (E := Toy.world) Toy.perm [] = (Ok g, w', evs) /\
    length (fed ev2) = 8%nat /\ length (fed ev1) = 2%nat.
Proof.
  destruct (module_calls_of_a_run (E := Toy.world) Toy.perm [] Toy_run_conditions)
    as (g & w' & evs & m0 & acc1 & acc2 & acc3 & acc4 & ev1 & ev2 & ev3 & ev4
        & H1 & _ & _ & _ & _ & _ & H2 & H3 & _).
  exists g, w', evs, ev1, ev2. split; [exact H1|]. split; [exact H2|].
  rewrite H3, Toy_len. reflexivity.
Defined.

(** ** Runs that raise *)

Section SafetyFacts.
Context {E : External}.

Lemma no_export_and_balanced_app (e1 e2 : list Event) :
  no_export_and_balanced e1 -> no_export_and_balanced e2 ->
  no_export_and_balanced (e1 ++ e2).
Proof.
  intros (X1 & B1) (X2 & B2). split.
  - rewrite existsb_app, X1, X2. reflexivity.
  - rewrite !filter_app, !length_app. lia.
Qed.

Lemma careful_bind {A B} (m : M A) (f : A -> M B) :
  careful m -> (forall a, careful (f a)) -> careful (bind m f).
Proof.
  intros Hm Hf w. unfold bind. specialize (Hm w).
  destruct (m w) as [[[a|e] w1] e1]; cbn [snd] in *; [|exact Hm].
  specialize (Hf a w1). destruct (f a w1) as [[r w2] e2]. cbn [snd] in *.
  apply no_export_and_balanced_app; assumption.
Qed.

Lemma exports_last_bind {A B} (m : M A) (f : A -> M B) :
  careful m -> (forall a, exports_last (f a)) -> exports_last (bind m f).
Proof.
  intros Hm Hf w. unfold bind. destruct (Hm w) as (X1 & B1).
  destruct (m w) as [[[a|e] w1] e1]; cbn [fst snd] in *.
  - destruct (Hf a w1) as (B2 & H2).
    destruct (f a w1) as [[r w2] e2]. cbn [fst snd] in *. split.
    + rewrite !filter_app, !length_app. lia.
    + destruct H2 as [H2 | H2]; [left; exact H2|].
      right. rewrite existsb_app, X1, H2. reflexivity.
  - split; [exact B1 | right; exact X1].
Qed.

Lemma careful_lift {A} (r : result A) : careful (lift r).
Proof. intros w. split; reflexivity. Qed.

Lemma careful_ret {A} (a : A) : careful (ret a).
Proof. intros w. split; reflexivity. Qed.

Lemma careful_single (ev : Event) :
  is_export ev = false -> is_calib_enter ev = false -> is_calib_exit ev = false ->
  no_export_and_balanced [ev].
Proof.
  intros H1 H2 H3. split; cbn; [rewrite H1|rewrite H2, H3]; reflexivity.
Qed.

Lemma careful_call {A} (f : W -> A * W) (ev : A -> Event) :
  (forall a, is_export (ev a) = false) ->
  (forall a, is_calib_enter (ev a) = false) ->
  (forall a, is_calib_exit (ev a) = false) ->
  careful (call f ev).
Proof.
  intros H1 H2 H3 w. unfold call. destruct (f w) as [a w1]. cbn [snd].
  apply careful_single; auto.
Qed.

Lemma careful_emit (ev : Event) :
  is_export ev = false -> is_calib_enter ev = false -> is_calib_exit ev = false ->
  careful (emit ev).
Proof. intros H1 H2 H3 w. apply careful_single; assumption. Qed.

(** Whatever happens in it, a run of [validate] only makes its own calls. *)
Lemma validate_step_events model verbose integer st rb w :
  forallb is_validate_event
    (snd (validate_step model verbose integer st rb w)) = true.
Proof.
  unfold validate_step, bind, lift, call, ret, emit.
  destruct rb as [[data target]|e]; [|reflexivity]. cbn [fst snd].
  destruct (forward model _ w) as [output w1]. cbn [fst snd].
  destruct (Torch.nll_loss_sum_item output target) as [l|e]; [|reflexivity].
  destruct (Metric.avg _) as [a|e]; [|reflexivity].
  destruct verbose; reflexivity.
Qed.

Lemma for_each_events model verbose integer rs : forall st w,
  forallb is_validate_event
    (snd (for_each rs (validate_step model verbose integer) st w)) = true.
Proof.
  induction rs as [|rb rs IH]; intros st w; [reflexivity|].
  cbn [for_each]. unfold bind.
  pose proof (validate_step_events model verbose integer st rb w) as H1.
  destruct (validate_step model verbose integer st rb w) as [[[st1|e] w1] e1];
    cbn [snd] in *; [|exact H1].
  specialize (IH st1 w1).
  destruct (for_each rs _ st1 w1) as [[r w2] e2]. cbn [snd] in *.
  rewrite forallb_app, H1, IH. reflexivity.
Qed.

Lemma validate_events model dev dl verbose integer w :
  forallb is_validate_event (snd (validate model dev dl verbose integer w)) = true.
Proof.
  unfold validate, validate_loop, bind, call, lift. cbn [fst snd].
  pose proof (for_each_events model verbose integer (DataLoader.batches dl)
                {| loss := 0; correct := 0; acc := Metric.init "test_acc" |}
                (module_eval model w)) as H.
  destruct (for_each _ _ _ _) as [[[st|e] w1] e1]; cbn [snd] in *.
  - destruct (truediv _ _); [destruct (Metric.avg _)|]; cbn [snd];
      rewrite ?app_nil_r; exact H.
  - exact H.
Qed.

Lemma validate_events_careful (evs : list Event) :
  forallb is_validate_event evs = true -> no_export_and_balanced evs.
Proof.
  induction evs as [|e evs IH]; [split; reflexivity|]. cbn [forallb].
  intros H. apply andb_prop in H. destruct H as (He & H).
  destruct (IH H) as (X & B).
  destruct e; try discriminate; split; cbn; assumption.
Qed.

Lemma careful_validate model dev dl verbose integer :
  careful (validate model dev dl verbose integer).
Proof. intros w. apply validate_events_careful, validate_events. Qed.

(** The calibration context is left however its body ends. *)
Lemma careful_with_calibration {A} m (body : M A) :
  careful body -> careful (with_calibration m body).
Proof.
  intros Hb w. unfold with_calibration, bind, call, finally. cbn [fst snd].
  destruct (Hb (calibration_enter m w)) as (X & B).
  destruct (body (calibration_enter m w)) as [[r w1] e1]. cbn [snd] in *.
  assert (H : no_export_and_balanced (EvCalibEnter m :: e1 ++ [EvCalibExit m])).
  { split.
    - cbn [existsb is_export orb]. rewrite existsb_app, X. reflexivity.
    - change (EvCalibEnter m :: e1 ++ [EvCalibExit m])
        with ([EvCalibEnter m] ++ e1 ++ [EvCalibExit m]).
      rewrite !filter_app, !length_app. cbn. lia. }
  destruct r; exact H.
Qed.

End SafetyFacts.

Ltac careful_step :=
  first
    [ apply careful_lift
    | apply careful_ret
    | apply careful_validate
    | apply careful_with_calibration; apply careful_validate
    | apply careful_emit; reflexivity
    | apply careful_call; intros; reflexivity
    | apply careful_bind; [careful_step | intros; careful_step] ].

(** X10.  When an exception stops a run of the notebook, nothing has been
    handed to DORY, and the calibration context, if it was entered, has been
    left: the [with] statement leaves it when [validate] raises in its body.
    The exceptions are those of the notebook's own code and of what it
    indexes: [ZeroDivisionError] from [validate], [ValueError] and
    [IndexError] from the loss and the datasets; the calls into quantlib are
    taken to return. *)
Theorem export_only_at_the_end {E : External} (perm : list nat) (w : W)
    (e : exn) (w' : W) (evs : list Event) :
  notebook perm w = (Raise e, w', evs) ->
  existsb is_export evs = false /\
  length (filter is_calib_enter evs) = length (filter is_calib_exit evs).
Proof.
  assert (H : exports_last (notebook perm)).
  { unfold notebook, new_ExampleNet, system, to, eval.
    repeat (apply exports_last_bind; [solve [careful_step] | intros ?]).
    intros w0. unfold bind, call, ret. cbn [fst snd app].
    split; [reflexivity | left; eexists; reflexivity]. }
  intros Hnb. destruct (H w) as (Hbal & Hexp). rewrite Hnb in Hbal, Hexp.
  cbn [fst snd] in *. split; [|exact Hbal].
  destruct Hexp as [(g & Hg) | Hexp]; [discriminate | exact Hexp].
Qed.

Lemma export_only_at_the_end_witness :
  exists w' evs,
    notebook (E := Toy_few) (seq 0 100) [] = (Raise ZeroDivisionError, w', evs) /\
    existsb (is_export (E := Toy_few)) evs = false /\
    length (filter (is_calib_enter (E := Toy_few)) evs) = 1%nat /\
    length (filter (is_calib_exit (E := Toy_few)) evs) = 1%nat.
Proof.
  destruct (notebook (E := Toy_few) (seq 0 100) []) as [[r w'] evs] eqn:Hnb.
  assert (Hr : r = Raise ZeroDivisionError).
  { apply (f_equal (fun x => fst (fst x))) in Hnb. vm_compute in Hnb.
    symmetry. exact Hnb. }
  subst r. exists w', evs. split; [reflexivity|].
  destruct (export_only_at_the_end (E := Toy_few) _ _ _ _ _ Hnb) as (H1 & H2).
  split; [exact H1|].
  assert (H3 : length (filter (is_calib_exit (E := Toy_few)) evs) = 1%nat).
  { apply (f_equal (fun x => snd x)) in Hnb. cbn [snd] in Hnb. rewrite <- Hnb.
    vm_compute. reflexivity. }
  split; [rewrite H2; exact H3 | exact H3].
Defined.

(** X11.  When the test split has fewer than 128 items, [valid_loader] has no
    batch and the run stops at the first test, on [ZeroDivisionError]: the
    pretrained weights are loaded and put in evaluation mode, and nothing of
    quantlib has been called. *)
Theorem short_test_split_stops_the_run {E : External} (perm : list nat) (w : W) :
  (len (MNIST false) < 128)%nat ->
  exists m0 m w',
    notebook perm w
    = (Raise ZeroDivisionError, w',
       [ EvNew m0; EvTo m0 device;
         EvSystem "rm -rf examplenet.pt";
         EvSystem "wget https://github.com/MarcelloZanghieri2/NeMO_tutorial/blob/main/smallernet_4.pt?raw=true";
         EvSystem "mv smallernet_4.pt?raw=true examplenet.pt";
         EvNew m; EvTo m device; EvLoadStateDict m "examplenet.pt";
         EvEval m ]%string).
Proof.
  intros Hlen.
  unfold notebook, new_ExampleNet, system, to.
  remember (firstn Mcalib perm) as idx eqn:Hidx. clear Hidx.
  unfold bind at 1. unfold bind at 1. unfold call at 1.
  destruct (nn_Module ExampleNet w) as [m0 w0].
  unfold bind at 1. unfold call at 1. unfold ret at 1. cbn [fst snd app].
  unfold bind at 1. unfold lift at 1. unfold DataLoader.make at 1. cbn [Nat.eqb].
  unfold bind at 1. unfold lift at 1. unfold DataLoader.make at 1. cbn [Nat.eqb].
  unfold bind at 1. unfold call at 1.
  unfold bind at 1. unfold call at 1.
  unfold bind at 1. unfold call at 1.
  unfold bind at 1. unfold bind at 1. unfold call at 1.
  destruct (nn_Module ExampleNet _) as [m w1].
  unfold bind at 1. unfold call at 1. unfold ret at 1. cbn [fst snd app].
  unfold bind at 1. unfold call at 1.
  unfold bind at 1.
  rewrite validate_without_batch by (right; split; [reflexivity | exact Hlen]).
  cbn [app]. eexists m0, m, _. reflexivity.
Qed.

Lemma short_test_split_stops_the_run_witness :
  fst (fst (notebook (E := Toy_short) Toy.perm [])) = Raise ZeroDivisionError.
Proof.
  destruct (short_test_split_stops_the_run (E := Toy_short) Toy.perm [])
    as (m0 & m & w' & H).
  - vm_compute. lia.
  - rewrite H. reflexivity.
Defined.

Ltac find_in_app :=
  first [ solve [cbn; auto 10]
        | apply in_or_app; first [ left; find_in_app | right; find_in_app ] ].

(** X12.  The example input [x] of a run is the first image of the test
    split, as [ToTensor] gives it and as a batch of one.  Its shape, one
    image of one channel with the rows and the columns of the files
    ([1, 1, 28, 28] for MNIST), goes to the Fake2True converter and to the
    DORY export, and [x] itself, as it is, to [dump_features]. *)
Theorem example_input_is_first_test_image {E : External}
    (perm : list nat) (w : W) g w' evs :
  notebook perm w = (Ok g, w', evs) ->
  exists raw y,
    nth_error (mnist_items false) 0 = Some (raw, y) /\
    x g = [Torch.ToTensor raw] /\
    shape (x g) = [1; 1; mnist_rows; mnist_cols]%nat /\
    Forall (Forall is_normalised) (x g) /\
    In (EvF2T (model_fq_rounded g) [1; 1; mnist_rows; mnist_cols]%nat
          input_scale (model_tq g)) evs /\
    In (EvExport (model_tq g) [1; 1; mnist_rows; mnist_cols]%nat ".") evs /\
    In (EvDumpFeatures (model_tq g) [Torch.ToTensor raw] ".") evs.
Proof.
  intros Hnb.
  destruct (notebook_Ok_inv _ _ _ _ _ Hnb)
    as (_ & Hv & _ & Hvl & m0 & acc1 & acc2 & acc3 & acc4 & ev1 & ev2 & ev3 & ev4
        & w1 & w1' & w2 & w2' & w3 & w3' & w4 & w4' & b
        & _ & _ & _ & _ & Hb & Hx & Hevs).
  rewrite Hv in Hvl. rewrite Hvl in Hb.
  assert (Hn : (1 <= DataLoader.n_batches (DataLoader.Build (MNIST false) 128 true))%nat).
  { destruct (DataLoader.n_batches (DataLoader.Build (MNIST false) 128 true))
      as [|k] eqn:Hk; [|lia].
    unfold next_iter, DataLoader.batches in Hb. rewrite Hk in Hb. discriminate. }
  destruct (next_iter_Ok (DataLoader.Build (MNIST false) 128 true)
              (fetchable_MNIST false) eq_refl Hn) as (b' & Hb' & Hfetch & _).
  assert (b' = b) as -> by congruence.
  cbn [DataLoader.dataset DataLoader.batch_size] in Hfetch.
  change (seq 0 128) with (0%nat :: seq 1 127) in Hfetch.
  cbn [DataLoader.fetch getitem] in Hfetch.
  destruct (nth_error (mnist_items false) 0) as [[raw y]|] eqn:H0; [|discriminate].
  destruct (DataLoader.fetch (MNIST false) (seq 1 127)) as [[xs ys]|e];
    [|discriminate].
  inversion Hfetch; subst b. cbn in Hx.
  assert (Hxg : x g = [Torch.ToTensor raw]) by congruence.
  assert (Hshape : shape [Torch.ToTensor raw]
                   = [1; 1; mnist_rows; mnist_cols]%nat) by reflexivity.
  exists raw, y. rewrite Hevs.
  unfold script_events, events_after_calibration. rewrite !Hxg, !Hshape.
  split; [reflexivity|]. split; [reflexivity|]. split; [reflexivity|].
  split; [repeat constructor; apply ToTensor_normalised|].
  repeat split; find_in_app.
Qed.

Lemma example_input_is_first_test_image_witness :
  exists g w' evs,
    notebook (E := Toy.world) Toy.perm [] = (Ok g, w', evs) /\
    (exists raw, x g = [Torch.ToTensor raw]) /\
    shape (x g) = [1; 1; 1; 1]%nat.
Proof.
  destruct (notebook_returns (E := Toy.world) Toy.perm Toy_run_conditions [])
    as (g & w' & evs & Hnb & _).
  destruct (example_input_is_first_test_image _ _ _ _ _ Hnb)
    as (raw & y & _ & Hx & Hs & _).
  exists g, w', evs. split; [exact Hnb|]. split; [exists raw; exact Hx | exact Hs].
Defined.

(** ** The draw and the cells before the calibration *)

Section Split.
Context {E : External}.

Lemma bind_assoc_at {A B C} (m : M A) (f : A -> M B) (g : B -> M C) w :
  bind (bind m f) g w = bind m (fun a => bind (f a) g) w.
Proof.
  unfold bind. destruct (m w) as [[[a|e] w1] e1]; [|reflexivity].
  destruct (f a w1) as [[[b|e] w2] e2]; [|reflexivity].
  destruct (g b w2) as [[r w3] e3]. rewrite app_assoc. reflexivity.
Qed.

Lemma bind_ext_at {A B} (m : M A) (f g : A -> M B) w :
  (forall a w1, f a w1 = g a w1) -> bind m f w = bind m g w.
Proof.
  intros H. unfold bind. destruct (m w) as [[[a|e] w1] e1]; [|reflexivity].
  rewrite H. reflexivity.
Qed.

Lemma bind_ret_at {A B} (a : A) (f : A -> M B) w : bind (ret a) f w = f a w.
Proof. unfold bind, ret. destruct (f a w) as [[r w1] e1]. reflexivity. Qed.

Lemma bind_lift_Ok_at {A B} (a : A) (f : A -> M B) w :
  bind (lift (Ok a)) f w = f a w.
Proof. unfold bind, lift. destruct (f a w) as [[r w1] e1]. reflexivity. Qed.

(** The notebook is its head followed by its tail. *)
Lemma notebook_split perm w :
  notebook perm w = bind notebook_head (notebook_tail perm) w.
Proof.
  unfold notebook, notebook_head, notebook_tail.
  remember (firstn Mcalib perm) as idx eqn:Hidx. clear Hidx.
  rewrite bind_assoc_at. apply bind_ext_at. intros m0 w0.
  change (DataLoader.make (Subset (MNIST true) idx) 128 true)
    with (Ok (DataLoader.Build (Subset (MNIST true) idx) 128 true)).
  change (DataLoader.make (MNIST false) 128 true)
    with (Ok (DataLoader.Build (MNIST false) 128 true)).
  rewrite !bind_lift_Ok_at.
  repeat (rewrite bind_assoc_at; apply bind_ext_at; intros ? ?).
  rewrite bind_ret_at. reflexivity.
Qed.

End Split.

Section HeadFacts.
Context {E : External}.

Lemma notebook_tail_models perm m fp fq w0 g w' t :
  notebook_tail perm (m, fp, fq) w0 = (Ok g, w', t) ->
  model g = m /\ model_fp g = fp /\ model_fq g = fq.
Proof.
  unfold notebook_tail, with_calibration.
  remember (firstn Mcalib perm) as idx eqn:Hidx. clear Hidx. intros H.
  inv_bind H. inv_bind H0. apply finally_Ok_inv in H0.
  destruct H0 as (wc & ec1 & ec2 & _ & _ & ->).
  repeat inv_bind H.
  apply ret_inv in H. destruct H as (Hg & _ & _). subst g. repeat split.
Qed.

Lemma notebook_head_printed w ms w0 e0 :
  notebook_head w = (Ok ms, w0, e0) ->
  exists acc, printed e0 = [("\n\nFullPrecision accuracy: %.3f"%string, acc)].
Proof.
  unfold notebook_head, new_ExampleNet. intros H.
  inv_bind H. inv_bind H0. inv_bind H0. apply ret_inv in H0.
  destruct H0 as (_ & _ & ->).
  inv_bind H. inv_bind H. inv_bind H.
  inv_bind H. inv_bind H0. inv_bind H0. apply ret_inv in H0.
  destruct H0 as (_ & _ & ->).
  inv_bind H. inv_bind H.
  apply validate_Ok_events, printed_validate_events in H0.
  repeat inv_bind H.
  apply ret_inv in H. destruct H as (_ & _ & ->).
  eexists. rewrite !printed_app, H0. cbn. reflexivity.
Qed.

End HeadFacts.

(** X13.  The draw of the calibration subset has no part in the cells before
    the calibration: the calls up to the Float2Fake conversion, the
    pretrained network, its trace, the fake-quantized network and the
    accuracy printed for the floating-point network are those of
    [notebook_head], which is run without the draw and the calibration
    set. *)
Theorem draw_has_no_part_before_calibration {E : External}
    (perm : list nat) (w : W) g w' evs :
  notebook perm w = (Ok g, w', evs) ->
  exists w0 e0 t acc,
    notebook_head w = (Ok (model g, model_fp g, model_fq g), w0, e0) /\
    notebook_tail perm (model g, model_fp g, model_fq g) w0 = (Ok g, w', t) /\
    evs = e0 ++ t /\
    printed e0 = [("\n\nFullPrecision accuracy: %.3f"%string, acc)] /\
    In (EvF2F (model_fp g) (model_fq g)) e0.
Proof.
  intros H. rewrite notebook_split in H.
  apply bind_Ok_inv in H. destruct H as ([[m fp] fq] & w0 & e0 & t & Hh & Ht & ->).
  destruct (notebook_tail_models _ _ _ _ _ _ _ _ Ht) as (<- & <- & <-).
  destruct (notebook_head_printed _ _ _ _ Hh) as (acc & Hp).
  exists w0, e0, t, acc. repeat split; try assumption.
  clear - Hh. unfold notebook_head, new_ExampleNet in Hh.
  inv_bind Hh. inv_bind H. inv_bind H. apply ret_inv in H.
  destruct H as (_ & _ & ->).
  inv_bind Hh. inv_bind Hh. inv_bind Hh.
  inv_bind Hh. inv_bind H. inv_bind H. apply ret_inv in H.
  destruct H as (_ & _ & ->).
  repeat inv_bind Hh.
  apply ret_inv in Hh. destruct Hh as (Hms & _ & ->).
  inversion Hms; subst. find_in_app.
Qed.

Lemma draw_has_no_part_before_calibration_witness :
  exists g1 g2 w1 w2 evs1 evs2,
    notebook (E := Toy.world) Toy.perm [] = (Ok g1, w1, evs1) /\
    notebook (E := Toy.world) Toy.perm' [] = (Ok g2, w2, evs2) /\
    model_fq g1 = model_fq g2 /\
    hd_error (printed evs1) = hd_error (printed evs2).
Proof.
  destruct (notebook_returns (E := Toy.world) Toy.perm Toy_run_conditions [])
    as (g1 & w1 & evs1 & H1 & _).
  destruct (notebook_returns (E := Toy.world) Toy.perm' Toy_run_conditions' [])
    as (g2 & w2 & evs2 & H2 & _).
  destruct (draw_has_no_part_before_calibration _ _ _ _ _ H1)
    as (w0 & e0 & t & acc & Hh & _ & -> & Hp & _).
  destruct (draw_has_no_part_before_calibration _ _ _ _ _ H2)
    as (w0' & e0' & t' & acc' & Hh' & _ & -> & Hp' & _).
  exists g1, g2, w1, w2, (e0 ++ t), (e0' ++ t'). 
  rewrite Hh in Hh'. inversion Hh'; subst.
  repeat split; try assumption.
  rewrite !printed_app, Hp. reflexivity.
Defined.

(** ** A module that returns the wrong number of rows *)

(** X15.  When the module returns, for the first batch, a number of rows that
    is not the number of images, [validate] raises [ValueError] on computing
    the loss: the module has been called once, no accuracy has been shown,
    and no other batch is fetched. *)
Theorem validate_stops_on_wrong_batch_size {E : External}
    model dev dl verbose integer w :
  fetchable (DataLoader.dataset dl) ->
  (1 <= DataLoader.n_batches dl)%nat ->
  (forall data w1,
      data <> [] -> length (fst (forward model data w1)) <> length data) ->
  exists data output w',
    validate model dev dl verbose integer w
    = (Raise ValueError, w', [EvEval model; EvForward model data output]).
Proof.
  intros Hf Hn Hbad.
  destruct (batches_Ok dl Hf) as (bs & Hbs & HF).
  destruct (DataLoader.n_batches dl) as [|n] eqn:Hnb; [lia|].
  cbn [seq] in HF. inversion HF as [|k [xs ys] ks bs' Hk _ Hks Hb]; subst.
  apply fetch_Ok_inv in Hk. destruct Hk as (_ & Hx & Hy).
  assert (Hpos : (1 <= length (DataLoader.batch_indices dl 0))%nat).
  { unfold DataLoader.batch_indices. rewrite length_seq.
    destruct (n_batches_pos dl) as (H1 & H2); [lia|]. cbn [Nat.mul]. lia. }
  assert (Hne : feed integer xs <> []).
  { intros Hnil. apply (f_equal (@length _)) in Hnil.
    rewrite feed_length in Hnil. cbn in Hnil. lia. }
  specialize (Hbad (feed integer xs) (module_eval model w) Hne).
  rewrite feed_length in Hbad.
  destruct (forward model (feed integer xs) (module_eval model w))
    as [output w1] eqn:Hfw.
  cbn [fst] in Hbad.
  exists (feed integer xs), output, w1.
  unfold validate, validate_loop. rewrite Hbs. cbn [map for_each].
  unfold validate_step, bind, call, lift. cbn [fst snd].
  fold (feed integer xs). rewrite Hfw. cbn [fst snd].
  unfold Torch.nll_loss_sum_item.
  destruct (Nat.eqb_spec (length output) (length ys)) as [Heq|_]; [congruence|].
  reflexivity.
Qed.

Lemma validate_stops_on_wrong_batch_size_witness :
  exists data output w',
    validate (E := Toy_mute) 0%nat "cpu" Toy_loader true false []
    = (Raise ValueError, w',
       [@EvEval Toy_mute 0%nat; @EvForward Toy_mute 0%nat data output]).
Proof.
  apply (validate_stops_on_wrong_batch_size (E := Toy_mute)).
  - apply (fetchable_MNIST (E := Toy_mute)).
  - vm_compute. lia.
  - intros [|x data] w1 Hne; [congruence | cbn; discriminate].
Defined.
